(** * html-to-pptx-autofixer: the extraction engine and the auto-fix rules

    A shallow embedding of [html2pptx.js] (layout extraction and validation)
    and [auto_fix.js] (the rule-based repair of the markup), with the
    properties their specification states about them.

    Conventions of the embedding.
    - A JavaScript string is the list of its UTF-16 code units ([jsstring]);
      [js "..."] turns a literal of this file into that list.
    - A JavaScript number is a rational or [NaN].  Where a rounded result
      decides an outcome (a comparison, [Math.round], the normalisation of
      an angle), the arithmetic is that of IEEE doubles, rounded to nearest
      with ties to even ([rnd]); lengths and positions that are only passed
      on are computed exactly.  The infinities have no value in the model.
    - Values the host computes (the rendered geometry, the computed styles,
      the parsed document) are inputs of the functions that read them. *)

From Stdlib Require Import String Ascii.
From Stdlib Require Import List Bool Arith NArith ZArith QArith Qround Qabs.
From Stdlib Require Import Qpower Lia Lqa.
Import ListNotations.

Set Implicit Arguments.

(** ** JavaScript strings *)

Module JS.

(** Code units and strings. *)
Abbreviation char := N.
Abbreviation jsstring := (list N).

Definition emit (cp : N) : jsstring :=
  if (cp <? 65536)%N then [cp]
  else let v := (cp - 65536)%N in
       [(55296 + v / 1024)%N; (56320 + v mod 1024)%N].

(** Literals of this file are UTF-8; [decode] reads them into code units. *)
Fixpoint decode (bs : list N) (need : nat) (acc : N) : jsstring :=
  match bs with
  | [] => []
  | b :: r =>
      match need with
      | O =>
          if (b <? 128)%N then b :: decode r 0 0%N
          else if (b <? 224)%N then decode r 1 (b - 192)%N
          else if (b <? 240)%N then decode r 2 (b - 224)%N
          else decode r 3 (b - 240)%N
      | S k =>
          let acc' := (acc * 64 + (b - 128))%N in
          match k with
          | O => emit acc' ++ decode r 0 0%N
          | S _ => decode r k acc'
          end
      end
  end.

Definition js (s : string) : jsstring :=
  decode (map N_of_ascii (list_ascii_of_string s)) 0 0%N.

Definition ch (s : string) : char := hd 0%N (js s).

Definition char_eqb (a b : char) : bool := N.eqb a b.

Fixpoint str_eqb (a b : jsstring) : bool :=
  match a, b with
  | [], [] => true
  | x :: a', y :: b' => char_eqb x y && str_eqb a' b'
  | _, _ => false
  end.

(** [s.startsWith(p)], returning what follows the prefix. *)
Fixpoint strip (p s : jsstring) : option jsstring :=
  match p, s with
  | [], _ => Some s
  | x :: p', y :: s' => if char_eqb x y then strip p' s' else None
  | _ :: _, [] => None
  end.

Definition startsWith (s p : jsstring) : bool :=
  match strip p s with Some _ => true | None => false end.

(** The first position at which an anchored matcher succeeds, as
    [String.prototype.match] and [RegExp.prototype.exec] scan for it. *)
Fixpoint search {A} (m : jsstring -> option A) (s : jsstring) : option A :=
  match m s with
  | Some r => Some r
  | None => match s with [] => None | _ :: t => search m t end
  end.

Definition includes (s sub : jsstring) : bool :=
  match search (strip sub) s with Some _ => true | None => false end.

(** The longest prefix whose characters satisfy [p], and the rest. *)
Fixpoint span (p : char -> bool) (s : jsstring) : jsstring * jsstring :=
  match s with
  | [] => ([], [])
  | c :: t => if p c then let (a, b) := span p t in (c :: a, b) else ([], s)
  end.

Definition dropWhile (p : char -> bool) (s : jsstring) : jsstring :=
  snd (span p s).

(** [\s]: the WhiteSpace and LineTerminator code points. *)
Definition isSpace (c : char) : bool :=
  ((9 <=? c) && (c <=? 13) || (c =? 32) || (c =? 160) || (c =? 5760)
   || (8192 <=? c) && (c <=? 8202) || (c =? 8232) || (c =? 8233)
   || (c =? 8239) || (c =? 8287) || (c =? 12288) || (c =? 65279))%N.

(** [\d] and [\w]. *)
Definition isDigit (c : char) : bool := ((48 <=? c) && (c <=? 57))%N.

Definition isWord (c : char) : bool :=
  (isDigit c || (65 <=? c) && (c <=? 90) || (97 <=? c) && (c <=? 122)
   || (c =? 95))%N.

Definition trimStart (s : jsstring) : jsstring := dropWhile isSpace s.
Definition trimEnd (s : jsstring) : jsstring := rev (dropWhile isSpace (rev s)).
Definition trim (s : jsstring) : jsstring := trimEnd (trimStart s).

(** [a.join(sep)]. *)
Fixpoint join (sep : jsstring) (l : list jsstring) : jsstring :=
  match l with
  | [] => []
  | [a] => a
  | a :: r => a ++ sep ++ join sep r
  end.

(** ** JavaScript numbers *)

Inductive number := NaN | Num (q : Q).

Definition digitVal (c : char) : N := (c - 48)%N.

Definition digitsVal (ds : jsstring) : N :=
  fold_left (fun acc c => (acc * 10 + digitVal c)%N) ds 0%N.

Definition Qpow10 (e : Z) : Q :=
  match e with
  | Z0 => 1
  | Zpos p => inject_Z (10 ^ Zpos p)
  | Zneg p => 1 / inject_Z (10 ^ Zpos p)
  end.

(** The exponent part of a decimal literal, if a complete one is there. *)
Definition exponent (s : jsstring) : Z :=
  match s with
  | c :: t =>
      if ((c =? 101) || (c =? 69))%N then
        let '(neg, t') :=
          match t with
          | d :: u => if (d =? 45)%N then (true, u)
                      else if (d =? 43)%N then (false, u) else (false, t)
          | [] => (false, t)
          end in
        match fst (span isDigit t') with
        | [] => 0%Z
        | ds => let e := Z.of_N (digitsVal ds) in if neg then (- e)%Z else e
        end
      else 0%Z
  | [] => 0%Z
  end.

(** *** Double precision *)

(** [floor (log2 q)] for a positive rational. *)
Definition log2floor (q : Q) : Z :=
  if Qle_bool 1 q then Z.log2 (Qfloor q)
  else (- Z.log2_up (Qceiling (/ q)))%Z.

(** The nearest integer, ties to the even one. *)
Definition roundEven (q : Q) : Z :=
  let f := Qfloor q in
  let d := q - inject_Z f in
  if Qle_bool d (1 # 2) then
    if Qle_bool (1 # 2) d then (if Z.even f then f else f + 1)%Z else f
  else (f + 1)%Z.

Definition Qpow2 (e : Z) : Q := Qpower 2 e.

(** The double nearest to [q], ties to the even significand: 53 bits, the
    exponent of the last bit no less than -1074 (subnormal numbers).  The
    exponent is not bounded above: a result of [2 ^ 1024] or more is
    beyond the doubles. *)
Definition rnd (q : Q) : Q :=
  if Qeq_bool q 0 then 0
  else
    let a := Qabs q in
    let e := Z.max (log2floor a - 52) (-1074) in
    let r := inject_Z (roundEven (a / Qpow2 e)) * Qpow2 e in
    Qred (if Qle_bool 0 q then r else - r).

(** Whether a rounded number is beyond the doubles, where JavaScript has
    an infinity. *)
Definition overflows (d : Q) : bool := Qle_bool (Qpow2 1024) (Qabs d).

(** [a + b], [a - b], [a * b] and [a / b] on doubles. *)
Definition dadd (a b : Q) : Q := rnd (a + b).
Definition dsub (a b : Q) : Q := rnd (a - b).
Definition dmul (a b : Q) : Q := rnd (a * b).
Definition ddiv (a b : Q) : Q := rnd (a / b).

(** [parseFloat]: leading white space, a sign, then the longest decimal
    literal, as the double nearest to it; [NaN] without one.  (A literal
    beyond the doubles reads as [Infinity] in JavaScript.  The infinities,
    also as the literal [Infinity], have no value in this model and read
    as [NaN].) *)
Definition parseFloat (s : jsstring) : number :=
  let s0 := trimStart s in
  let '(neg, s1) :=
    match s0 with
    | c :: t => if (c =? 45)%N then (true, t)
                else if (c =? 43)%N then (false, t) else (false, s0)
    | [] => (false, s0)
    end in
  let '(ip, s2) := span isDigit s1 in
  let '(fp, s3) :=
    match s2 with
    | c :: t => if (c =? 46)%N then span isDigit t else ([], s2)
    | [] => ([], s2)
    end in
  match ip, fp with
  | [], [] => NaN
  | _, _ =>
      let m := inject_Z (Z.of_N (digitsVal ip))
               + inject_Z (Z.of_N (digitsVal fp))
                 / inject_Z (10 ^ Z.of_nat (length fp)) in
      let v := m * Qpow10 (exponent s3) in
      let d := rnd (if neg then - v else v) in
      if overflows d then NaN else Num d
  end.

Definition isHexDigit (c : char) : bool :=
  (isDigit c || (65 <=? c) && (c <=? 70) || (97 <=? c) && (c <=? 102))%N.

Definition hexVal (c : char) : N :=
  if isDigit c then (c - 48)%N
  else if (c <? 97)%N then (c - 55)%N else (c - 87)%N.

Definition hexDigitsVal (ds : jsstring) : N :=
  fold_left (fun acc c => (acc * 16 + hexVal c)%N) ds 0%N.

(** [parseInt] without a radix: leading white space, a sign, then decimal
    digits, or hexadecimal digits after [0x]. *)
Definition parseInt (s : jsstring) : number :=
  let s0 := trimStart s in
  let '(neg, s1) :=
    match s0 with
    | c :: t => if (c =? 45)%N then (true, t)
                else if (c =? 43)%N then (false, t) else (false, s0)
    | [] => (false, s0)
    end in
  let signed (v : Z) := Num (inject_Z (if neg then (- v)%Z else v)) in
  let decimal :=
    match fst (span isDigit s1) with
    | [] => NaN
    | ds => signed (Z.of_N (digitsVal ds))
    end in
  match s1 with
  | z :: x :: t =>
      if ((z =? 48) && ((x =? 120) || (x =? 88)))%N then
        match fst (span isHexDigit t) with
        | [] => NaN
        | ds => signed (Z.of_N (hexDigitsVal ds))
        end
      else decimal
  | _ => decimal
  end.

(** [Math.round]: the nearest integer, ties towards plus infinity. *)
Definition round (q : Q) : Z := Qfloor (q + (1 # 2)).


Definition Qltb (a b : Q) : bool := negb (Qle_bool b a).

(** [x > 0] for a number that may be [NaN]. *)
Definition positive (n : number) : bool :=
  match n with NaN => false | Num q => Qltb 0 q end.

(** [n || 0]. *)
Definition orZero (n : number) : Q :=
  match n with NaN => 0 | Num q => q end.

Definition nmap (f : Q -> Q) (n : number) : number :=
  match n with NaN => NaN | Num q => Num (f q) end.

(** Decimal digits of a natural number, as [String(n)] prints an integer. *)
Fixpoint digitsOf (fuel : nat) (n : N) (acc : jsstring) : jsstring :=
  match fuel with
  | O => acc
  | S f =>
      let acc' := (48 + n mod 10)%N :: acc in
      if (n / 10 =? 0)%N then acc' else digitsOf f (n / 10)%N acc'
  end.

Definition natToString (n : nat) : jsstring :=
  digitsOf (S n) (N.of_nat n) [].

(** [n.toString(16)] for a natural number: lower-case hexadecimal digits. *)
Definition hexDigit (d : N) : char :=
  if (d <? 10)%N then (48 + d)%N else (87 + d)%N.

Fixpoint hexOf (fuel : nat) (n : N) (acc : jsstring) : jsstring :=
  match fuel with
  | O => acc
  | S f =>
      let acc' := hexDigit (n mod 16) :: acc in
      if (n / 16 =? 0)%N then acc' else hexOf f (n / 16)%N acc'
  end.

Definition toHex (n : N) : jsstring := hexOf (S (N.to_nat (N.log2 n))) n [].

(** [s.padStart(2, "0")]. *)
Definition padStart2 (s : jsstring) : jsstring :=
  match s with
  | [] => js "00"
  | [c] => ch "0" :: s
  | _ => s
  end.

(** One or more digits. *)
Definition digits1 (s : jsstring) : option (jsstring * jsstring) :=
  match span isDigit s with
  | ([], _) => None
  | (d, r) => Some (d, r)
  end.

(** An optional single character. *)
Definition optChar (c : char) (s : jsstring) : jsstring :=
  match s with
  | x :: t => if char_eqb x c then t else s
  | [] => s
  end.

(** An integer inside a template literal. *)
Definition intToString (z : Z) : jsstring :=
  match z with
  | Zneg p => ch "-" :: natToString (Pos.to_nat p)
  | _ => natToString (Z.to_nat z)
  end.

(** [s.split(sep)] for a one-character separator. *)
Fixpoint split (sep : char) (s : jsstring) : list jsstring :=
  match s with
  | [] => [[]]
  | c :: t =>
      if char_eqb c sep then [] :: split sep t
      else match split sep t with
           | a :: r => (c :: a) :: r
           | [] => [[c]]
           end
  end.

Definition nonEmpty (s : jsstring) : bool :=
  match s with [] => false | _ => true end.

Definition doubleQuote : jsstring := [34%N].

Definition newline : jsstring := [10%N].

(** The result of a call that may throw. *)
Inductive Outcome (A : Type) :=
| Returned (value : A)
| Thrown (message : jsstring).

Arguments Returned {A}.
Arguments Thrown {A}.

End JS.

Import JS.

Declare Scope js_scope.
Delimit Scope js_scope with js.
Notation "'do' x <- e ; k" :=
  (match e with Some x => k | None => None end)
  (at level 10, x pattern, e at level 100, k at level 200) : js_scope.
Open Scope js_scope.

(** * html2pptx.js: extraction and validation *)

Module Html2Pptx.

Definition PT_PER_PX : Q := 3 # 4.
Definition PX_PER_IN : Q := 96.
Definition EMU_PER_IN : Q := 914400.

(** ** Unit conversions and colours *)

Definition pxToInch (px : Q) : Q := px / PX_PER_IN.

Definition pxToPoints (pxStr : jsstring) : number :=
  nmap (fun v => v * PT_PER_PX) (parseFloat pxStr).

(** [/rgba?\((\d+),\s*(\d+),\s*(\d+)/] anchored at the head of [s]: the three
    captured groups. *)
Definition rgbAt (s : jsstring) : option (list jsstring) :=
  do s1 <- strip (js "rgb") s;
  do s2 <- strip (js "(") (optChar (ch "a") s1);
  do (r, s3) <- digits1 s2;
  do s4 <- strip (js ",") s3;
  do (g, s5) <- digits1 (dropWhile isSpace s4);
  do s6 <- strip (js ",") s5;
  do (b, _) <- digits1 (dropWhile isSpace s6);
  Some [r; g; b].

Definition hex2 (n : jsstring) : jsstring :=
  match parseInt n with
  | Num q => padStart2 (toHex (Z.to_N (Qfloor q)))
  | NaN => js "NaN"
  end.

Definition rgbToHex (rgbStr : jsstring) : jsstring :=
  if str_eqb rgbStr (js "rgba(0, 0, 0, 0)")
     || str_eqb rgbStr (js "transparent")
  then js "FFFFFF"
  else
    match search rgbAt rgbStr with
    | None => js "FFFFFF"
    | Some groups => concat (map hex2 groups)
    end.

Definition isDigitOrDot (c : char) : bool := isDigit c || char_eqb c (ch ".").

(** [/rgba\((\d+),\s*(\d+),\s*(\d+),\s*([\d.]+)\)/] anchored at the head of
    [s]: the fourth captured group. *)
Definition rgbaAt (s : jsstring) : option jsstring :=
  do s1 <- strip (js "rgba(") s;
  do (_, s2) <- digits1 s1;
  do s3 <- strip (js ",") s2;
  do (_, s4) <- digits1 (dropWhile isSpace s3);
  do s5 <- strip (js ",") s4;
  do (_, s6) <- digits1 (dropWhile isSpace s5);
  do s7 <- strip (js ",") s6;
  match span isDigitOrDot (dropWhile isSpace s7) with
  | ([], _) => None
  | (a, s8) => do _ <- strip (js ")") s8; Some a
  end.

(** [null] is [None]; [Math.round((1 - alpha) * 100)] is computed on
    doubles. *)
Definition extractAlpha (rgbStr : jsstring) : option number :=
  match search rgbaAt rgbStr with
  | None => None
  | Some a =>
      Some (nmap (fun alpha => inject_Z (round (dmul (dsub 1 alpha) 100)))
                 (parseFloat a))
  end.

(** ** What the host provides *)

(** Functions of the JavaScript engine that are read as given:
    [Math.atan2(y, x) * (180 / Math.PI)], the printing of a number inside a
    template literal, and the two case conversions of strings. *)
Class Host := {
  atan2Degrees : Q -> Q -> Q;
  numToString : Q -> jsstring;
  toUpperCase : jsstring -> jsstring;
  toLowerCase : jsstring -> jsstring
}.

Definition applyTextTransform `{Host} (text textTransform : jsstring)
  : jsstring :=
  if str_eqb textTransform (js "uppercase") then toUpperCase text
  else if str_eqb textTransform (js "lowercase") then toLowerCase text
  else if str_eqb textTransform (js "capitalize") then
    (* text.replace(/\b\w/g, c => c.toUpperCase()) *)
    (fix go (prevWord : bool) (s : jsstring) : jsstring :=
       match s with
       | [] => []
       | c :: t =>
           (if isWord c && negb prevWord then toUpperCase [c] else [c])
           ++ go (isWord c) t
       end) false text
  else text.

(** A host for examples whose numbers are integers and whose letters are
    ASCII: it prints the integer part of a number, converts the case of the
    letters A-Z and a-z, and knows the angle of the four axis directions. *)
Definition exampleHost : Host := {|
  atan2Degrees := fun b a =>
    if Qeq_bool b 0 then (if Qltb a 0 then 180 else 0)
    else if Qeq_bool a 0 then (if Qltb b 0 then - (90) else 90)
    else 0;
  numToString := fun q => intToString (Qfloor q);
  toUpperCase :=
    map (fun c => if ((97 <=? c) && (c <=? 122))%N then (c - 32)%N else c);
  toLowerCase :=
    map (fun c => if ((65 <=? c) && (c <=? 90))%N then (c + 32)%N else c)
|}.

(** ** Rotation *)






(** ** The slide model *)

Record Position := { x : Q; y : Q; w : Q; h : Q }.

Record RunOptions := {
  bold : option bool;
  italic : option bool;
  underline : option bool;
  color : option jsstring;
  fontSize : option number;
  transparency : option number;
  bullet : option number;      (* the indent of [{ indent }] *)
  breakLine : option bool
}.

Record Run := { text : jsstring; options : RunOptions }.

Record Stroke := { strokeColor : jsstring; strokeWidth : number }.

Record Shape (Shadow : Type) := {
  fill : option jsstring;
  fillTransparency : option number;
  line : option Stroke;
  rectRadius : number;
  shadow : option Shadow
}.

Record TextStyle := {
  styleFontSize : number;
  styleFontFace : jsstring;
  styleColor : jsstring;
  styleAlign : jsstring;
  styleTransparency : option number;
  styleRotate : option number
}.

Inductive TextValue :=
| PlainText (s : jsstring)
| RunText (runs : list Run).

Inductive SlideElement (Shadow : Type) :=
| ImageEl (src : jsstring) (position : Position)
| LineEl (x1 y1 x2 y2 : Q) (width : Q) (lineColor : jsstring)
| ShapeEl (position : Position) (shape : Shape Shadow)
| ListEl (items : list Run) (position : Position) (style : TextStyle)
| TextEl (type : jsstring) (content : TextValue) (position : Position)
         (style : TextStyle).

Arguments ImageEl {Shadow}.
Arguments LineEl {Shadow}.
Arguments ShapeEl {Shadow}.
Arguments ListEl {Shadow}.
Arguments TextEl {Shadow}.

Inductive Background :=
| ColorBackground (value : jsstring)
| ImageBackground (path : jsstring).

Record Placeholder := { placeholderId : jsstring; placeholderBox : Position }.

Record SlideData (Shadow : Type) := {
  background : Background;
  elements : list (SlideElement Shadow);
  placeholders : list Placeholder;
  errors : list jsstring
}.

(** ** Validation *)

(** What the page reports about its body: the declared size and the
    scrollable content size, in pixels. *)
Record BodyBox := {
  width : Q;
  height : Q;
  scrollWidth : Q;
  scrollHeight : Q
}.

Record BodyDimensions := { box : BodyBox; overflowErrors : list jsstring }.

Definition Qmax0 (q : Q) : Q := if Qltb 0 q then q else 0.

Definition widthOverflowPx (b : BodyBox) : Q :=
  Qmax0 (scrollWidth b - width b - 1).

Definition heightOverflowPx (b : BodyBox) : Q :=
  Qmax0 (scrollHeight b - height b - 1).

Definition footerReminder : jsstring :=
  js "（注意：幻灯片底部需预留 48px(0.5 英寸)边距）".

Definition getBodyDimensions `{Host} (b : BodyBox) : BodyDimensions :=
  let widthOverflowPt := widthOverflowPx b * PT_PER_PX in
  let heightOverflowPt := heightOverflowPx b * PT_PER_PX in
  let errors :=
    if Qltb 0 widthOverflowPt || Qltb 0 heightOverflowPt then
      let directions :=
        (if Qltb 0 (widthOverflowPx b)
         then [numToString (widthOverflowPx b) ++ js "px 水平方向"] else [])
        ++ (if Qltb 0 (heightOverflowPx b)
            then [numToString (heightOverflowPx b) ++ js "px 垂直方向"]
            else []) in
      let reminder := if Qltb 0 heightOverflowPt then footerReminder else [] in
      [js "HTML 内容超出 body 区域（" ++ numToString (width b) ++ js "x"
       ++ numToString (height b) ++ js "）：" ++ join (js " 和 ") directions
       ++ reminder ++ js " "]
    else [] in
  {| box := b; overflowErrors := errors |}.

(** The presentation under construction: its layout, in EMU, when one is
    set, and the slides added so far. *)
Record Layout := { layoutWidthEmu : Q; layoutHeightEmu : Q }.

Record Slide (Shadow : Type) := {
  slideBackground : option Background;
  slideElements : list (SlideElement Shadow)
}.

Record Presentation (Shadow : Type) := {
  presLayout : option Layout;
  slides : list (Slide Shadow)
}.

(** The sizes are compared in inches, on doubles. *)
Definition validateDimensions `{Host} {Shadow} (bodyDimensions : BodyBox)
    (pres : Presentation Shadow) : list jsstring :=
  let widthInches := ddiv (width bodyDimensions) PX_PER_IN in
  let heightInches := ddiv (height bodyDimensions) PX_PER_IN in
  match presLayout pres with
  | Some layout =>
      let layoutWidth := ddiv (layoutWidthEmu layout) EMU_PER_IN in
      let layoutHeight := ddiv (layoutHeightEmu layout) EMU_PER_IN in
      if Qltb (rnd (1 # 10)) (Qabs (dsub layoutWidth widthInches))
         || Qltb (rnd (1 # 10)) (Qabs (dsub layoutHeight heightInches))
      then
        let layoutWidthPx := round (dmul layoutWidth PX_PER_IN) in
        let layoutHeightPx := round (dmul layoutHeight PX_PER_IN) in
        [js "HTML 尺寸（" ++ numToString (width bodyDimensions) ++ js "px × "
         ++ numToString (height bodyDimensions) ++ js "px）与 PPT 布局（"
         ++ intToString layoutWidthPx ++ js "px × "
         ++ intToString layoutHeightPx ++ js "px）不匹配"]
      else []
  | None => []
  end.

Definition textTypes : list jsstring :=
  map js ["p"; "h1"; "h2"; "h3"; "h4"; "h5"; "h6"; "list"]%string.

Definition elementType {Shadow} (el : SlideElement Shadow) : jsstring :=
  match el with
  | ImageEl _ _ => js "image"
  | LineEl _ _ _ _ _ _ => js "line"
  | ShapeEl _ _ => js "shape"
  | ListEl _ _ _ => js "list"
  | TextEl t _ _ _ => t
  end.

(** [a.find((t) => t.text)?.text || ""]. *)
Definition firstText (runs : list Run) : jsstring :=
  match find (fun r => match text r with [] => false | _ => true end) runs with
  | Some r => text r
  | None => []
  end.

(** The distance from the bottom is computed on doubles. *)
Definition validateTextBoxPosition {Shadow} (slideData : SlideData Shadow)
    (bodyDimensions : BodyBox) : list jsstring :=
  let slideHeightPx := height bodyDimensions in
  let minBottomMarginPx := 48 in
  flat_map
    (fun el =>
       if existsb (str_eqb (elementType el)) textTypes then
         let '(style, position, getText) :=
           match el with
           | ListEl items position style => (Some style, position, firstText items)
           | TextEl _ (PlainText s) position style => (Some style, position, s)
           | TextEl _ (RunText runs) position style =>
               (Some style, position, firstText runs)
           | ImageEl _ position | ShapeEl position _ => (None, position, [])
           | LineEl _ _ _ _ _ _ => (None, Build_Position 0 0 0 0, [])
           end in
         let fontSize :=
           match style with
           | Some st => orZero (styleFontSize st)
           | None => 0
           end in
         let bottomEdgePx :=
           dmul (dadd (y position) (h position)) PX_PER_IN in
         let distanceFromBottomPx := dsub slideHeightPx bottomEdgePx in
         if Qltb 12 fontSize && Qltb distanceFromBottomPx minBottomMarginPx
         then
           let textPrefix :=
             firstn 50 getText
             ++ (if (50 <? length getText)%nat then js "..." else []) in
           [js "文本框" ++ doubleQuote ++ textPrefix ++ doubleQuote
            ++ js "距离底部过近（" ++ intToString (round distanceFromBottomPx)
            ++ js "px，至少需 " ++ intToString 48 ++ js "px）"]
         else []
       else [])
    (elements slideData).

(** ** The conversion of one file *)

(** The message of the failure raised inside the [try] block. *)
Definition errorMessage (validationErrors : list jsstring) : jsstring :=
  match validationErrors with
  | [e] => e
  | _ =>
      js "发现多个校验错误：" ++ newline
      ++ join newline
           (map (fun '(i, e) => js "  " ++ natToString (i + 1) ++ js ". " ++ e)
                (combine (seq 0 (length validationErrors)) validationErrors))
  end.

Record Converted (Shadow : Type) := {
  slide : Slide Shadow;
  resultPlaceholders : list Placeholder
}.

Definition addBackground {Shadow} (slideData : SlideData Shadow)
    (targetSlide : Slide Shadow) : option Background :=
  match background slideData with
  | ImageBackground (_ :: _ as path) =>
      (* a leading [file://] is taken off the path *)
      Some (ImageBackground
              (match strip (js "file://") path with
               | Some imagePath => imagePath
               | None => path
               end))
  | ColorBackground (_ :: _ as value) => Some (ColorBackground value)
  | _ => slideBackground targetSlide
  end.

(** [html2pptx(htmlFile, pres, { slide })], given what the page reports
    ([body]) and what the extraction returns ([slideData]).  The result is
    the outcome and the presentation afterwards.  (The download of remote
    images, which can only drop an image from the emitted slide, is not
    modelled.) *)
Definition html2pptx `{Host} {Shadow} (htmlFile : jsstring)
    (pres : Presentation Shadow) (slideOption : option (Slide Shadow))
    (body : BodyBox) (slideData : SlideData Shadow)
  : Outcome (Converted Shadow) * Presentation Shadow :=
  let bodyDimensions := getBodyDimensions body in
  (* Collect all validation errors *)
  let validationErrors :=
    overflowErrors bodyDimensions
    ++ validateDimensions body pres
    ++ validateTextBoxPosition slideData body
    ++ errors slideData in
  match validationErrors with
  | _ :: _ =>
      let message := errorMessage validationErrors in
      (* the catch clause *)
      if startsWith message htmlFile then (Thrown message, pres)
      else (Thrown (htmlFile ++ js ": " ++ message), pres)
  | [] =>
      let targetSlide :=
        match slideOption with
        | Some given => given
        | None => {| slideBackground := None; slideElements := [] |}
        end in
      let filled :=
        {| slideBackground := addBackground slideData targetSlide;
           slideElements :=
             slideElements targetSlide ++ elements slideData |} in
      let pres' :=
        match slideOption with
        | Some _ => pres
        | None => {| presLayout := presLayout pres;
                     slides := slides pres ++ [filled] |}
        end in
      (Returned {| slide := filled;
                   resultPlaceholders := placeholders slideData |}, pres')
  end.

(** ** The rendered document *)

(** The properties of [window.getComputedStyle(el)] that the extraction
    reads, as the strings the browser serialises. *)
Module Computed.
Record style := {
  backgroundColor : jsstring;
  backgroundImage : jsstring;
  borderTopWidth : jsstring;
  borderRightWidth : jsstring;
  borderBottomWidth : jsstring;
  borderLeftWidth : jsstring;
  borderWidth : jsstring;
  borderTopColor : jsstring;
  borderRightColor : jsstring;
  borderBottomColor : jsstring;
  borderLeftColor : jsstring;
  borderColor : jsstring;
  borderRadius : jsstring;
  boxShadow : jsstring;
  fontWeight : jsstring;
  fontFamily : jsstring;
  fontStyle : jsstring;
  textDecoration : jsstring;
  color : jsstring;
  fontSize : jsstring;
  textTransform : jsstring;
  textAlign : jsstring;
  marginLeft : jsstring;
  marginRight : jsstring;
  marginTop : jsstring;
  marginBottom : jsstring;
  transform : jsstring;
  writingMode : jsstring
}.
End Computed.

(** [el.getBoundingClientRect()]. *)
Record DOMRect := {
  rectLeft : Q;
  rectTop : Q;
  rectWidth : Q;
  rectHeight : Q
}.

#[warnings="-register-all"]
Inductive Node :=
| TextNode (data : jsstring)
| CommentNode (data : jsstring)
| ElementNode (tagName : jsstring) (computed : Computed.style)
              (rect : DOMRect) (childNodes : list Node).

(** [node.textContent]. *)
Fixpoint textContent (node : Node) : jsstring :=
  match node with
  | TextNode data => data
  | CommentNode data => data
  | ElementNode _ _ _ children =>
      (fix descend (l : list Node) : jsstring :=
         match l with
         | [] => []
         | CommentNode _ :: r => descend r
         | n :: r => textContent n ++ descend r
         end) children
  end.

(** ** Containers: shapes and border lines *)

Section Containers.
Context `{Host}.
Variable Shadow : Type.
(** The reading of the computed [box-shadow]; no property below depends on
    what it returns. *)
Variable parseBoxShadow : jsstring -> option Shadow.

Definition unwrappedTextErrors (childNodes : list Node) : list jsstring :=
  flat_map
    (fun node =>
       match node with
       | TextNode data =>
           let text := trim data in
           if nonEmpty text then
             [js "DIV 元素包含未包裹文本“" ++ firstn 50 text
              ++ (if (50 <? length text)%nat then js "..." else [])
              ++ js "”。所有文本必须用 <p>、<h1>-<h6>、<ul> 或 <ol> 标签包裹，才能在 PPT 中显示。"]
           else []
       | _ => []
       end)
    childNodes.

Inductive Edge := TopEdge | RightEdge | BottomEdge | LeftEdge.

Definition edgeWidth (computed : Computed.style) (e : Edge) : jsstring :=
  match e with
  | TopEdge => Computed.borderTopWidth computed
  | RightEdge => Computed.borderRightWidth computed
  | BottomEdge => Computed.borderBottomWidth computed
  | LeftEdge => Computed.borderLeftWidth computed
  end.

Definition edgeColor (computed : Computed.style) (e : Edge) : jsstring :=
  match e with
  | TopEdge => Computed.borderTopColor computed
  | RightEdge => Computed.borderRightColor computed
  | BottomEdge => Computed.borderBottomColor computed
  | LeftEdge => Computed.borderLeftColor computed
  end.

(** The line pushed for one edge, when its width is positive. *)
Definition borderLine (computed : Computed.style) (rect : DOMRect) (e : Edge)
  : list (SlideElement Shadow) :=
  let x := pxToInch (rectLeft rect) in
  let y := pxToInch (rectTop rect) in
  let w := pxToInch (rectWidth rect) in
  let h := pxToInch (rectHeight rect) in
  match parseFloat (edgeWidth computed e) with
  | Num px =>
      if Qltb 0 px then
        let widthPt := px * PT_PER_PX in
        let inset := widthPt / 72 / 2 in
        let color := rgbToHex (edgeColor computed e) in
        match e with
        | TopEdge => [LineEl x (y + inset) (x + w) (y + inset) widthPt color]
        | RightEdge =>
            [LineEl (x + w - inset) y (x + w - inset) (y + h) widthPt color]
        | BottomEdge =>
            [LineEl x (y + h - inset) (x + w) (y + h - inset) widthPt color]
        | LeftEdge => [LineEl (x + inset) y (x + inset) (y + h) widthPt color]
        end
      else []
  | NaN => []
  end.

Definition Qmin2 (a b : Q) : Q := if Qle_bool a b then a else b.

(** The conversion of the computed [border-radius]. *)
Definition convertRadius (radius : jsstring) (rect : DOMRect) : number :=
  let radiusValue := parseFloat radius in
  let isZero :=
    match radiusValue with Num v => Qeq_bool v 0 | NaN => false end in
  if isZero then Num 0
  else if includes radius (js "%") then
    match radiusValue with
    | Num v =>
        if Qle_bool 50 v then Num 1
        else
          let minDim := Qmin2 (rectWidth rect) (rectHeight rect) in
          Num ((v / 100) * pxToInch minDim)
    | NaN => NaN
    end
  else if includes radius (js "pt") then nmap (fun v => v / 72) radiusValue
  else nmap (fun v => v / PX_PER_IN) radiusValue.

Record Extracted := {
  pushed : list (SlideElement Shadow);
  reported : list jsstring;
  claimed : bool          (* whether the element joins the processed set *)
}.

(** The branch of the traversal that handles a [DIV] which is neither
    already processed nor a placeholder. *)
Definition extractContainer (computed : Computed.style) (rect : DOMRect)
    (childNodes : list Node) : Extracted :=
  let hasBg :=
    nonEmpty (Computed.backgroundColor computed)
    && negb (str_eqb (Computed.backgroundColor computed)
                     (js "rgba(0, 0, 0, 0)")) in
  let textErrors := unwrappedTextErrors childNodes in
  let bgImage := Computed.backgroundImage computed in
  if nonEmpty bgImage && negb (str_eqb bgImage (js "none")) then
    {| pushed := [];
       reported :=
         textErrors
         ++ [js "DIV 元素上的背景图片不支持。请使用纯色或边框作为形状，或用 slide.addImage() 叠加图片。"];
       claimed := false |}
  else
    let edges := [TopEdge; RightEdge; BottomEdge; LeftEdge] in
    let borders :=
      map (fun e => orZero (parseFloat (edgeWidth computed e))) edges in
    let hasBorder := existsb (fun b => Qltb 0 b) borders in
    let hasUniformBorder :=
      hasBorder && forallb (fun b => Qeq_bool b (hd 0 borders)) borders in
    let borderLines :=
      if hasBorder && negb hasUniformBorder
      then flat_map (borderLine computed rect) edges else [] in
    if (hasBg || hasBorder)
       && (Qltb 0 (rectWidth rect) && Qltb 0 (rectHeight rect))
    then
      let shapes :=
        if hasBg || hasUniformBorder then
          [ShapeEl
             {| x := pxToInch (rectLeft rect);
                y := pxToInch (rectTop rect);
                w := pxToInch (rectWidth rect);
                h := pxToInch (rectHeight rect) |}
             {| fill :=
                  if hasBg then Some (rgbToHex (Computed.backgroundColor computed))
                  else None;
                fillTransparency :=
                  if hasBg then extractAlpha (Computed.backgroundColor computed)
                  else None;
                line :=
                  if hasUniformBorder then
                    Some {| strokeColor := rgbToHex (Computed.borderColor computed);
                            strokeWidth := pxToPoints (Computed.borderWidth computed) |}
                  else None;
                rectRadius := convertRadius (Computed.borderRadius computed) rect;
                shadow := parseBoxShadow (Computed.boxShadow computed) |}]
        else [] in
      {| pushed := shapes ++ borderLines;
         reported := textErrors;
         claimed := true |}
    else
      {| pushed := []; reported := textErrors; claimed := false |}.

(** What the callback of [document.querySelectorAll("*").forEach] does for
    one element. *)
Record Visited := {
  elementsPushed : list (SlideElement Shadow);
  placeholdersPushed : list Placeholder;
  errorsPushed : list jsstring;
  processedAdded : bool
}.

(** The callback for a [DIV] that is not yet in the processed set, with
    the tokens of its class attribute, its id and the number of the
    placeholders found so far.  A [DIV] is no text element and no image:
    it is a placeholder, or else it goes through the container branch and
    no other. *)
Definition extractDiv (classList : list jsstring) (id : jsstring)
    (placeholderCount : nat) (computed : Computed.style) (rect : DOMRect)
    (childNodes : list Node) : Visited :=
  if existsb (str_eqb (js "placeholder")) classList then
    if Qeq_bool (rectWidth rect) 0 || Qeq_bool (rectHeight rect) 0 then
      {| elementsPushed := [];
         placeholdersPushed := [];
         errorsPushed :=
           [js "占位符“" ++ (if nonEmpty id then id else js "未命名")
            ++ js "”宽高为0。请检查布局CSS。"];
         processedAdded := true |}
    else
      {| elementsPushed := [];
         placeholdersPushed :=
           [{| placeholderId :=
                 if nonEmpty id then id
                 else js "placeholder-" ++ natToString placeholderCount;
               placeholderBox :=
                 {| x := pxToInch (rectLeft rect);
                    y := pxToInch (rectTop rect);
                    w := pxToInch (rectWidth rect);
                    h := pxToInch (rectHeight rect) |} |}];
         errorsPushed := [];
         processedAdded := true |}
  else
    let container := extractContainer computed rect childNodes in
    {| elementsPushed := pushed container;
       placeholdersPushed := [];
       errorsPushed := reported container;
       processedAdded := claimed container |}.

End Containers.

(** A computed style for examples: a box with the given background colour,
    background image, border widths (top, right, bottom, left, shorthand)
    and radius, black text and no other decoration. *)
Definition boxStyle (bgColor bgImage top right bottom left shorthand radius
    : jsstring) : Computed.style :=
  {| Computed.backgroundColor := bgColor;
     Computed.backgroundImage := bgImage;
     Computed.borderTopWidth := top;
     Computed.borderRightWidth := right;
     Computed.borderBottomWidth := bottom;
     Computed.borderLeftWidth := left;
     Computed.borderWidth := shorthand;
     Computed.borderTopColor := js "rgb(0, 0, 0)";
     Computed.borderRightColor := js "rgb(0, 0, 0)";
     Computed.borderBottomColor := js "rgb(0, 0, 0)";
     Computed.borderLeftColor := js "rgb(0, 0, 0)";
     Computed.borderColor := js "rgb(0, 0, 0)";
     Computed.borderRadius := radius;
     Computed.boxShadow := js "none";
     Computed.fontWeight := js "400";
     Computed.fontFamily := js "Arial";
     Computed.fontStyle := js "normal";
     Computed.textDecoration := js "none";
     Computed.color := js "rgb(0, 0, 0)";
     Computed.fontSize := js "16px";
     Computed.textTransform := js "none";
     Computed.textAlign := js "start";
     Computed.marginLeft := js "0px";
     Computed.marginRight := js "0px";
     Computed.marginTop := js "0px";
     Computed.marginBottom := js "0px";
     Computed.transform := js "none";
     Computed.writingMode := js "horizontal-tb" |}.

Definition box100 : DOMRect :=
  {| rectLeft := 0; rectTop := 0; rectWidth := 100; rectHeight := 100 |}.

(** A box with a background image and a border of 2px on every side. *)
Definition imageBox : Computed.style :=
  boxStyle (js "rgba(0, 0, 0, 0)") (js "url(paper.png)")
           (js "2px") (js "2px") (js "2px") (js "2px") (js "2px") (js "0px").

(** A white box with a border of 2px on every side. *)
Definition uniformBox : Computed.style :=
  boxStyle (js "rgb(255, 255, 255)") (js "none")
           (js "2px") (js "2px") (js "2px") (js "2px") (js "2px") (js "0px").


(** ** The inline run parser *)

Section InlineRuns.
Context `{Host}.

Definition SINGLE_WEIGHT_FONTS : list jsstring := [js "impact"].

Definition isQuote (c : char) : bool := (c =? 39)%N || (c =? 34)%N.

Definition shouldSkipBold (fontFamily : jsstring) : bool :=
  match fontFamily with
  | [] => false
  | _ =>
      let normalizedFont :=
        trim (hd [] (split (ch ",")
                       (filter (fun c => negb (isQuote c))
                               (toLowerCase fontFamily)))) in
      existsb (str_eqb normalizedFont) SINGLE_WEIGHT_FONTS
  end.

(** [s.replace(/\s+/g, " ")]. *)
Fixpoint collapseSpaces (s : jsstring) : jsstring :=
  match s with
  | [] => []
  | c :: t =>
      if isSpace c then
        match t with
        | c' :: _ => if isSpace c' then collapseSpaces t
                     else 32%N :: collapseSpaces t
        | [] => [32%N]
        end
      else c :: collapseSpaces t
  end.

Definition noOptions : RunOptions :=
  {| bold := None; italic := None; underline := None; color := None;
     fontSize := None; transparency := None; bullet := None;
     breakLine := None |}.

Definition setText (r : Run) (t : jsstring) : Run :=
  {| text := t; options := options r |}.

(** [runs[runs.length - 1].text = f(runs[runs.length - 1].text)]. *)
Definition updateLast (f : jsstring -> jsstring) (runs : list Run) : list Run :=
  match rev runs with
  | [] => []
  | r :: before => rev before ++ [setText r (f (text r))]
  end.

Definition updateFirst (f : jsstring -> jsstring) (runs : list Run) : list Run :=
  match runs with
  | [] => []
  | r :: after => setText r (f (text r)) :: after
  end.

(** A text node or a line break: appended to the previous run when the
    previous sibling was one too, a run of its own otherwise. *)
Definition addFragment (prevNodeIsText : bool) (fragment : jsstring)
    (baseOptions : RunOptions) (runs : list Run) : list Run :=
  if prevNodeIsText && negb (length runs =? 0)%nat
  then updateLast (fun t => t ++ fragment) runs
  else runs ++ [{| text := fragment; options := baseOptions |}].

(** The trimming at the end of every call of [parseInlineFormatting]. *)
Definition trimEnds (runs : list Run) : list Run :=
  updateLast trimEnd (updateFirst trimStart runs).

Definition inlineTags : list jsstring :=
  map js ["SPAN"; "B"; "STRONG"; "I"; "EM"; "U"]%string.

Definition isBoldWeight (computed : Computed.style) : bool :=
  str_eqb (Computed.fontWeight computed) (js "bold")
  || match parseInt (Computed.fontWeight computed) with
     | Num v => Qle_bool 600 v
     | NaN => false
     end.

(** The options of the runs under an inline element. *)
Definition inlineOptions (computed : Computed.style) (baseOptions : RunOptions)
  : RunOptions :=
  let isBold := isBoldWeight computed in
  let hasColor :=
    nonEmpty (Computed.color computed)
    && negb (str_eqb (Computed.color computed) (js "rgb(0, 0, 0)")) in
  {| bold :=
       if isBold && negb (shouldSkipBold (Computed.fontFamily computed))
       then Some true else bold baseOptions;
     italic :=
       if str_eqb (Computed.fontStyle computed) (js "italic")
       then Some true else italic baseOptions;
     underline :=
       if includes (Computed.textDecoration computed) (js "underline")
       then Some true else underline baseOptions;
     color :=
       if hasColor then Some (rgbToHex (Computed.color computed))
       else color baseOptions;
     fontSize :=
       if nonEmpty (Computed.fontSize computed)
       then Some (pxToPoints (Computed.fontSize computed))
       else fontSize baseOptions;
     transparency :=
       if hasColor then
         match extractAlpha (Computed.color computed) with
         | Some t => Some t
         | None => transparency baseOptions
         end
       else transparency baseOptions;
     bullet := bullet baseOptions;
     breakLine := breakLine baseOptions |}.

Definition marginErrors (tagName : jsstring) (computed : Computed.style)
  : list jsstring :=
  let report (side value : jsstring) :=
    if nonEmpty value && positive (parseFloat value) then
      [js "内联元素 <" ++ toLowerCase tagName ++ js "> 存在 margin-" ++ side
       ++ js "，PPT 不支持。请移除内联元素的 margin。"]
    else [] in
  report (js "left") (Computed.marginLeft computed)
  ++ report (js "right") (Computed.marginRight computed)
  ++ report (js "top") (Computed.marginTop computed)
  ++ report (js "bottom") (Computed.marginBottom computed).

(** The array of runs and the list of validation errors, both shared by all
    the calls of one parse. *)
Record Parse := { runs : list Run; parseErrors : list jsstring }.

(** The body of the [forEach] callback for one child; the result carries the
    new value of [prevNodeIsText]. *)
Fixpoint visit (node : Node) (baseOptions : RunOptions)
    (baseTextTransform : jsstring -> jsstring) (prevNodeIsText : bool)
    (st : Parse) : Parse * bool :=
  match node with
  | TextNode data =>
      ({| runs := addFragment prevNodeIsText
                    (baseTextTransform (collapseSpaces data))
                    baseOptions (runs st);
          parseErrors := parseErrors st |}, true)
  | CommentNode _ => (st, false)
  | ElementNode tagName computed _ children =>
      if str_eqb tagName (js "BR") then
        ({| runs := addFragment prevNodeIsText newline baseOptions (runs st);
            parseErrors := parseErrors st |}, true)
      else if nonEmpty (trim (textContent node))
              && existsb (str_eqb tagName) inlineTags then
        let options := inlineOptions computed baseOptions in
        let textTransform :=
          if nonEmpty (Computed.textTransform computed)
             && negb (str_eqb (Computed.textTransform computed) (js "none"))
          then fun text =>
                 applyTextTransform text (Computed.textTransform computed)
          else baseTextTransform in
        let st1 :=
          {| runs := runs st;
             parseErrors := parseErrors st ++ marginErrors tagName computed |} in
        (* the recursive call on the element *)
        let st2 :=
          (fix each (l : list Node) (prev : bool) (s : Parse) : Parse :=
             match l with
             | [] => s
             | child :: rest =>
                 let (s', prev') := visit child options textTransform prev s in
                 each rest prev' s'
             end) children false st1 in
        ({| runs := trimEnds (runs st2); parseErrors := parseErrors st2 |},
         false)
      else (st, false)
  end.

Fixpoint visitAll (l : list Node) (baseOptions : RunOptions)
    (baseTextTransform : jsstring -> jsstring) (prev : bool) (s : Parse)
  : Parse :=
  match l with
  | [] => s
  | child :: rest =>
      let (s', prev') := visit child baseOptions baseTextTransform prev s in
      visitAll rest baseOptions baseTextTransform prev' s'
  end.

(** [parseInlineFormatting(element, baseOptions, runs, baseTextTransform)]
    for an element with the given children: the runs returned, and the
    errors after the call. *)
Definition parseInlineFormatting (childNodes : list Node)
    (baseOptions : RunOptions) (runs0 : list Run)
    (baseTextTransform : jsstring -> jsstring) (errors0 : list jsstring)
  : list Run * list jsstring :=
  let st :=
    visitAll childNodes baseOptions baseTextTransform false
      {| runs := runs0; parseErrors := errors0 |} in
  (filter (fun r => (0 <? length (text r))%nat) (trimEnds (runs st)),
   parseErrors st).





End InlineRuns.

(** Two bold elements side by side, and a sentence with a bold word in the
    middle. *)
Definition boldStyle : Computed.style :=
  {| Computed.backgroundColor := js "rgba(0, 0, 0, 0)";
     Computed.backgroundImage := js "none";
     Computed.borderTopWidth := js "0px";
     Computed.borderRightWidth := js "0px";
     Computed.borderBottomWidth := js "0px";
     Computed.borderLeftWidth := js "0px";
     Computed.borderWidth := js "0px";
     Computed.borderTopColor := js "rgb(0, 0, 0)";
     Computed.borderRightColor := js "rgb(0, 0, 0)";
     Computed.borderBottomColor := js "rgb(0, 0, 0)";
     Computed.borderLeftColor := js "rgb(0, 0, 0)";
     Computed.borderColor := js "rgb(0, 0, 0)";
     Computed.borderRadius := js "0px";
     Computed.boxShadow := js "none";
     Computed.fontWeight := js "700";
     Computed.fontFamily := js "Arial";
     Computed.fontStyle := js "normal";
     Computed.textDecoration := js "none";
     Computed.color := js "rgb(0, 0, 0)";
     Computed.fontSize := js "16px";
     Computed.textTransform := js "none";
     Computed.textAlign := js "start";
     Computed.marginLeft := js "0px";
     Computed.marginRight := js "0px";
     Computed.marginTop := js "0px";
     Computed.marginBottom := js "0px";
     Computed.transform := js "none";
     Computed.writingMode := js "horizontal-tb" |}.

Definition inlineRect : DOMRect :=
  {| rectLeft := 0; rectTop := 0; rectWidth := 40; rectHeight := 20 |}.

Definition boldElement (content : jsstring) : Node :=
  ElementNode (js "B") boldStyle inlineRect [TextNode content].


Definition boldInSentence : list Node :=
  [TextNode (js "Hello "); boldElement (js "bold "); TextNode (js "world")].

(** ** Positions *)

(** [getPositionAndSize(el, rect, rotation)], in pixels; of the element only
    its [offsetWidth] and [offsetHeight] are read. *)
Definition getPositionAndSize (offsetWidth offsetHeight : Q) (rect : DOMRect)
    (rotation : option number) : Position :=
  match rotation with
  | None =>
      {| x := rectLeft rect; y := rectTop rect;
         w := rectWidth rect; h := rectHeight rect |}
  | Some angle =>
      let isVertical :=
        match angle with
        | Num a => Qeq_bool a 90 || Qeq_bool a 270
        | NaN => false
        end in
      let centerX := rectLeft rect + rectWidth rect / 2 in
      let centerY := rectTop rect + rectHeight rect / 2 in
      if isVertical then
        {| x := centerX - rectHeight rect / 2;
           y := centerY - rectWidth rect / 2;
           w := rectHeight rect;
           h := rectWidth rect |}
      else
        {| x := centerX - offsetWidth / 2;
           y := centerY - offsetHeight / 2;
           w := offsetWidth;
           h := offsetHeight |}
  end.

(** [el.style.lineSpacing || el.style.fontSize * 1.2], in points: a line
    spacing that is absent, zero or not a number gives way to 1.2 times the
    font size.  The products are those of doubles, since a comparison
    follows. *)
Definition lineHeightOf (lineSpacing : option number) (fontSize : number)
  : number :=
  match lineSpacing with
  | Some (Num l) =>
      if Qeq_bool l 0 then nmap (fun f => dmul f (rnd (12 # 10))) fontSize
      else Num l
  | _ => nmap (fun f => dmul f (rnd (12 # 10))) fontSize
  end.

(** [el.position.h <= lineHeight * 1.5]. *)
Definition isSingleLine (position : Position)
    (lineSpacing : option number) (fontSize : number) : bool :=
  match lineHeightOf lineSpacing fontSize with
  | Num l => Qle_bool (h position) (dmul l (15 # 10))
  | NaN => false
  end.

(** The box of a text element in [addElements]: [adjustedX] and
    [adjustedW]. *)
Definition adjustTextBox (position : Position)
    (lineSpacing : option number) (fontSize : number) (align : jsstring)
  : Q * Q :=
  if isSingleLine position lineSpacing fontSize then
    let widthIncrease := w position * (2 # 100) in
    if str_eqb align (js "center") then
      (x position - widthIncrease / 2, w position + widthIncrease)
    else if str_eqb align (js "right") then
      (x position - widthIncrease, w position + widthIncrease)
    else (x position, w position + widthIncrease)
  else (x position, w position).

(** ** Text elements *)

Definition textTags : list jsstring :=
  map js ["P"; "H1"; "H2"; "H3"; "H4"; "H5"; "H6"; "UL"; "OL"; "LI"]%string.

(** The check that a text element has no background, border or shadow: the
    error pushed for it, if any. *)
Definition textElementError `{Host} (tagName : jsstring)
    (computed : Computed.style) : option jsstring :=
  if existsb (str_eqb tagName) textTags then
    let hasBg :=
      nonEmpty (Computed.backgroundColor computed)
      && negb (str_eqb (Computed.backgroundColor computed)
                       (js "rgba(0, 0, 0, 0)")) in
    let hasBorder :=
      positive (parseFloat (Computed.borderWidth computed))
      || positive (parseFloat (Computed.borderTopWidth computed))
      || positive (parseFloat (Computed.borderRightWidth computed))
      || positive (parseFloat (Computed.borderBottomWidth computed))
      || positive (parseFloat (Computed.borderLeftWidth computed)) in
    let hasShadow :=
      nonEmpty (Computed.boxShadow computed)
      && negb (str_eqb (Computed.boxShadow computed) (js "none")) in
    if hasBg || hasBorder || hasShadow then
      Some (js "文本元素 <" ++ toLowerCase tagName ++ js "> 存在 "
            ++ (if hasBg then js "背景"
                else if hasBorder then js "边框" else js "阴影")
            ++ js "。仅 <div> 元素支持背景、边框和阴影，文本元素不支持。")
    else None
  else None.

End Html2Pptx.

(** * auto_fix.js: the repair rules *)

Module AutoFix.

(** ** The parsed document *)

#[warnings="-register-all"]
Inductive DNode :=
| DText (data : jsstring)
| DComment (data : jsstring)
| DElement (localName : jsstring) (attributes : list (jsstring * jsstring))
           (children : list DNode).

(** The child nodes of the document. *)
Definition Document := list DNode.

(** A node is referred to by the child indices that lead to it. *)
Definition Path := list nat.

Fixpoint getAt (nodes : list DNode) (p : Path) : option DNode :=
  match p with
  | [] => None
  | i :: p' =>
      match nth_error nodes i, p' with
      | Some n, [] => Some n
      | Some (DElement _ _ children), _ :: _ => getAt children p'
      | _, _ => None
      end
  end.

Fixpoint setNth {A} (l : list A) (i : nat) (v : A) : list A :=
  match l, i with
  | [], _ => []
  | _ :: r, O => v :: r
  | a :: r, S j => a :: setNth r j v
  end.

(** The document with the node at [p] replaced by [f] of it. *)
Fixpoint updateAt (f : DNode -> DNode) (nodes : list DNode) (p : Path)
  : list DNode :=
  match p with
  | [] => nodes
  | i :: p' =>
      match nth_error nodes i, p' with
      | Some n, [] => setNth nodes i (f n)
      | Some (DElement name attrs children), _ :: _ =>
          setNth nodes i (DElement name attrs (updateAt f children p'))
      | _, _ => nodes
      end
  end.

(** The elements below [n] whose name satisfies [P], in document order, as
    paths relative to [n]; the empty path is [n] itself. *)
Fixpoint pathsIn (P : jsstring -> bool) (n : DNode) : list Path :=
  match n with
  | DElement name _ children =>
      (if P name then [[]] else [])
      ++ (fix each (l : list DNode) (i : nat) : list Path :=
            match l with
            | [] => []
            | c :: r => map (cons i) (pathsIn P c) ++ each r (S i)
            end) children 0%nat
  | _ => []
  end.

Fixpoint pathsFrom (P : jsstring -> bool) (l : list DNode) (i : nat)
  : list Path :=
  match l with
  | [] => []
  | c :: r => map (cons i) (pathsIn P c) ++ pathsFrom P r (S i)
  end.

Definition asciiLower (s : jsstring) : jsstring :=
  map (fun c => if ((65 <=? c) && (c <=? 90))%N then (c + 32)%N else c) s.

(** [document.querySelectorAll(selector)] for a selector made of word
    characters: a type selector, matched without regard to ASCII case; it is
    a syntax error ([None]) when it begins with a digit. *)
Definition querySelectorAll (doc : Document) (selector : jsstring)
  : option (list Path) :=
  match selector with
  | c :: _ =>
      if isDigit c then None
      else Some (pathsFrom (str_eqb (asciiLower selector)) doc 0)
  | [] => None
  end.

Definition styleElements (doc : Document) : list Path :=
  pathsFrom (str_eqb (js "style")) doc 0.

Fixpoint textContent (node : DNode) : jsstring :=
  match node with
  | DText data => data
  | DComment data => data
  | DElement _ _ children =>
      (fix descend (l : list DNode) : jsstring :=
         match l with
         | [] => []
         | DComment _ :: r => descend r
         | n :: r => textContent n ++ descend r
         end) children
  end.

Definition textContentAt (doc : Document) (p : Path) : jsstring :=
  match getAt doc p with
  | Some n => textContent n
  | None => []
  end.

(** [node.textContent = value]. *)
Definition setTextContent (value : jsstring) (node : DNode) : DNode :=
  match node with
  | DElement name attrs _ =>
      DElement name attrs (match value with [] => [] | _ => [DText value] end)
  | DText _ => DText value
  | DComment _ => DComment value
  end.

Fixpoint getAttribute (attrs : list (jsstring * jsstring)) (name : jsstring)
  : option jsstring :=
  match attrs with
  | [] => None
  | (k, v) :: r => if str_eqb k name then Some v else getAttribute r name
  end.

(** [element.className]. *)
Definition className (node : DNode) : jsstring :=
  match node with
  | DElement _ attrs _ =>
      match getAttribute attrs (js "class") with
      | Some v => v
      | None => []
      end
  | _ => []
  end.

(** Whether a path has a proper ancestor among [ps]. *)
Fixpoint isPrefix (a b : Path) : bool :=
  match a, b with
  | [], _ :: _ => true
  | i :: a', j :: b' => (i =? j)%nat && isPrefix a' b'
  | _, _ => false
  end.

Definition detached (replaced : list Path) (p : Path) : bool :=
  existsb (fun a => isPrefix a p) replaced.

(** ** Regular-expression scans *)

(** The first match of an anchored matcher, with the text before it; the
    matcher returns its result and the text after the match. *)
Fixpoint searchSplit {A} (m : jsstring -> option (A * jsstring))
    (s : jsstring) : option (jsstring * A * jsstring) :=
  match m s with
  | Some (a, rest) => Some ([], a, rest)
  | None =>
      match s with
      | [] => None
      | c :: t =>
          match searchSplit m t with
          | Some (before, a, rest) => Some (c :: before, a, rest)
          | None => None
          end
      end
  end.

(** [s.replace(/.../g, f)]: the matches are found from left to right, each
    search resuming where the previous match ended.  [skip] counts the
    characters of the current match that are still to be passed over. *)
Fixpoint replaceAll (m : jsstring -> option (jsstring * jsstring))
    (s : jsstring) (skip : nat) : jsstring :=
  match s with
  | [] => []
  | c :: t =>
      match skip with
      | S k => replaceAll m t k
      | O =>
          match m s with
          | Some (replacement, rest) =>
              replacement ++ replaceAll m t (length s - length rest - 1)
          | None => c :: replaceAll m t 0
          end
      end
  end.

(** [[...s.matchAll(/.../g)]], with the same resumption rule. *)
Fixpoint matchAll {A} (m : jsstring -> option (A * jsstring))
    (s : jsstring) (skip : nat) : list A :=
  match s with
  | [] => []
  | c :: t =>
      match skip with
      | S k => matchAll m t k
      | O =>
          match m s with
          | Some (a, rest) => a :: matchAll m t (length s - length rest - 1)
          | None => matchAll m t 0
          end
      end
  end.

(** ** The fixers *)

(** The state of an [ErrorFixer] after its constructor: the document parsed
    from the file, and the two result fields. *)
Record Fixer := {
  document : Document;
  fixed : bool;
  fixDescription : jsstring
}.

(** *** Borders, backgrounds and shadows on text elements *)

(** [/文本元素 <(\w+)> 存在 (边框|背景|阴影)/] anchored at the head of [s]. *)
Definition textElementErrorAt (s : jsstring)
  : option (jsstring * jsstring * jsstring) :=
  do s1 <- strip (js "文本元素 <") s;
  match span isWord s1 with
  | ([], _) => None
  | (tag, s2) =>
      do s3 <- strip (js "> 存在 ") s2;
      match strip (js "边框") s3, strip (js "背景") s3, strip (js "阴影") s3 with
      | Some rest, _, _ => Some (tag, js "边框", rest)
      | None, Some rest, _ => Some (tag, js "背景", rest)
      | None, None, Some rest => Some (tag, js "阴影", rest)
      | None, None, None => None
      end
  end.

(** [[...new Set(l)]]. *)
Fixpoint dedupe (l : list jsstring) (seen : list jsstring) : list jsstring :=
  match l with
  | [] => []
  | a :: r =>
      if existsb (str_eqb a) seen then dedupe r seen
      else a :: dedupe r (a :: seen)
  end.

(** [canFix()] of the border fixer: [None] is [false]; otherwise the tag
    names and the style type it stores. *)
Definition borderCanFix (errorMessage : jsstring)
  : option (list jsstring * jsstring) :=
  let matches :=
    matchAll (fun s => do (tag, kind, rest) <- textElementErrorAt s;
                       Some ((tag, kind), rest))
             errorMessage 0 in
  match matches with
  | [] => None
  | (_, kind) :: _ => Some (dedupe (map fst matches) [], kind)
  end.

Definition containerStyleProps : list jsstring :=
  map js ["background"; "background-color"; "background-image";
          "background-size"; "background-position"; "background-repeat";
          "background-attachment"; "border"; "border-top"; "border-right";
          "border-bottom"; "border-left"; "border-width"; "border-style";
          "border-color"; "border-radius"; "box-shadow"]%string.

Definition isContainerStyle (prop : jsstring) : bool :=
  existsb (fun cp => str_eqb prop cp || startsWith prop (cp ++ js "-"))
          containerStyleProps.



(** The class name is spliced into the two patterns as it stands, so a
    vertical bar in it separates alternatives of the pattern.  The other
    special characters are not modelled: they are read as themselves, which
    is what the pattern does only for a name that holds none of them. *)
Definition alternatives (className : jsstring) : list jsstring :=
  split (ch "|") className.

(** [\s*\{([^}]+)\}] anchored at the head of [s]: the declaration block and
    the text after the rule. *)
Definition ruleBodyAt (s : jsstring) : option (jsstring * jsstring) :=
  do s2 <- strip (js "{") (dropWhile isSpace s);
  match span (fun c => negb (char_eqb c (ch "}"))) s2 with
  | ([], _) => None
  | (block, s3) => do rest <- strip (js "}") s3; Some (block, rest)
  end.

(** The alternatives of [\.className\s*\{([^}]+)\}], tried in order: only
    the last one holds the rule body and its group, so after a match of an
    earlier one the group is undefined ([None]). *)
Fixpoint classRuleFrom (alts : list jsstring) (s : jsstring)
  : option (option jsstring * jsstring) :=
  match alts with
  | [] => None
  | [a] =>
      do s1 <- strip a s;
      do (block, rest) <- ruleBodyAt s1;
      Some (Some block, rest)
  | a :: others =>
      match strip a s with
      | Some rest => Some (None, rest)
      | None => classRuleFrom others s
      end
  end.

(** [new RegExp(`\\.${className}\\s*\\{([^}]+)\\}`, "s")] anchored at the head
    of [s]: the captured group and the text after the match. *)
Definition classRuleAt (className : jsstring) (s : jsstring)
  : option (option jsstring * jsstring) :=
  match alternatives className with
  | a :: others => classRuleFrom ((js "." ++ a) :: others) s
  | [] => None
  end.

(** The alternatives of the group of [(\.className)\s*\{[^}]+\}], tried in
    order, each followed by the rule body: the text of the group and the
    text after the match. *)
Fixpoint classGroupFrom (alts : list jsstring) (s : jsstring)
  : option (jsstring * jsstring) :=
  match alts with
  | [] => None
  | a :: others =>
      match (do s1 <- strip a s; do (_, rest) <- ruleBodyAt s1; Some rest) with
      | Some rest => Some (a, rest)
      | None => classGroupFrom others s
      end
  end.

(** [new RegExp(`(\\.${className})\\s*\\{[^}]+\\}`, "s")] anchored at the head
    of [s]. *)
Definition classGroupAt (className : jsstring) (s : jsstring)
  : option (jsstring * jsstring) :=
  match alternatives className with
  | a :: others => classGroupFrom ((js "." ++ a) :: others) s
  | [] => None
  end.

Definition declarationSeparator : jsstring :=
  js ";" ++ newline ++ js "            ".

Definition propertyOf (declaration : jsstring) : jsstring :=
  trim (hd [] (split (ch ":") declaration)).

(** The pair [(textStyles, containerStyles)]; [match[1].split] throws
    when the group is undefined. *)
Definition separateStyles (cssContent className : jsstring)
  : Outcome (jsstring * jsstring) :=
  match search (classRuleAt className) cssContent with
  | None => Returned ([], [])
  | Some (None, _) => Thrown (js "TypeError")
  | Some (Some styleBlock, _) =>
      let styleLines :=
        filter nonEmpty (map trim (split (ch ";") styleBlock)) in
      let containerStyleLines :=
        filter (fun l => isContainerStyle (propertyOf l)) styleLines in
      let textStyleLines :=
        filter (fun l => negb (isContainerStyle (propertyOf l))) styleLines in
      Returned (join declarationSeparator textStyleLines,
                join declarationSeparator containerStyleLines)
  end.

(** The replacement patterns of [String.prototype.replace] for a regular
    expression with one capturing group. *)
Fixpoint expandReplacement (template matched before after group1 : jsstring)
  : jsstring :=
  match template with
  | [] => []
  | c :: t =>
      if negb (c =? 36)%N then
        c :: expandReplacement t matched before after group1
      else
        match t with
        | d :: u =>
            if (d =? 36)%N then
              36%N :: expandReplacement u matched before after group1
            else if (d =? 38)%N then
              matched ++ expandReplacement u matched before after group1
            else if (d =? 96)%N then
              before ++ expandReplacement u matched before after group1
            else if (d =? 39)%N then
              after ++ expandReplacement u matched before after group1
            else if (d =? 49)%N then
              group1 ++ expandReplacement u matched before after group1
            else if (d =? 48)%N then
              match u with
              | e :: v =>
                  if (e =? 49)%N then
                    group1 ++ expandReplacement v matched before after group1
                  else c :: expandReplacement t matched before after group1
              | [] => c :: expandReplacement t matched before after group1
              end
            else c :: expandReplacement t matched before after group1
        | [] => [c]
        end
  end.

(** The new text of the style element. *)
Definition updateStyles (oldContent className textStyles containerStyles
    tagName : jsstring) : jsstring :=
  let newRules :=
    (if nonEmpty containerStyles then
       js "        ." ++ className ++ js " {" ++ newline ++ js "            "
       ++ containerStyles ++ js ";" ++ newline ++ js "        }" ++ newline
     else [])
    ++ (if nonEmpty textStyles then
          js "        ." ++ className ++ js " " ++ tagName ++ js " {" ++ newline
          ++ js "            " ++ textStyles ++ js ";" ++ newline
          ++ js "        }"
        else []) in
  match searchSplit (classGroupAt className) oldContent with
  | None => oldContent
  | Some (before, group1, after) =>
      let matched :=
        firstn (length oldContent - length before - length after)
               (skipn (length before) oldContent) in
      before
      ++ expandReplacement newRules matched before after group1
      ++ after
  end.

(** The wrapper put in the place of [element]. *)
Definition wrapElement (element : DNode) (className tagName : jsstring)
  : DNode :=
  match element with
  | DElement _ attrs children =>
      DElement (js "div") [(js "class", className)]
        [DElement (asciiLower tagName)
           (filter (fun a => negb (str_eqb (fst a) (js "class"))) attrs)
           children]
  | _ => element
  end.

(** [findStyleForClass]: the first style element whose text contains the
    class name after a dot. *)
Definition findStyleForClass (doc : Document) (className : jsstring)
  : option Path :=
  find (fun p => includes (textContentAt doc p) (js "." ++ className))
       (styleElements doc).

Record Loop := {
  doc : Document;
  replaced : list Path;      (* the nodes already taken out of the document *)
  fixCount : nat
}.

(** The callback of [elements.forEach] in the border fixer, for the element
    found at [p] in [snapshot], the document as it was when the elements
    were selected.  An element below an already wrapped one is no longer in
    the document: wrapping it leaves the document as it is.  An exception
    ends the loop. *)
Definition borderStep (tagName : jsstring) (snapshot : Document)
    (state : Outcome Loop) (p : Path) : Outcome Loop :=
  match state with
  | Thrown m => Thrown m
  | Returned st =>
      let className :=
        match getAt snapshot p with Some el => className el | None => [] end in
      if negb (nonEmpty className) then Returned st
      else
        match findStyleForClass (doc st) className with
        | None => Returned st
        | Some styleElement =>
            let css := textContentAt (doc st) styleElement in
            match separateStyles css className with
            | Thrown m => Thrown m
            | Returned (textStyles, containerStyles) =>
                if negb (nonEmpty (trim containerStyles)) then Returned st
                else
                  let doc1 :=
                    updateAt
                      (setTextContent
                         (updateStyles css className textStyles
                                       containerStyles tagName))
                      (doc st) styleElement in
                  let doc2 :=
                    if detached (replaced st) p then doc1
                    else
                      updateAt (fun el => wrapElement el className tagName)
                               doc1 p in
                  Returned {| doc := doc2;
                              replaced := p :: replaced st;
                              fixCount := S (fixCount st) |}
            end
        end
  end.

(** The callback of [tagNames.forEach]: the document, the total count and
    the descriptions of the fixed tags. *)
Definition borderTag (st : Outcome (Document * nat * list jsstring))
    (tagName : jsstring) : Outcome (Document * nat * list jsstring) :=
  match st with
  | Thrown m => Thrown m
  | Returned (d, totalFixCount, fixedTags) =>
      match querySelectorAll d tagName with
      | None => Thrown (js "SyntaxError")
      | Some elements =>
          match fold_left (borderStep tagName d) elements
                  (Returned {| doc := d; replaced := []; fixCount := 0 |}) with
          | Thrown m => Thrown m
          | Returned after =>
              if (0 <? fixCount after)%nat then
                Returned (doc after, (totalFixCount + fixCount after)%nat,
                          fixedTags
                          ++ [natToString (fixCount after) ++ js "个<"
                              ++ tagName ++ js ">"])
              else Returned (doc after, totalFixCount, fixedTags)
          end
      end
  end.

(** [fix()] of the border fixer, after [canFix()] stored [tagNames] and
    [styleType]. *)
Definition borderFix (tagNames : list jsstring) (styleType : jsstring)
    (d : Document) : Outcome Fixer :=
  match fold_left borderTag tagNames (Returned (d, 0%nat, [])) with
  | Thrown m => Thrown m
  | Returned (d', totalFixCount, fixedTags) =>
      if (0 <? totalFixCount)%nat then
        Returned {| document := d'; fixed := true;
                    fixDescription :=
                      js "将" ++ join (js "、") fixedTags ++ js "元素的"
                      ++ styleType ++ js "样式移至外层<div>" |}
      else Returned {| document := d'; fixed := false; fixDescription := [] |}
  end.

(** *** Text directly inside a container *)

Definition unwrappedCanFix (errorMessage : jsstring) : bool :=
  includes errorMessage (js "DIV 元素包含未包裹文本").

Definition hasDirectTextNode (div : DNode) : bool :=
  match div with
  | DElement _ _ children =>
      existsb (fun node =>
                 match node with
                 | DText data => nonEmpty (trim data)
                 | _ => false
                 end) children
  | _ => false
  end.

Definition determineWrapTag (div : DNode) : jsstring :=
  let className := className div in
  if includes className (js "title")
     && negb (includes className (js "report-title"))
     && negb (includes className (js "page-title"))
  then js "h3" else js "p".

Definition wrapTextContent (wrapTag : jsstring) (div : DNode) : DNode :=
  match div with
  | DElement name attrs children =>
      DElement name attrs
        (flat_map
           (fun node =>
              match node with
              | DText data =>
                  let textContent := trim data in
                  if nonEmpty textContent then
                    [DElement wrapTag [] [DText textContent]]
                  else if includes data newline || includes data (js " ")
                  then [node]
                  else []
              | _ => [node]
              end) children)
  | _ => div
  end.

Definition unwrappedStep (snapshot : Document) (st : Loop) (p : Path) : Loop :=
  match getAt snapshot p with
  | Some div =>
      if hasDirectTextNode div then
        {| doc :=
             if detached (replaced st) p then doc st
             else updateAt (wrapTextContent (determineWrapTag div)) (doc st) p;
           replaced := p :: replaced st;
           fixCount := S (fixCount st) |}
      else st
  | None => st
  end.

Definition unwrappedFix (d : Document) : Outcome Fixer :=
  let allDivs := pathsFrom (str_eqb (js "div")) d 0 in
  let after :=
    fold_left (unwrappedStep d) allDivs
      {| doc := d; replaced := []; fixCount := 0 |} in
  if (0 <? fixCount after)%nat then
    Returned {| document := doc after; fixed := true;
                fixDescription :=
                  js "为" ++ natToString (fixCount after)
                  ++ js "个DIV元素的文本添加了标签包裹" |}
  else Returned {| document := doc after; fixed := false;
                   fixDescription := [] |}.

(** *** Gradients and background images *)

Definition notChar (c : char) (d : char) : bool := negb (char_eqb d c).

(** [/background:\s*NAME-gradient\([^;]+\);/] anchored at the head of [s]:
    the matched text and the text after it. *)
Definition gradientAt (name : jsstring) (s : jsstring)
  : option (jsstring * jsstring) :=
  do s1 <- strip (js "background:") s;
  do s2 <- strip (name ++ js "-gradient(") (dropWhile isSpace s1);
  let '(body, s3) := span (notChar (ch ";")) s2 in
  do rest <- strip (js ";") s3;
  match rev body with
  | close :: _ :: _ =>
      if char_eqb close (ch ")")
      then Some (firstn (length s - length rest) s, rest)
      else None
  | _ => None
  end.

(** [/#[0-9a-fA-F]{3,6}/] anchored at the head of [s]. *)
Definition hexColorAt (s : jsstring) : option jsstring :=
  do s1 <- strip (js "#") s;
  let digits := firstn 6 (fst (span isHexDigit s1)) in
  if (3 <=? length digits)%nat then Some (ch "#" :: digits) else None.

(** [/rgba?\([^)]+\)/] anchored at the head of [s]. *)
Definition rgbColorAt (s : jsstring) : option jsstring :=
  do s1 <- strip (js "rgb") s;
  do s2 <- strip (js "(") (optChar (ch "a") s1);
  match span (notChar (ch ")")) s2 with
  | ([], _) => None
  | (_, s3) =>
      do rest <- strip (js ")") s3; Some (firstn (length s - length rest) s)
  end.

Definition colorNames : list jsstring :=
  map js ["red"; "blue"; "green"; "yellow"; "purple"; "orange"; "pink";
          "black"; "white"; "gray"; "grey"]%string.

(** [/(red|blue|...)\b/i] at the head of [s]; the boundary before the word
    is checked by the scan. *)
Definition colorNameAt (s : jsstring) : option jsstring :=
  (fix alternatives (names : list jsstring) : option jsstring :=
     match names with
     | [] => None
     | name :: others =>
         let matched := firstn (length name) s in
         if str_eqb (asciiLower matched) name
            && match skipn (length name) s with
               | c :: _ => negb (isWord c)
               | [] => true
               end
         then Some matched
         else alternatives others
     end) colorNames.

(** The first match of [/\b(red|blue|...)\b/i]. *)
Fixpoint searchColorName (prevWord : bool) (s : jsstring) : option jsstring :=
  match s with
  | [] => None
  | c :: t =>
      match (if prevWord then None else colorNameAt s) with
      | Some name => Some name
      | None => searchColorName (isWord c) t
      end
  end.

Definition extractFirstColor (gradientString : jsstring) : jsstring :=
  match search hexColorAt gradientString with
  | Some hexColorMatch => hexColorMatch
  | None =>
      match search rgbColorAt gradientString with
      | Some rgbColorMatch => rgbColorMatch
      | None =>
          match searchColorName false gradientString with
          | Some colorNameMatch => colorNameMatch
          | None => js "#000000"
          end
      end
  end.

Definition gradientReplacer (name : jsstring) (s : jsstring)
  : option (jsstring * jsstring) :=
  do (matched, rest) <- gradientAt name s;
  Some (js "background: " ++ extractFirstColor matched ++ js ";", rest).

Definition fixLinearGradients (cssContent : jsstring) : jsstring :=
  replaceAll (gradientReplacer (js "linear")) cssContent 0.

Definition fixRadialGradients (cssContent : jsstring) : jsstring :=
  replaceAll (gradientReplacer (js "radial")) cssContent 0.

(** [/background-image:\s*url\([^)]*\);/] anchored at the head of [s]: the
    text after the match. *)
Definition backgroundImageAt (s : jsstring) : option jsstring :=
  do s1 <- strip (js "background-image:") s;
  do s2 <- strip (js "url(") (dropWhile isSpace s1);
  strip (js ");") (dropWhile (notChar (ch ")")) s2).

Definition fixBackgroundImages (cssContent : jsstring) : jsstring :=
  replaceAll
    (fun s => do rest <- backgroundImageAt s;
              Some (js "background-color: #f5f5f5;", rest))
    cssContent 0.

Definition gradientCanFix (errorMessage htmlContent : jsstring) : bool :=
  includes errorMessage (js "请使用纯色或边框作为形状")
  || includes htmlContent (js "linear-gradient")
  || includes htmlContent (js "radial-gradient")
  || includes htmlContent (js "background-image: url(").

(** The three rewrites of one style block. *)
Definition fixCss (cssContent : jsstring) : jsstring :=
  fixBackgroundImages (fixRadialGradients (fixLinearGradients cssContent)).

(** One turn of [styleElements.forEach].  A style element holds raw text
    only, so none lies inside another and the paths found before the loop
    still lead to the same elements while it runs. *)
Definition gradientStep (st : Document * nat) (styleElement : Path)
  : Document * nat :=
  let '(d, fixCount) := st in
  let originalContent := textContentAt d styleElement in
  let cssContent := fixCss originalContent in
  if negb (str_eqb cssContent originalContent)
  then (updateAt (setTextContent cssContent) d styleElement, S fixCount)
  else st.

Definition gradientFix (d : Document) : Outcome Fixer :=
  let '(d', fixCount) := fold_left gradientStep (styleElements d) (d, 0%nat) in
  if (0 <? fixCount)%nat then
    Returned {| document := d'; fixed := true;
                fixDescription :=
                  js "将" ++ natToString fixCount
                  ++ js "个样式块中的CSS渐变和背景图片转换为单色背景" |}
  else Returned {| document := d'; fixed := false; fixDescription := [] |}.



(** ** Persisting a fix *)

(** The files, by path. *)
Definition FileSystem := jsstring -> option jsstring.

Definition writeFile (fs : FileSystem) (path content : jsstring) : FileSystem :=
  fun p => if str_eqb p path then Some content else fs p.

Section Persist.
(** The parsing and the serialisation of the document, by the DOM library. *)
Variable parse : jsstring -> Document.
Variable serialize : Document -> jsstring.

(** [fixer.save(backupOriginal)]: the returned flag and the files after. *)
Definition save (backupOriginal : bool) (htmlPath : jsstring) (fixer : Fixer)
    (fs : FileSystem) : bool * FileSystem :=
  if negb (fixed fixer) then (false, fs)
  else
    let backupPath := htmlPath ++ js ".backup" in
    let fs1 :=
      if backupOriginal then
        match fs backupPath, fs htmlPath with
        | None, Some original => writeFile fs backupPath original
        | _, _ => fs
        end
      else fs in
    (true, writeFile fs1 htmlPath (serialize (document fixer))).

Record Options := { backup : bool }.

(** The state of the loop over the fixers: the files, the markup the
    remaining fixers hold, the number of fixers applied, and the exception
    that ended the loop, if one did. *)
Record Progress := {
  files : FileSystem;
  htmlContent : jsstring;
  applied : nat;
  failure : option jsstring
}.

(** One turn of the loop, for a fixer given by its [canFix] and [fix]. *)
Definition tryFixer (htmlPath : jsstring)
    (canFix : jsstring -> bool) (runFix : Document -> Outcome Fixer)
    (pr : Progress) : Progress :=
  match failure pr with
  | Some _ => pr
  | None =>
      if canFix (htmlContent pr) then
        match runFix (parse (htmlContent pr)) with
        | Thrown m =>
            {| files := files pr; htmlContent := htmlContent pr;
               applied := applied pr; failure := Some m |}
        | Returned fixer =>
            if fixed fixer then
              (* the first fixer does not back up the file, nor do the others *)
              {| files := snd (save false htmlPath fixer (files pr));
                 htmlContent := serialize (document fixer);
                 applied := S (applied pr);
                 failure := None |}
            else pr
        end
      else pr
  end.

(** [autoFixHtml(htmlPath, errorMessage, options)]: what the promise
    settles with, and the files afterwards. *)
Definition autoFixHtml (htmlPath errorMessage : jsstring) (options : Options)
    (fs : FileSystem) : Outcome bool * FileSystem :=
  let backup := backup options in
  match fs htmlPath with
  | None => (Thrown (js "ENOENT"), fs)
  | Some content =>
      let start :=
        {| files := fs; htmlContent := content; applied := 0;
           failure := None |} in
      let afterBorder :=
        match borderCanFix errorMessage with
        | Some (tagNames, styleType) =>
            tryFixer htmlPath (fun _ => true) (borderFix tagNames styleType)
                     start
        | None => start
        end in
      let afterUnwrapped :=
        tryFixer htmlPath (fun _ => unwrappedCanFix errorMessage) unwrappedFix
                 afterBorder in
      let afterGradient :=
        tryFixer htmlPath (gradientCanFix errorMessage) gradientFix
                 afterUnwrapped in
      match failure afterGradient with
      | Some m => (Thrown m, files afterGradient)
      | None => (Returned (0 <? applied afterGradient)%nat, files afterGradient)
      end
  end.

End Persist.

(** The document that holds one style element with the given text and
    nothing else, and the reading of a file as such a document: a reading
    for examples in which any document will do, not what an HTML parser
    makes of the text. *)
Definition sheetParse (content : jsstring) : Document :=
  [DElement (js "style") [] [DText content]].

Definition sheetSerialize (d : Document) : jsstring :=
  textContentAt d [0%nat].

Definition noFiles : FileSystem := fun _ => None.

(** One file, with a gradient. *)
Definition slideFiles : FileSystem :=
  writeFile noFiles (js "slide.html")
            (js "a{background: linear-gradient(red, blue);}").

(** *** Pages with one style sheet *)

(** The markup of a page whose head holds one style element and whose body
    is empty, and the tree of that page. *)
Definition stylePage (css : jsstring) : jsstring :=
  js "<html><head><style>" ++ css ++ js "</style></head><body></body></html>".

Definition stylePageDocument (css : jsstring) : Document :=
  [DElement (js "html") []
     [DElement (js "head") []
        [DElement (js "style") []
           (match css with [] => [] | _ => [DText css] end)];
      DElement (js "body") [] []]].

(** The text of a style sheet that the HTML parser takes as it stands: no
    [<], which could end the element, and no carriage return or null
    character, which the parser replaces. *)
Definition plainSheet (css : jsstring) : bool :=
  forallb (fun c => negb ((c =? 60) || (c =? 13) || (c =? 0))%N) css.

(** What [new JSDOM(content).window.document] and [dom.serialize()] do on
    such pages.  The DOM library is not part of the repository: it is a
    parameter of [autoFixHtml], known here by these two facts. *)
Definition readsStylePages (parse : jsstring -> Document) : Prop :=
  forall css, plainSheet css = true ->
              parse (stylePage css) = stylePageDocument css.

Definition writesStylePages (serialize : Document -> jsstring) : Prop :=
  forall css, plainSheet css = true ->
              serialize (stylePageDocument css) = stylePage css.

(** A library that does this and nothing more: any other file reads as the
    empty document, any other tree is written as the empty text. *)
Definition pageParse (content : jsstring) : Document :=
  match strip (js "<html><head><style>") content with
  | Some s1 =>
      let '(css, s2) := span (fun c => negb (c =? 60)%N) s1 in
      if str_eqb s2 (js "</style></head><body></body></html>")
         && plainSheet css
      then stylePageDocument css
      else []
  | None => []
  end.

Definition pageSerialize (d : Document) : jsstring :=
  match d with
  | [DElement html []
       [DElement head [] [DElement style [] sheet]; DElement body [] []]] =>
      let css := match sheet with [DText css] => css | _ => [] end in
      if str_eqb html (js "html") && str_eqb head (js "head")
         && str_eqb style (js "style") && str_eqb body (js "body")
         && match sheet with [] | [DText (_ :: _)] => true | _ => false end
         && plainSheet css
      then stylePage css
      else []
  | _ => []
  end.

(** One page, with a gradient. *)
Definition gradientPage : jsstring :=
  stylePage (js "a{background: linear-gradient(red, blue);}").

Definition pageFiles : FileSystem :=
  writeFile noFiles (js "slide.html") gradientPage.

End AutoFix.

(** * convert.js: the command line *)

Module Convert.
Import AutoFix.

(** ** Arguments *)

Inductive Mode := FolderMode | FileMode.

Record CliOptions := {
  mode : option Mode;
  input : option jsstring;
  output : jsstring
}.

(** The loop of [parseArgs] from the argument at hand on: an option takes
    the next argument as its value when there is one and it is not the
    empty string, and the value is then passed over. *)
Fixpoint parseArgsFrom (args : list jsstring) (options : CliOptions)
  : CliOptions :=
  match args with
  | [] => options
  | arg :: rest =>
      match rest with
      | value :: rest' =>
          if str_eqb arg (js "--folder") && nonEmpty value then
            parseArgsFrom rest'
              {| mode := Some FolderMode; input := Some value;
                 output := output options |}
          else if str_eqb arg (js "--file") && nonEmpty value then
            parseArgsFrom rest'
              {| mode := Some FileMode; input := Some value;
                 output := output options |}
          else if str_eqb arg (js "--output") && nonEmpty value then
            parseArgsFrom rest'
              {| mode := mode options; input := input options;
                 output := value |}
          else parseArgsFrom rest options
      | [] => options
      end
  end.

(** [parseArgs()], for [process.argv.slice(2)]. *)
Definition parseArgs (args : list jsstring) : CliOptions :=
  parseArgsFrom args
    {| mode := None; input := None; output := js "output.pptx" |}.

(** ** The files of a folder *)

Definition endsWith (s suffix : jsstring) : bool :=
  startsWith (rev s) (rev suffix).

(** The filter of [convertFolder] on the names of the folder. *)
Definition isSlideFile (file : jsstring) : bool :=
  endsWith file (js ".html")
  && negb (endsWith file (js ".backup"))
  && negb (startsWith file (js "_skip_")).

(** ** Conversion with one attempt at a fix *)

Inductive Method := Direct | AutoFix | Failed.

Record Attempt (Result : Type) := {
  success : bool;
  result : option Result;
  error : option jsstring;
  method : Method
}.

Arguments success {Result}.
Arguments result {Result}.
Arguments error {Result}.
Arguments method {Result}.

Section Retry.
(** The conversion of the file, which reads the files and adds to the
    presentation, and the fixing of the file for an error message. *)
Variables Result Presentation : Type.
Variable html2pptx :
  FileSystem -> Presentation -> Outcome Result * Presentation.
Variable autoFixHtml :
  jsstring -> Options -> FileSystem -> Outcome bool * FileSystem.

(** [tryConvertWithAutoFix(htmlFile, pptx)]: what it returns, the files and
    the presentation afterwards. *)
Definition tryConvertWithAutoFix (fs : FileSystem) (pptx : Presentation)
  : Attempt Result * FileSystem * Presentation :=
  let failed lastError :=
    {| success := false; result := None; error := Some lastError;
       method := Failed |} in
  match html2pptx fs pptx with
  | (Returned r, pptx1) =>
      ({| success := true; result := Some r; error := None;
          method := Direct |}, fs, pptx1)
  | (Thrown lastError, pptx1) =>
      match autoFixHtml lastError {| backup := true |} fs with
      | (Returned true, fs1) =>
          match html2pptx fs1 pptx1 with
          | (Returned r, pptx2) =>
              ({| success := true; result := Some r; error := None;
                  method := AutoFix |}, fs1, pptx2)
          | (Thrown retryError, pptx2) => (failed retryError, fs1, pptx2)
          end
      | (Returned false, fs1) => (failed lastError, fs1, pptx1)
      | (Thrown _, fs1) => (failed lastError, fs1, pptx1)
      end
  end.

End Retry.

End Convert.

(** * Properties *)

Import JS.

Unset Implicit Arguments.

(** ** Strings and numbers *)

Lemma str_eqb_spec a b : str_eqb a b = true <-> a = b.
Proof.
  revert b; induction a as [|x a IH]; intros [|y b]; simpl; split;
    try congruence; try reflexivity.
  - intros H. apply andb_true_iff in H as [H1 H2].
    apply N.eqb_eq in H1. apply IH in H2. congruence.
  - intros H. injection H as -> ->. apply andb_true_iff; split.
    + apply N.eqb_refl.
    + now apply IH.
Qed.

Lemma str_eqb_refl a : str_eqb a a = true.
Proof. now apply str_eqb_spec. Qed.

Lemma strip_Some p s r : strip p s = Some r <-> s = p ++ r.
Proof.
  revert s; induction p as [|x p IH]; intros s; simpl.
  - split; congruence.
  - destruct s as [|y s]; [split; discriminate|].
    unfold char_eqb. destruct (N.eqb_spec x y) as [->|Hne].
    + rewrite IH. split; congruence.
    + split; [discriminate|]. intros H; injection H as -> _. now elim Hne.
Qed.

Lemma strip_app p r : strip p (p ++ r) = Some r.
Proof. now apply strip_Some. Qed.

Lemma Qltb_lt a b : Qltb a b = true <-> a < b.
Proof.
  unfold Qltb. rewrite negb_true_iff. split.
  - intros H. apply Qnot_le_lt. intros Hle.
    apply Qle_bool_iff in Hle. congruence.
  - intros H. destruct (Qle_bool b a) eqn:E; [|reflexivity].
    apply Qle_bool_iff in E. exfalso. now apply (Qlt_not_le a b).
Qed.

(** *** Doubles *)

Lemma roundEven_comp (a b : Q) : a == b -> roundEven a = roundEven b.
Proof.
  intros E. unfold roundEven. rewrite (Qfloor_comp a b E).
  assert (Ed : a - inject_Z (Qfloor b) == b - inject_Z (Qfloor b))
    by now rewrite E.
  now rewrite !(Qleb_comp _ _ Ed _ _ (Qeq_refl _)),
              !(Qleb_comp _ _ (Qeq_refl _) _ _ Ed).
Qed.

Lemma roundEven_Z (z : Z) : roundEven (inject_Z z) = z.
Proof.
  unfold roundEven. rewrite Qfloor_Z.
  assert (E : inject_Z z - inject_Z z == 0) by ring.
  rewrite (Qleb_comp _ _ E _ _ (Qeq_refl _)),
          (Qleb_comp _ _ (Qeq_refl _) _ _ E).
  reflexivity.
Qed.

Lemma roundEven_le (q : Q) (n : Z) : q <= inject_Z n -> (roundEven q <= n)%Z.
Proof.
  intros H. unfold roundEven.
  pose proof (Qfloor_resp_le _ _ H) as Hf. rewrite Qfloor_Z in Hf.
  destruct (Z.eq_dec (Qfloor q) n) as [E|E].
  - assert (Hq : q == inject_Z n).
    { apply Qle_antisym; [exact H|]. rewrite <- E. apply Qfloor_le. }
    assert (Ed : q - inject_Z (Qfloor q) == 0) by (rewrite E, Hq; ring).
    rewrite (Qleb_comp _ _ Ed _ _ (Qeq_refl _)),
            (Qleb_comp _ _ (Qeq_refl _) _ _ Ed).
    cbn. lia.
  - destruct (Qle_bool _ (1 # 2)); [destruct (Qle_bool (1 # 2) _);
      [destruct (Z.even _)|]|]; lia.
Qed.

Lemma roundEven_nonneg (q : Q) : 0 <= q -> (0 <= roundEven q)%Z.
Proof.
  intros H. unfold roundEven.
  pose proof (Qfloor_resp_le _ _ H) as Hf. change (Qfloor 0) with 0%Z in Hf.
  destruct (Qle_bool _ (1 # 2)); [destruct (Qle_bool (1 # 2) _);
    [destruct (Z.even _)|]|]; lia.
Qed.

Lemma log2floor_comp (a b : Q) : a == b -> log2floor a = log2floor b.
Proof.
  intros E. unfold log2floor.
  rewrite (Qleb_comp _ _ (Qeq_refl 1) _ _ E), (Qfloor_comp _ _ E).
  assert (Ei : / a == / b) by now rewrite E.
  now rewrite (Qceiling_comp _ _ Ei).
Qed.

Lemma rnd_comp (a b : Q) : a == b -> rnd a = rnd b.
Proof.
  intros E. unfold rnd.
  rewrite (Qeqb_comp _ _ E _ _ (Qeq_refl 0)).
  destruct (Qeq_bool b 0); [reflexivity|].
  rewrite (Qleb_comp _ _ (Qeq_refl 0) _ _ E).
  pose proof (Qabs_wd _ _ E) as Ea.
  rewrite (log2floor_comp _ _ Ea).
  set (e := Z.max (log2floor (Qabs b) - 52) (-1074)).
  assert (Es : Qabs a / Qpow2 e == Qabs b / Qpow2 e) by now rewrite Ea.
  rewrite (roundEven_comp _ _ Es). reflexivity.
Qed.

Lemma Qpow2_pos (e : Z) : 0 < Qpow2 e.
Proof. apply Qpower_0_lt. reflexivity. Qed.

Lemma rnd_nonneg (q : Q) : 0 <= q -> 0 <= rnd q.
Proof.
  intros H. unfold rnd. destruct (Qeq_bool q 0); [apply Qle_refl|].
  apply Qle_bool_iff in H. rewrite H. rewrite Qred_correct.
  apply Qmult_le_0_compat; [|apply Qlt_le_weak, Qpow2_pos].
  change 0 with (inject_Z 0). rewrite <- Zle_Qle.
  apply roundEven_nonneg. apply Qle_shift_div_l; [apply Qpow2_pos|].
  rewrite Qmult_0_l. apply Qabs_nonneg.
Qed.

(** Below [2 ^ 53] the unit in the last place is no more than 1. *)
Lemma log2floor_small (q : Q) (k : Z) :
  0 < q -> q <= inject_Z k -> (k < 2 ^ 53)%Z -> (log2floor q <= 52)%Z.
Proof.
  intros Hq Hk Hs. unfold log2floor.
  destruct (Qle_bool 1 q) eqn:E.
  - apply Qle_bool_iff in E.
    pose proof (Qfloor_resp_le _ _ E) as H1. change (Qfloor 1) with 1%Z in H1.
    pose proof (Qfloor_resp_le _ _ Hk) as H2. rewrite Qfloor_Z in H2.
    assert (Hl : (Z.log2 (Qfloor q) < 53)%Z)
      by (apply Z.log2_lt_pow2; lia).
    lia.
  - pose proof (Z.log2_up_nonneg (Qceiling (/ q))). lia.
Qed.

Lemma Qpow2_nonpos (e : Z) :
  (e <= 0)%Z -> Qpow2 e == / inject_Z (2 ^ (- e)).
Proof.
  intros He. unfold Qpow2.
  replace e with (- - e)%Z at 1 by lia.
  rewrite Qpower_opp, Zpower_Qpower by lia. reflexivity.
Qed.

Lemma pow2_pos (n : Z) : (0 <= n)%Z -> 0 < inject_Z (2 ^ n).
Proof.
  intros Hn. change 0 with (inject_Z 0). rewrite <- Zlt_Qlt.
  apply Z.pow_pos_nonneg; lia.
Qed.

(** Rounding does not cross an integer below [2 ^ 53]. *)
Lemma rnd_le_int (q : Q) (k : Z) :
  0 <= q -> q <= inject_Z k -> (k < 2 ^ 53)%Z -> rnd q <= inject_Z k.
Proof.
  intros H0 Hk Hs. unfold rnd.
  destruct (Qeq_bool q 0) eqn:Ez.
  { apply Qeq_bool_eq in Ez. now rewrite <- Ez. }
  assert (Hq : 0 < q).
  { apply Qle_lteq in H0 as [H0|H0]; [exact H0|].
    apply Qeq_bool_neq in Ez. elim Ez. now symmetry. }
  apply Qle_bool_iff in H0. rewrite H0. rewrite Qred_correct.
  assert (Ea : Qabs q == q) by (apply Qabs_pos, Qlt_le_weak, Hq).
  rewrite (log2floor_comp _ _ Ea).
  set (e := Z.max (log2floor q - 52) (-1074)).
  assert (He : (e <= 0)%Z).
  { pose proof (log2floor_small q k Hq Hk Hs). unfold e. lia. }
  pose proof (pow2_pos (- e) ltac:(lia)) as HP.
  pose proof (Qpow2_nonpos e He) as Ep.
  set (P := (2 ^ (- e))%Z) in *.
  assert (Hm : (roundEven (Qabs q / Qpow2 e) <= k * P)%Z).
  { apply roundEven_le. rewrite Ea, Ep, inject_Z_mult.
    unfold Qdiv. rewrite Qinv_involutive.
    apply Qmult_le_compat_r; [exact Hk|now apply Qlt_le_weak]. }
  set (m := roundEven (Qabs q / Qpow2 e)) in *. clearbody m.
  rewrite Ep. apply Qle_shift_div_r; [exact HP|].
  rewrite <- inject_Z_mult, <- Zle_Qle. exact Hm.
Qed.

Lemma Qred_Z (z : Z) : Qred (inject_Z z) = inject_Z z.
Proof.
  unfold Qred, inject_Z. cbn [Qnum Qden].
  pose proof (Z.ggcd_gcd z 1) as Hg. rewrite Z.gcd_1_r in Hg.
  pose proof (Z.ggcd_correct_divisors z 1) as Hd.
  destruct (Z.ggcd z 1) as [g [a b]]. cbn [fst snd] in *. subst g.
  destruct Hd as [Ha Hb]. f_equal; [lia|].
  assert (b = 1%Z) by lia. now subst b.
Qed.

(** The integers below [2 ^ 53] are doubles. *)
Lemma rnd_int (z : Z) :
  (Z.abs z < 2 ^ 53)%Z -> rnd (inject_Z z) = inject_Z z.
Proof.
  intros Hz. unfold rnd.
  destruct (Qeq_bool (inject_Z z) 0) eqn:Ez.
  { apply Qeq_bool_eq in Ez. transitivity (Qred (inject_Z z));
      [|apply Qred_Z]. change 0 with (Qred 0). apply Qred_complete.
    now symmetry. }
  assert (Hnz : z <> 0%Z).
  { intros ->. discriminate Ez. }
  assert (Ea : Qabs (inject_Z z) == inject_Z (Z.abs z)).
  { unfold inject_Z. now rewrite <- Zabs_Qabs. }
  rewrite (log2floor_comp _ _ Ea).
  set (e := Z.max (log2floor (inject_Z (Z.abs z)) - 52) (-1074)).
  assert (He : (e <= 0)%Z).
  { assert (Hl : (log2floor (inject_Z (Z.abs z)) <= 52)%Z).
    { apply (log2floor_small _ (Z.abs z)); [|apply Qle_refl|exact Hz].
      change 0 with (inject_Z 0). rewrite <- Zlt_Qlt. lia. }
    unfold e. lia. }
  pose proof (pow2_pos (- e) ltac:(lia)) as HP.
  set (P := (2 ^ (- e))%Z) in *.
  pose proof (Qpow2_nonpos e He) as Ep. fold P in Ep.
  assert (Es : Qabs (inject_Z z) / Qpow2 e == inject_Z (Z.abs z * P)).
  { rewrite Ea, Ep, inject_Z_mult.
    unfold Qdiv. now rewrite Qinv_involutive. }
  rewrite (roundEven_comp _ _ Es), roundEven_Z.
  assert (Er : inject_Z (Z.abs z * P) * Qpow2 e == inject_Z (Z.abs z)).
  { rewrite Ep, inject_Z_mult. field.
    intros E0. rewrite E0 in HP. now apply Qlt_irrefl in HP. }
  transitivity (Qred (inject_Z z)); [apply Qred_complete|apply Qred_Z].
  destruct (Qle_bool 0 (inject_Z z)) eqn:El.
  - rewrite Er. apply Qle_bool_iff in El.
    change 0 with (inject_Z 0) in El. rewrite <- Zle_Qle in El.
    now rewrite Z.abs_eq.
  - rewrite Er.
    assert (Hneg : (z < 0)%Z).
    { destruct (Z_lt_le_dec z 0) as [Hl|Hl]; [exact Hl|].
      assert (Hle : 0 <= inject_Z z)
        by (change 0 with (inject_Z 0); now rewrite <- Zle_Qle).
      apply Qle_bool_iff in Hle. congruence. }
    rewrite Z.abs_neq by lia. rewrite inject_Z_opp. ring.
Qed.

Lemma span_app (p : char -> bool) (a b : jsstring) :
  forallb p a = true ->
  match b with [] => True | c :: _ => p c = false end ->
  span p (a ++ b) = (a, b).
Proof.
  intros Ha Hb. induction a as [|x a IH]; simpl in *.
  - destruct b as [|c b]; [reflexivity|]. simpl. now rewrite Hb.
  - apply andb_true_iff in Ha as [Hx Ha]. rewrite Hx, (IH Ha). reflexivity.
Qed.

Lemma dropWhile_app (p : char -> bool) (a b : jsstring) :
  forallb p a = true ->
  match b with [] => True | c :: _ => p c = false end ->
  dropWhile p (a ++ b) = b.
Proof. intros Ha Hb. unfold dropWhile. now rewrite span_app. Qed.

Lemma digits1_app (d rest : jsstring) :
  d <> [] -> forallb isDigit d = true ->
  match rest with [] => True | c :: _ => isDigit c = false end ->
  digits1 (d ++ rest) = Some (d, rest).
Proof.
  intros Hne Hd Hr. unfold digits1. rewrite span_app by assumption.
  destruct d; [contradiction|reflexivity].
Qed.

Lemma search_here {A} (m : jsstring -> option A) (s : jsstring) (r : A) :
  m s = Some r -> search m s = Some r.
Proof. intros E. destruct s; cbn [search]; now rewrite E. Qed.

Lemma search_Some {A} (m : jsstring -> option A) (s : jsstring) (r : A) :
  search m s = Some r -> exists t, m t = Some r.
Proof.
  induction s as [|c s IH]; simpl.
  - destruct (m []) eqn:E; [|discriminate]. intros H; injection H as ->.
    now exists [].
  - destruct (m (c :: s)) eqn:E.
    + intros H; injection H as ->. now exists (c :: s).
    + exact IH.
Qed.

Lemma span_split (p : char -> bool) (s : jsstring) :
  s = fst (span p s) ++ snd (span p s)
  /\ forallb p (fst (span p s)) = true.
Proof.
  induction s as [|c s [IH1 IH2]]; simpl; [now split|].
  destruct (p c) eqn:E; [|now split].
  destruct (span p s) as [a b]. simpl in *. split.
  - now rewrite <- IH1.
  - now rewrite E, IH2.
Qed.


Lemma dropWhile_fixed (p : char -> bool) (s : jsstring) :
  match s with [] => True | c :: _ => p c = false end -> dropWhile p s = s.
Proof.
  unfold dropWhile. destruct s as [|c s]; simpl; [reflexivity|].
  now intros ->.
Qed.

(** Case analysis on the comparisons of character codes. *)
Ltac char_cases :=
  repeat match goal with
    | H : context [(?a <=? ?b)%N] |- _ => destruct (N.leb_spec a b); try lia
    | H : context [(?a =? ?b)%N] |- _ => destruct (N.eqb_spec a b); try lia
    | H : context [(?a <? ?b)%N] |- _ => destruct (N.ltb_spec a b); try lia
    | |- context [(?a <=? ?b)%N] => destruct (N.leb_spec a b); try lia
    | |- context [(?a =? ?b)%N] => destruct (N.eqb_spec a b); try lia
    | |- context [(?a <? ?b)%N] => destruct (N.ltb_spec a b); try lia
    end;
  simpl in *; try congruence; try lia.

Lemma isDigit_bounds c : isDigit c = true <-> (48 <= c <= 57)%N.
Proof. unfold isDigit. split; intros H; char_cases. Qed.

Lemma isDigit_not_space c : isDigit c = true -> isSpace c = false.
Proof. rewrite isDigit_bounds. intros H. unfold isSpace. char_cases. Qed.

Lemma head_not_space (d rest : jsstring) :
  d <> [] -> forallb isDigit d = true ->
  match d ++ rest with [] => True | c :: _ => isSpace c = false end.
Proof.
  destruct d as [|c d]; [contradiction|]. simpl. intros _ H.
  apply andb_true_iff in H as [H _]. now apply isDigit_not_space.
Qed.

(** ** Colours (C4) *)

Module ColourFacts.
Import Html2Pptx.

(** An [rgba(...)] colour as the browser serialises it. *)
Definition rgbaColour (r g b alpha : jsstring) : jsstring :=
  js "rgba(" ++ r ++ js ", " ++ g ++ js ", " ++ b ++ js ", " ++ alpha ++ js ")".

Lemma isDigitOrDot_head_not_space (a rest : jsstring) :
  a <> [] -> forallb isDigitOrDot a = true ->
  match a ++ rest with [] => True | c :: _ => isSpace c = false end.
Proof.
  destruct a as [|c a]; [contradiction|]. simpl. intros _ H.
  apply andb_true_iff in H as [H _]. unfold isDigitOrDot in H.
  apply orb_true_iff in H as [H|H].
  - now apply isDigit_not_space.
  - unfold char_eqb in H. change (ch ".") with 46%N in H.
    apply N.eqb_eq in H. subst c. reflexivity.
Qed.

Lemma rgbaAt_rgbaColour r g b alpha :
  r <> [] -> forallb isDigit r = true ->
  g <> [] -> forallb isDigit g = true ->
  b <> [] -> forallb isDigit b = true ->
  alpha <> [] -> forallb isDigitOrDot alpha = true ->
  rgbaAt (rgbaColour r g b alpha) = Some alpha.
Proof.
  intros Hr Hr' Hg Hg' Hb Hb' Ha Ha'.
  unfold rgbaColour, rgbaAt.
  rewrite strip_app.
  change (js ", ") with ([44%N] ++ [32%N]). change (js ")") with [41%N].
  change (js ",") with [44%N].
  rewrite digits1_app by (auto; reflexivity).
  repeat rewrite <- app_assoc. rewrite strip_app.
  rewrite (dropWhile_app isSpace [32%N]) by
    (try reflexivity; now apply head_not_space).
  rewrite digits1_app by (auto; reflexivity).
  repeat rewrite <- app_assoc. rewrite strip_app.
  rewrite (dropWhile_app isSpace [32%N]) by
    (try reflexivity; now apply head_not_space).
  rewrite digits1_app by (auto; reflexivity).
  repeat rewrite <- app_assoc. rewrite strip_app.
  rewrite (dropWhile_app isSpace [32%N]) by
    (try reflexivity; now apply isDigitOrDot_head_not_space).
  rewrite span_app by (auto; reflexivity).
  destruct alpha as [|c alpha]; [contradiction|]. reflexivity.
Qed.

(** C4 (as amended).  The colour strings [rgba(0, 0, 0, 0)] and
    [transparent] both extract as white, [FFFFFF]; [transparent] carries no
    transparency value, while [rgba(0, 0, 0, 0)] carries the transparency
    100 of its alpha channel 0.  [rgba(10, 20, 30, 0.25)] extracts as the
    hexadecimal digits [0a141e] with transparency 75.  For every serialised
    [rgba] colour with an alpha of at most 1 the transparency is
    [Math.round((1 - alpha) * 100)] as doubles compute it: the alpha 0.425
    gives 57, where exact arithmetic would give 58. *)
Theorem colour_extraction :
  rgbToHex (js "rgba(0, 0, 0, 0)") = js "FFFFFF" /\
  rgbToHex (js "transparent") = js "FFFFFF" /\
  extractAlpha (js "transparent") = None /\
  extractAlpha (js "rgba(0, 0, 0, 0)") = Some (Num 100) /\
  rgbToHex (js "rgba(10, 20, 30, 0.25)") = js "0a141e" /\
  extractAlpha (js "rgba(10, 20, 30, 0.25)") = Some (Num 75) /\
  extractAlpha (js "rgba(0, 0, 0, 0.425)") = Some (Num 57) /\
  round ((1 - (425 # 1000)) * 100) = 58%Z /\
  (forall r g b a alpha,
      r <> [] -> forallb isDigit r = true ->
      g <> [] -> forallb isDigit g = true ->
      b <> [] -> forallb isDigit b = true ->
      a <> [] -> forallb isDigitOrDot a = true ->
      parseFloat a = Num alpha -> alpha <= 1 ->
      extractAlpha (rgbaColour r g b a)
      = Some (Num (inject_Z (round (dmul (dsub 1 alpha) 100))))).
Proof.
  do 8 (split; [vm_compute; reflexivity|]).
  intros r g b a alpha Hr Hr' Hg Hg' Hb Hb' Ha Ha' Hp _.
  unfold extractAlpha.
  rewrite (search_here _ _ _
             (rgbaAt_rgbaColour r g b a Hr Hr' Hg Hg' Hb Hb' Ha Ha')), Hp.
  reflexivity.
Qed.

Lemma colour_extraction_witness :
  extractAlpha (rgbaColour (js "10") (js "20") (js "30") (js "0.25"))
  = Some (Num (inject_Z (round (dmul (dsub 1 (1 # 4)) 100)))).
Proof.
  apply colour_extraction; try (vm_compute; reflexivity); discriminate.
Defined.

(** The claim as stated fails: a transparency value is attached to
    [rgba(0, 0, 0, 0)], and the digits of the second colour are lower case. *)
Lemma colour_extraction_counterexample :
  ~ (extractAlpha (js "rgba(0, 0, 0, 0)") = None
     /\ rgbToHex (js "rgba(10, 20, 30, 0.25)") = js "0A141E").
Proof. intros [H _]. discriminate H. Qed.

End ColourFacts.

(** ** The aggregate failure of a conversion (C1) *)

Module ConversionFacts.
Import Html2Pptx.

(** The lines of a numbered list that starts at [i]. *)
Fixpoint numberedFrom (i : nat) (errs : list jsstring) : list jsstring :=
  match errs with
  | [] => []
  | e :: rest =>
      (js "  " ++ natToString i ++ js ". " ++ e) :: numberedFrom (S i) rest
  end.

Lemma numbered_lines (k : nat) (errs : list jsstring) :
  map (fun '(i, e) => js "  " ++ natToString (i + 1) ++ js ". " ++ e)
      (combine (seq k (length errs)) errs)
  = numberedFrom (S k) errs.
Proof.
  revert k. induction errs as [|e errs IH]; intros k; simpl.
  - reflexivity.
  - rewrite IH. now rewrite Nat.add_1_r.
Qed.

Lemma errorMessage_single e : errorMessage [e] = e.
Proof. reflexivity. Qed.

Lemma errorMessage_several (errs : list jsstring) :
  (2 <= length errs)%nat ->
  errorMessage errs
  = js "发现多个校验错误：" ++ newline ++ join newline (numberedFrom 1 errs).
Proof.
  intros Hlen. unfold errorMessage.
  destruct errs as [|e1 [|e2 errs]]; simpl in Hlen; try lia.
  now rewrite numbered_lines.
Qed.

(** All the errors of one run, in the order in which they are merged. *)
Definition accumulated `{Host} {Shadow} (pres : Presentation Shadow)
    (body : BodyBox) (slideData : SlideData Shadow) : list jsstring :=
  overflowErrors (getBodyDimensions body)
  ++ validateDimensions body pres
  ++ validateTextBoxPosition slideData body
  ++ errors slideData.

(** C1 (as amended).  A run that accumulates at least one validation error
    adds no slide to the presentation and raises a single failure.  Its
    message is built from one text: the error itself when exactly one was
    accumulated, the numbered list of all the errors in order when there
    are several.  The failure carries that text after the file name, a
    colon and a space, or the text alone when the text already begins with
    the file name. *)
Theorem html2pptx_raises_all_errors `{Host} {Shadow} (htmlFile : jsstring)
    (pres : Presentation Shadow) (slideOption : option (Slide Shadow))
    (body : BodyBox) (slideData : SlideData Shadow) :
  accumulated pres body slideData <> [] ->
  exists message,
    html2pptx htmlFile pres slideOption body slideData
    = (Thrown (if startsWith message htmlFile then message
               else htmlFile ++ js ": " ++ message), pres)
    /\ (forall e, accumulated pres body slideData = [e] -> message = e)
    /\ ((2 <= length (accumulated pres body slideData))%nat ->
        message = js "发现多个校验错误：" ++ newline
                  ++ join newline
                       (numberedFrom 1 (accumulated pres body slideData))).
Proof.
  intros Hne. exists (errorMessage (accumulated pres body slideData)).
  split; [|split].
  - unfold html2pptx. fold (accumulated pres body slideData).
    destruct (accumulated pres body slideData) as [|e errs] eqn:E;
      [contradiction|].
    destruct (startsWith _ htmlFile); reflexivity.
  - intros e ->. apply errorMessage_single.
  - apply errorMessage_several.
Qed.

Definition noSlides : Presentation unit :=
  {| presLayout := None; slides := [] |}.

Definition fittingBody : BodyBox :=
  {| width := 1280; height := 720; scrollWidth := 1280; scrollHeight := 720 |}.

Definition oneError : SlideData unit :=
  {| background := ColorBackground (js "FFFFFF");
     elements := [];
     placeholders := [];
     errors := [js "CSS 渐变不支持。"] |}.

Lemma html2pptx_raises_all_errors_witness :
  exists message,
    @html2pptx exampleHost unit (js "slide.html") noSlides None fittingBody
               oneError
    = (Thrown (if startsWith message (js "slide.html") then message
               else js "slide.html" ++ js ": " ++ message), noSlides)
    /\ (forall e,
           @accumulated exampleHost unit noSlides fittingBody oneError = [e] ->
           message = e)
    /\ ((2 <= length (@accumulated exampleHost unit noSlides fittingBody
                                   oneError))%nat ->
        message = js "发现多个校验错误：" ++ newline
                  ++ join newline
                       (numberedFrom 1
                          (@accumulated exampleHost unit noSlides fittingBody
                                        oneError))).
Proof.
  apply (@html2pptx_raises_all_errors exampleHost unit (js "slide.html")
           noSlides None fittingBody oneError).
  vm_compute. discriminate.
Defined.

(** The claim as stated fails: with one accumulated error, the message of
    the failure is not that error verbatim. *)
Lemma html2pptx_single_error_counterexample :
  @accumulated exampleHost unit noSlides fittingBody oneError
  = [js "CSS 渐变不支持。"]
  /\ fst (@html2pptx exampleHost unit (js "slide.html") noSlides None
                     fittingBody oneError)
     = Thrown (js "slide.html: CSS 渐变不支持。")
  /\ js "slide.html: CSS 渐变不支持。" <> js "CSS 渐变不支持。".
Proof.
  split; [vm_compute; reflexivity|].
  split; [vm_compute; reflexivity|].
  vm_compute. discriminate.
Qed.

End ConversionFacts.

(** ** The overflow check (C7) *)

Module OverflowFacts.
Import Html2Pptx.









End OverflowFacts.

(** ** Rotation (C6) *)

Module RotationFacts.
Import Html2Pptx.
























End RotationFacts.

(** ** Containers: borders and corner radius (C3, C8) *)

Module ContainerFacts.
Import Html2Pptx.

Section Borders.
Context `{Host}.
Variable Shadow : Type.
Variable parseBoxShadow : jsstring -> option Shadow.

(** The width of an edge in pixels, as the extraction reads it. *)
Definition borderPx (computed : Computed.style) (e : Edge) : Q :=
  orZero (parseFloat (edgeWidth computed e)).

Definition allEdges : list Edge := [TopEdge; RightEdge; BottomEdge; LeftEdge].







Definition hasBorder (computed : Computed.style) : bool :=
  existsb (fun e => Qltb 0 (borderPx computed e)) allEdges.

Definition hasUniformBorder (computed : Computed.style) : bool :=
  hasBorder computed
  && forallb (fun e => Qeq_bool (borderPx computed e)
                                (borderPx computed TopEdge)) allEdges.








(** C8.  A percentage of 50 or more gives the factor 1 whatever the box; a
    smaller percentage gives that fraction of the shorter side, in inches:
    25% of a box of 200 by 100 pixels gives 0.25 * (100 / 96); a radius in
    points is divided by 72 and one in pixels by 96. *)
Theorem convertRadius_cases (rect : DOMRect) :
  (forall radius v,
      includes radius (js "%") = true -> parseFloat radius = Num v ->
      50 <= v -> convertRadius radius rect = Num 1)
  /\ convertRadius (js "50%") rect = Num 1
  /\ (forall radius v,
         includes radius (js "%") = true -> parseFloat radius = Num v ->
         v < 50 ->
         exists q,
           convertRadius radius rect = Num q
           /\ (rectWidth rect <= rectHeight rect ->
               q == (v / 100) * (rectWidth rect / 96))
           /\ (rectHeight rect <= rectWidth rect ->
               q == (v / 100) * (rectHeight rect / 96)))
  /\ (exists q,
         convertRadius (js "25%")
           {| rectLeft := 0; rectTop := 0; rectWidth := 200;
              rectHeight := 100 |} = Num q
         /\ q == 0.25 * (100 / 96))
  /\ (forall radius v,
         parseFloat radius = Num v -> includes radius (js "%") = false ->
         exists q,
           convertRadius radius rect = Num q
           /\ q == (if includes radius (js "pt") then v / 72 else v / 96)).
Proof.
  split; [|split; [|split; [|split]]].
  - intros radius v Hpct Hv Hge. unfold convertRadius. rewrite Hv, Hpct.
    destruct (Qeq_bool v 0) eqn:Ez.
    + apply Qeq_bool_eq in Ez. rewrite Ez in Hge. lra.
    + apply Qle_bool_iff in Hge. now rewrite Hge.
  - vm_compute. reflexivity.
  - intros radius v Hpct Hv Hlt. unfold convertRadius. rewrite Hv, Hpct.
    destruct (Qeq_bool v 0) eqn:Ez.
    + apply Qeq_bool_eq in Ez. exists 0. split; [reflexivity|].
      split; intros _; rewrite Ez; field.
    + assert (Hge : Qle_bool 50 v = false).
      { destruct (Qle_bool 50 v) eqn:E; [|reflexivity].
        apply Qle_bool_iff in E. lra. }
      rewrite Hge. eexists. split; [reflexivity|].
      unfold Qmin2, pxToInch, PX_PER_IN.
      destruct (Qle_bool (rectWidth rect) (rectHeight rect)) eqn:Em.
      * split; [reflexivity|]. intros Hh. apply Qle_bool_iff in Em.
        assert (E : rectWidth rect == rectHeight rect) by lra.
        now rewrite E.
      * split; [|reflexivity]. intros Hwle.
        apply Qle_bool_iff in Hwle. congruence.
  - eexists. split; [vm_compute; reflexivity|]. reflexivity.
  - intros radius v Hv Hpct. unfold convertRadius. rewrite Hv, Hpct.
    destruct (Qeq_bool v 0) eqn:Ez.
    + apply Qeq_bool_eq in Ez. exists 0. split; [reflexivity|].
      destruct (includes radius (js "pt")); rewrite Ez; reflexivity.
    + destruct (includes radius (js "pt")); eexists;
        (split; [reflexivity|]); reflexivity.
Qed.

End Borders.



Lemma convertRadius_cases_witness :
  convertRadius (js "75%") box100 = Num 1
  /\ (exists q,
         convertRadius (js "10%") box100 = Num q
         /\ (rectWidth box100 <= rectHeight box100 ->
             q == (10 / 100) * (rectWidth box100 / 96))
         /\ (rectHeight box100 <= rectWidth box100 ->
             q == (10 / 100) * (rectHeight box100 / 96)))
  /\ exists q, convertRadius (js "12pt") box100 = Num q
               /\ q == (if includes (js "12pt") (js "pt")
                        then 12 / 72 else 12 / 96).
Proof.
  split; [|split].
  - apply (proj1 (convertRadius_cases box100) (js "75%") 75).
    + vm_compute. reflexivity.
    + vm_compute. reflexivity.
    + vm_compute. discriminate.
  - apply (proj1 (proj2 (proj2 (convertRadius_cases box100))) (js "10%") 10).
    + vm_compute. reflexivity.
    + vm_compute. reflexivity.
    + vm_compute. reflexivity.
  - apply (proj2 (proj2 (proj2 (proj2 (convertRadius_cases box100))))
             (js "12pt") 12).
    + vm_compute. reflexivity.
    + vm_compute. reflexivity.
Defined.

End ContainerFacts.

(** ** The border fixer (C10) *)

Module BorderFixerFacts.
Import AutoFix.


















End BorderFixerFacts.

(** ** Persisting a fix (C2) *)

Module PersistFacts.
Import AutoFix.

Lemma backupPath_differs (htmlPath : jsstring) :
  str_eqb (htmlPath ++ js ".backup") htmlPath = false.
Proof.
  destruct (str_eqb (htmlPath ++ js ".backup") htmlPath) eqn:E;
    [|reflexivity].
  apply str_eqb_spec in E. apply (f_equal (@length _)) in E.
  rewrite length_app in E. simpl in E. lia.
Qed.

Section Files.
Variable parse : jsstring -> Document.
Variable serialize : Document -> jsstring.

Lemma save_without_backup htmlPath fixer fs :
  snd (save serialize false htmlPath fixer fs) (htmlPath ++ js ".backup")
  = fs (htmlPath ++ js ".backup").
Proof.
  unfold save. destruct (fixed fixer); cbn; [|reflexivity].
  unfold writeFile. now rewrite backupPath_differs.
Qed.

Lemma tryFixer_backup htmlPath canFix runFix pr :
  files (tryFixer parse serialize htmlPath canFix runFix pr)
        (htmlPath ++ js ".backup")
  = files pr (htmlPath ++ js ".backup").
Proof.
  unfold tryFixer. destruct (failure pr); [reflexivity|].
  destruct (canFix (htmlContent pr)); [|reflexivity].
  destruct (runFix (parse (htmlContent pr))) as [fixer|m]; [|reflexivity].
  destruct (fixed fixer) eqn:E; [|reflexivity].
  cbn [files]. apply save_without_backup.
Qed.

Lemma autoFixHtml_backup htmlPath errorMessage options fs :
  snd (autoFixHtml parse serialize htmlPath errorMessage options fs)
      (htmlPath ++ js ".backup")
  = fs (htmlPath ++ js ".backup").
Proof.
  unfold autoFixHtml. destruct (fs htmlPath) as [content|]; [|reflexivity].
  match goal with
  | |- snd (match failure ?p with _ => _ end) _ = _ =>
      transitivity (files p (htmlPath ++ js ".backup"));
      [destruct (failure p); reflexivity|]
  end.
  rewrite !tryFixer_backup.
  destruct (borderCanFix errorMessage) as [[tagNames styleType]|];
    [rewrite tryFixer_backup|]; reflexivity.
Qed.

Lemma tryFixer_skip htmlPath canFix runFix pr :
  failure pr = None -> canFix (htmlContent pr) = false ->
  tryFixer parse serialize htmlPath canFix runFix pr = pr.
Proof. intros Hf Hc. unfold tryFixer. now rewrite Hf, Hc. Qed.

Lemma tryFixer_fixed htmlPath canFix runFix pr fixer :
  failure pr = None -> canFix (htmlContent pr) = true ->
  runFix (parse (htmlContent pr)) = Returned fixer -> fixed fixer = true ->
  tryFixer parse serialize htmlPath canFix runFix pr
  = {| files := writeFile (files pr) htmlPath (serialize (document fixer));
       htmlContent := serialize (document fixer);
       applied := S (applied pr);
       failure := None |}.
Proof.
  intros Hf Hc Hr Hx. unfold tryFixer, save. now rewrite Hf, Hc, Hr, Hx.
Qed.

End Files.

(** The library of pages reads and writes the pages with one style sheet. *)
Lemma pageParse_reads : readsStylePages pageParse.
Proof.
  intros css Hcss. unfold pageParse, stylePage.
  rewrite strip_app, span_app.
  - now rewrite str_eqb_refl, Hcss.
  - unfold plainSheet in Hcss. rewrite forallb_forall in Hcss.
    apply forallb_forall. intros c Hc. specialize (Hcss c Hc).
    now destruct (c =? 60)%N.
  - reflexivity.
Qed.

Lemma pageSerialize_writes : writesStylePages pageSerialize.
Proof.
  intros css Hcss. unfold pageSerialize, stylePageDocument.
  destruct css as [|c css].
  - vm_compute. reflexivity.
  - rewrite Hcss. vm_compute (str_eqb _ _). reflexivity.
Qed.

(** C2: what the code does.  Whatever the option, [autoFixHtml] leaves the
    backup path as it found it; so a call with [backup = true] that fixes
    the file and writes it back creates no backup of the original: for the
    page [gradientPage], read and written by a DOM library that does on
    pages with one style sheet what the HTML parser does, the call returns
    [true] and rewrites the file, and the backup path stays empty. *)
Theorem autoFixHtml_writes_no_backup :
  (forall parse serialize htmlPath errorMessage options fs,
      snd (autoFixHtml parse serialize htmlPath errorMessage options fs)
          (htmlPath ++ js ".backup")
      = fs (htmlPath ++ js ".backup"))
  /\ (forall parse serialize fs,
         readsStylePages parse -> writesStylePages serialize ->
         fs (js "slide.html") = Some gradientPage ->
         fs (js "slide.html.backup") = None ->
         fst (autoFixHtml parse serialize (js "slide.html") []
                          {| backup := true |} fs)
         = Returned true
         /\ snd (autoFixHtml parse serialize (js "slide.html") []
                             {| backup := true |} fs) (js "slide.html")
            = Some (stylePage (js "a{background: red;}"))
         /\ snd (autoFixHtml parse serialize (js "slide.html") []
                             {| backup := true |} fs) (js "slide.html.backup")
            = None).
Proof.
  split; [exact autoFixHtml_backup|].
  intros parse serialize fs Hreads Hwrites Hfile Hbackup.
  assert (Hparse : parse gradientPage
                   = stylePageDocument
                       (js "a{background: linear-gradient(red, blue);}"))
    by (apply Hreads; vm_compute; reflexivity).
  assert (Hserialize : serialize (stylePageDocument (js "a{background: red;}"))
                       = stylePage (js "a{background: red;}"))
    by (apply Hwrites; vm_compute; reflexivity).
  assert (Hfix : gradientFix
                   (stylePageDocument
                      (js "a{background: linear-gradient(red, blue);}"))
                 = Returned
                     {| document := stylePageDocument (js "a{background: red;}");
                        fixed := true;
                        fixDescription :=
                          js "将1个样式块中的CSS渐变和背景图片转换为单色背景" |})
    by (vm_compute; reflexivity).
  assert (Hrun : autoFixHtml parse serialize (js "slide.html") []
                             {| backup := true |} fs
                 = (Returned true,
                    writeFile fs (js "slide.html")
                              (stylePage (js "a{background: red;}")))).
  { unfold autoFixHtml. rewrite Hfile.
    change (borderCanFix []) with (@None (list jsstring * jsstring)).
    cbv zeta.
    rewrite (tryFixer_skip parse serialize (js "slide.html")
               (fun _ => unwrappedCanFix []) unwrappedFix)
      by reflexivity.
    rewrite (tryFixer_fixed parse serialize (js "slide.html")
               (gradientCanFix []) gradientFix _
               {| document := stylePageDocument (js "a{background: red;}");
                  fixed := true;
                  fixDescription :=
                    js "将1个样式块中的CSS渐变和背景图片转换为单色背景" |}).
    - cbn [failure applied files document Nat.ltb Nat.leb].
      now rewrite Hserialize.
    - reflexivity.
    - vm_compute. reflexivity.
    - cbn [htmlContent]. now rewrite Hparse.
    - reflexivity. }
  rewrite Hrun. cbn [fst snd]. split; [reflexivity|].
  split; [vm_compute; reflexivity|].
  unfold writeFile.
  replace (str_eqb (js "slide.html.backup") (js "slide.html")) with false
    by (vm_compute; reflexivity).
  exact Hbackup.
Qed.

(** The same call on the files that hold the page alone, with the library
    of pages. *)
Lemma autoFixHtml_writes_no_backup_witness :
  fst (autoFixHtml pageParse pageSerialize (js "slide.html") []
                   {| backup := true |} pageFiles)
  = Returned true
  /\ snd (autoFixHtml pageParse pageSerialize (js "slide.html") []
                      {| backup := true |} pageFiles) (js "slide.html")
     = Some (stylePage (js "a{background: red;}"))
  /\ snd (autoFixHtml pageParse pageSerialize (js "slide.html") []
                      {| backup := true |} pageFiles) (js "slide.html.backup")
     = None.
Proof.
  apply (proj2 autoFixHtml_writes_no_backup pageParse pageSerialize pageFiles
           pageParse_reads pageSerialize_writes).
  - vm_compute. reflexivity.
  - vm_compute. reflexivity.
Defined.

(** The sibling path: [save] with its default argument does write the
    backup, once. *)
Lemma save_with_backup (serialize : Document -> jsstring) htmlPath fixer fs
    original :
  fixed fixer = true -> fs htmlPath = Some original ->
  fs (htmlPath ++ js ".backup") = None ->
  snd (save serialize true htmlPath fixer fs) (htmlPath ++ js ".backup")
  = Some original.
Proof.
  intros Hf Ho Hb. unfold save. rewrite Hf, Hb, Ho. cbn.
  unfold writeFile. now rewrite backupPath_differs, str_eqb_refl.
Qed.

End PersistFacts.

(** ** The inline run parser (C5) *)

Module RunFacts.
Import Html2Pptx.





Section Parser.
Context `{Host}.

(** Induction on a node with its children. *)
Lemma Node_induction (P : Node -> Prop) :
  (forall data, P (TextNode data)) ->
  (forall data, P (CommentNode data)) ->
  (forall tagName computed rect children,
      Forall P children -> P (ElementNode tagName computed rect children)) ->
  forall node, P node.
Proof.
  intros Ht Hc He.
  fix IH 1. intros [data|data|tagName computed rect children].
  - apply Ht.
  - apply Hc.
  - apply He. induction children as [|child children IHc]; constructor.
    + apply IH.
    + exact IHc.
Qed.

Lemma visit_children (children : list Node) options textTransform prev s :
  (fix each (l : list Node) (prev : bool) (s : Parse) : Parse :=
     match l with
     | [] => s
     | child :: rest =>
         let (s', prev') := visit child options textTransform prev s in
         each rest prev' s'
     end) children prev s
  = visitAll children options textTransform prev s.
Proof.
  revert prev s. induction children as [|child children IH]; intros prev s;
    [reflexivity|].
  cbn [visitAll]. destruct (visit child options textTransform prev s).
  apply IH.
Qed.


(** *** Siblings are merged *)






(** *** Trimming removes white space only *)






















End Parser.



(** A run in the middle of a sequence loses the white space at its end when
    it closes an inline element. *)
Lemma trailing_space_lost_inside :
  map text (fst (@parseInlineFormatting exampleHost boldInSentence noOptions []
                   (fun s => s) []))
  = [js "Hello "; js "bold"; js "world"].
Proof. vm_compute. reflexivity. Qed.

(** The empty runs are dropped after the trimming, so a returned run can
    begin or end with white space: the line break before [ it] and the one
    after [x ] are runs of their own, which the trimming empties. *)
Lemma white_space_kept_beside_empty_run :
  map text (fst (@parseInlineFormatting exampleHost
                   [ElementNode (js "BR") boldStyle inlineRect [];
                    CommentNode (js "c"); TextNode (js " it")]
                   noOptions [] (fun s => s) []))
  = [js " it"]
  /\ map text (fst (@parseInlineFormatting exampleHost
                      [TextNode (js "x "); CommentNode (js "c");
                       ElementNode (js "BR") boldStyle inlineRect []]
                      noOptions [] (fun s => s) []))
     = [js "x "].
Proof. split; vm_compute; reflexivity. Qed.

End RunFacts.

(** ** The gradient fixer (C9) *)

Module GradientFacts.
Import AutoFix.

(** *** Scans that replace *)

Lemma replaceAll_skip m (a b : jsstring) :
  replaceAll m (a ++ b) (length a) = replaceAll m b 0.
Proof. induction a as [|c a IH]; simpl; [now destruct b|exact IH]. Qed.

Lemma replaceAll_miss m (c : char) (t : jsstring) :
  m (c :: t) = None -> replaceAll m (c :: t) 0 = c :: replaceAll m t 0.
Proof. intros E. simpl. now rewrite E. Qed.

Lemma replaceAll_hit m (matched rest replacement : jsstring) :
  matched <> [] -> m (matched ++ rest) = Some (replacement, rest) ->
  replaceAll m (matched ++ rest) 0 = replacement ++ replaceAll m rest 0.
Proof.
  intros Hne E. destruct matched as [|c matched]; [contradiction|].
  cbn [app replaceAll]. cbn [app] in E. rewrite E. f_equal.
  cbn [length]. rewrite length_app.
  replace (S (length matched + length rest) - length rest - 1)%nat
    with (length matched) by lia.
  apply replaceAll_skip.
Qed.

(** [t] is what is left of [s] from some position on. *)
Definition tailOf (t s : jsstring) : Prop := exists before, s = before ++ t.

(** No position of [s] matches. *)
Definition noMatch {A} (m : jsstring -> option A) (s : jsstring) : Prop :=
  forall t, tailOf t s -> m t = None.

Lemma tailOf_refl (s : jsstring) : tailOf s s.
Proof. now exists []. Qed.

Lemma tailOf_cons (t : jsstring) (c : char) (s : jsstring) :
  tailOf t s -> tailOf t (c :: s).
Proof. intros [before ->]. now exists (c :: before). Qed.

Lemma tailOf_app (t a s : jsstring) : tailOf t s -> tailOf t (a ++ s).
Proof. intros [before ->]. exists (a ++ before). now rewrite app_assoc. Qed.

Lemma tailOf_cons_inv (t : jsstring) (c : char) (s : jsstring) :
  tailOf t (c :: s) -> t = c :: s \/ tailOf t s.
Proof.
  intros [[|b before] E]; simpl in E.
  - now left.
  - right. injection E as _ ->. now exists before.
Qed.

Lemma noMatch_cons {A} (m : jsstring -> option A) (c : char) (s : jsstring) :
  m (c :: s) = None -> noMatch m s -> noMatch m (c :: s).
Proof.
  intros Hc Hs t Ht. apply tailOf_cons_inv in Ht as [->|Ht]; auto.
Qed.

Lemma noMatch_tail {A} (m : jsstring -> option A) (t s : jsstring) :
  tailOf t s -> noMatch m s -> noMatch m t.
Proof.
  intros [before ->] Hs u [b ->]. apply Hs. exists (before ++ b).
  now rewrite app_assoc.
Qed.

(** Without a match, the scan changes nothing. *)
Lemma replaceAll_noMatch m (s : jsstring) :
  noMatch m s -> replaceAll m s 0 = s.
Proof.
  induction s as [|c s IH]; intros Hs; [reflexivity|].
  rewrite replaceAll_miss by (apply Hs, tailOf_refl).
  f_equal. apply IH. eapply noMatch_tail; [|exact Hs].
  now exists [c].
Qed.

Lemma tailOf_app_inv (t a s : jsstring) :
  tailOf t (a ++ s) ->
  tailOf t s \/ exists v, v <> [] /\ tailOf v a /\ t = v ++ s.
Proof.
  induction a as [|c a IH]; intros Ht.
  - now left.
  - cbn [app] in Ht. apply tailOf_cons_inv in Ht as [->|Ht].
    + right. exists (c :: a). repeat split; [discriminate|apply tailOf_refl].
    + destruct (IH Ht) as [H0|[v [Hv [Hva ->]]]]; [now left|].
      right. exists v. repeat split; auto. now apply tailOf_cons.
Qed.

(** *** One pass, seen from a pattern

    [m] is the replacer of the pass and [P'] the pattern whose matches are
    looked for in the result.  [good matched replacement] is what is known
    of a match of the pass and of the text put in its place. *)
Section Pass.
Variable A : Type.
Variable P' : jsstring -> option A.
Variable m : jsstring -> option (jsstring * jsstring).
Variable good : jsstring -> jsstring -> Prop.

(** A match of [P'] that begins before a replacement was already a match
    before the replacement was made. *)
Hypothesis local : forall x matched replacement rest o,
    x <> [] -> good matched replacement ->
    P' (x ++ replacement ++ o) <> None ->
    P' (x ++ matched ++ rest) <> None.

(** No match of [P'] begins inside a replacement. *)
Hypothesis inside : forall matched replacement v o,
    good matched replacement -> v <> [] -> tailOf v replacement ->
    P' (v ++ o) = None.

(** What the pass meets in [s]: where it does not match, [P'] does not
    either; where it matches, the match is [good]. *)
Definition scanned (s : jsstring) : Prop :=
  forall t, tailOf t s ->
    (m t = None -> P' t = None)
    /\ (forall replacement rest,
           m t = Some (replacement, rest) ->
           exists matched,
             matched <> [] /\ t = matched ++ rest
             /\ good matched replacement).

Lemma scanned_tail (t s : jsstring) : tailOf t s -> scanned s -> scanned t.
Proof.
  intros [before ->] Hs u [b ->]. apply Hs. exists (before ++ b).
  now rewrite app_assoc.
Qed.

Lemma scanned_nil : scanned [] -> noMatch P' [].
Proof.
  intros Hs t [before Hb]. symmetry in Hb. apply app_eq_nil in Hb as [_ ->].
  destruct (m []) as [[replacement rest]|] eqn:E.
  - destruct (proj2 (Hs [] (tailOf_refl _)) _ _ E) as [matched [Hne [Et _]]].
    symmetry in Et. apply app_eq_nil in Et as [-> _]. contradiction.
  - now apply (proj1 (Hs [] (tailOf_refl _))).
Qed.

Lemma transfer (n : nat) :
  forall s x, (length s <= n)%nat -> scanned s -> x <> [] ->
    P' (x ++ replaceAll m s 0) <> None -> P' (x ++ s) <> None.
Proof.
  induction n as [|n IH]; intros s x Hlen Hs Hx Hp.
  - destruct s; [exact Hp|simpl in Hlen; lia].
  - destruct s as [|c t]; [exact Hp|].
    destruct (m (c :: t)) as [[replacement rest]|] eqn:E.
    + destruct (proj2 (Hs (c :: t) (tailOf_refl _)) _ _ E)
        as [matched [Hne [Et Hg]]].
      rewrite Et in *. rewrite (replaceAll_hit m _ _ _ Hne E) in Hp.
      now apply (local x matched replacement rest (replaceAll m rest 0) Hx Hg).
    + rewrite (replaceAll_miss m c t E) in Hp.
      change (x ++ c :: replaceAll m t 0)
        with (x ++ [c] ++ replaceAll m t 0) in Hp.
      rewrite app_assoc in Hp.
      change (x ++ c :: t) with (x ++ [c] ++ t). rewrite app_assoc.
      apply IH; auto.
      * simpl in Hlen. lia.
      * apply (scanned_tail t (c :: t)); [now exists [c]|exact Hs].
      * now destruct x.
Qed.

Lemma pass_noMatch (n : nat) :
  forall s, (length s <= n)%nat -> scanned s ->
    noMatch P' (replaceAll m s 0).
Proof.
  induction n as [|n IH]; intros s Hlen Hs.
  - destruct s; [|simpl in Hlen; lia]. now apply scanned_nil.
  - destruct s as [|c t]; [now apply scanned_nil|].
    destruct (m (c :: t)) as [[replacement rest]|] eqn:E.
    + destruct (proj2 (Hs (c :: t) (tailOf_refl _)) _ _ E)
        as [matched [Hne [Et Hg]]].
      rewrite Et in *. rewrite (replaceAll_hit m _ _ _ Hne E).
      intros u Hu. apply tailOf_app_inv in Hu as [Hu|[v [Hv [Hvr ->]]]].
      * revert u Hu. apply IH.
        -- rewrite length_app in Hlen. destruct matched; [contradiction|].
           simpl in Hlen. lia.
        -- apply (scanned_tail rest (matched ++ rest)); [|exact Hs].
           now exists matched.
      * now apply (inside matched replacement).
    + rewrite (replaceAll_miss m c t E).
      assert (Ht : scanned t).
      { apply (scanned_tail t (c :: t)); [now exists [c]|exact Hs]. }
      apply noMatch_cons.
      * destruct (P' (c :: replaceAll m t 0)) eqn:Ep; [|reflexivity].
        exfalso.
        apply (transfer n t [c]); auto.
        -- simpl in Hlen. lia.
        -- discriminate.
        -- cbn [app]. rewrite Ep. discriminate.
        -- cbn [app]. now rewrite (proj1 (Hs (c :: t) (tailOf_refl _)) E).
      * apply IH; [simpl in Hlen; lia|exact Ht].
Qed.

End Pass.

(** *** Matching across the start of a replacement *)

Definition without (c : char) (s : jsstring) : bool :=
  forallb (fun d => negb (d =? c)%N) s.

Lemma strip_within (p : jsstring) :
  forall x c y r,
    without c p = true -> strip p (x ++ c :: y) = Some r ->
    exists x2, x = p ++ x2 /\ r = x2 ++ c :: y.
Proof.
  induction p as [|d p IH]; intros x c y r Hp Hs.
  - simpl in Hs. injection Hs as <-. now exists x.
  - simpl in Hp. apply andb_true_iff in Hp as [Hd Hp].
    apply negb_true_iff, N.eqb_neq in Hd.
    destruct x as [|e x]; simpl in Hs; unfold char_eqb in Hs.
    + destruct (N.eqb_spec d c); [contradiction|discriminate].
    + destruct (N.eqb_spec d e) as [->|]; [|discriminate].
      destruct (IH x c y r Hp Hs) as [x2 [-> ->]]. now exists x2.
Qed.

(** The same when the pattern begins with the character [c] itself and
    [x] is not empty. *)
Lemma strip_within_first (d : char) (p x : jsstring) (c : char)
    (y r : jsstring) :
  x <> [] -> without c p = true -> strip (d :: p) (x ++ c :: y) = Some r ->
  exists x2, x = (d :: p) ++ x2 /\ r = x2 ++ c :: y.
Proof.
  intros Hx Hp Hs. destruct x as [|e x]; [contradiction|].
  simpl in Hs. unfold char_eqb in Hs.
  destruct (N.eqb_spec d e) as [->|]; [|discriminate].
  destruct (strip_within p x c y r Hp Hs) as [x2 [-> ->]]. now exists x2.
Qed.

Lemma span_stop (p : char -> bool) (x : jsstring) (c : char) (y : jsstring) :
  p c = false ->
  span p (x ++ c :: y) = (fst (span p x), snd (span p x) ++ c :: y).
Proof.
  intros Hc. induction x as [|e x IH]; simpl.
  - now rewrite Hc.
  - destruct (p e); [|reflexivity]. rewrite IH. now destruct (span p x).
Qed.

Lemma dropWhile_stop (p : char -> bool) (x : jsstring) (c : char)
    (y : jsstring) :
  p c = false -> dropWhile p (x ++ c :: y) = dropWhile p x ++ c :: y.
Proof. intros Hc. unfold dropWhile. now rewrite span_stop. Qed.

Lemma span_all (p : char -> bool) (x : jsstring) :
  forallb p x = true -> span p x = (x, []).
Proof.
  intros Hx. rewrite <- (app_nil_r x) at 1. now apply span_app.
Qed.

Lemma dropWhile_fixed_all (p : char -> bool) (x : jsstring) :
  forallb p x = true -> dropWhile p x = [].
Proof. intros Hx. unfold dropWhile. now rewrite span_all. Qed.

(** Either every character of [x] satisfies [p], or [x] splits at the
    first one that does not. *)
Lemma first_failure (p : char -> bool) (x : jsstring) :
  forallb p x = true
  \/ exists a c b, x = a ++ c :: b /\ forallb p a = true /\ p c = false.
Proof.
  induction x as [|e x [IH|[a [c [b [-> [Ha Hc]]]]]]]; simpl.
  - now left.
  - destruct (p e) eqn:E; [now left|].
    right. now exists [], e, x.
  - destruct (p e) eqn:E.
    + right. exists (e :: a), c, b. simpl. now rewrite E, Ha.
    + right. now exists [], e, (a ++ c :: b).
Qed.

(** The test on the body of a gradient: it closes with a parenthesis and
    holds one character more. *)
Definition closes (body : jsstring) : bool :=
  match rev body with
  | close :: _ :: _ => char_eqb close (ch ")")
  | _ => false
  end.

Definition semicolon : char := 59%N.

Definition bodyTest (s2 : jsstring) : bool :=
  let '(body, s3) := span (notChar (ch ";")) s2 in
  match strip (js ";") s3 with Some _ => closes body | None => false end.

Lemma gradientAt_test (name s : jsstring) :
  gradientAt name s <> None
  <-> exists s1 s2,
        strip (js "background:") s = Some s1
        /\ strip (name ++ js "-gradient(") (dropWhile isSpace s1) = Some s2
        /\ bodyTest s2 = true.
Proof.
  unfold gradientAt, bodyTest, closes.
  destruct (strip (js "background:") s) as [s1|];
    [|split; [intros E; now elim E|intros [? [? [E _]]]; discriminate]].
  destruct (strip (name ++ js "-gradient(") (dropWhile isSpace s1)) as [s2|]
    eqn:E0;
    [|split; [intros E; now elim E
             |intros [s1' [s2' [E1 [E2 _]]]]; injection E1 as <-; congruence]].
  split.
  - intros E. exists s1, s2. split; [reflexivity|]. split; [exact E0|].
    destruct (span (notChar (ch ";")) s2) as [body s3].
    destruct (strip (js ";") s3); [|now elim E].
    destruct (rev body) as [|close [|? ?]]; try now elim E.
    destruct (char_eqb close (ch ")")); [reflexivity|now elim E].
  - intros [s1' [s2' [E1 [E2 E3]]]]. injection E1 as <-.
    rewrite E0 in E2. injection E2 as <-.
    destruct (span (notChar (ch ";")) s2) as [body s3].
    destruct (strip (js ";") s3); [|discriminate].
    destruct (rev body) as [|close [|? ?]]; try discriminate.
    rewrite E3. discriminate.
Qed.

Lemma closes_app (u g : jsstring) :
  closes g = true -> closes (u ++ g) = true.
Proof.
  unfold closes. rewrite rev_app_distr.
  destruct (rev g) as [|close [|d r]]; try discriminate. now simpl.
Qed.

Lemma closes_app_inv (u g : jsstring) (b : char) :
  closes (u ++ b :: g) = true -> closes (b :: g) = true \/ g = [].
Proof.
  unfold closes. rewrite rev_app_distr.
  destruct g as [|c g]; [now right|]. left.
  simpl in *. destruct (rev g ++ [c]) as [|close r] eqn:E.
  - destruct (rev g); discriminate.
  - simpl in *. destruct (r ++ [b]) as [|d r'] eqn:E2;
      [destruct r; discriminate|exact H].
Qed.

Lemma closes_last (u g : jsstring) (b : char) :
  closes (u ++ b :: g) = true ->
  exists g1, b :: g = g1 ++ [ch ")"].
Proof.
  unfold closes. rewrite rev_app_distr. intros Hc.
  destruct (exists_last (l := b :: g) ltac:(discriminate)) as [g1 [z E]].
  rewrite E in *. rewrite rev_app_distr in Hc. simpl in Hc.
  destruct (rev g1 ++ rev u) as [|? ?]; [discriminate|].
  unfold char_eqb in Hc. apply N.eqb_eq in Hc. subst z. now exists g1.
Qed.

Lemma closes_snoc (g1 : jsstring) : g1 <> [] -> closes (g1 ++ [ch ")"]) = true.
Proof.
  intros Hne. unfold closes. rewrite rev_app_distr. simpl.
  destruct (rev g1) eqn:E; [|reflexivity].
  apply (f_equal (@rev _)) in E. rewrite rev_involutive in E. contradiction.
Qed.

Lemma bodyTest_all (x g rest : jsstring) :
  without semicolon (x ++ g) = true ->
  bodyTest (x ++ g ++ semicolon :: rest) = closes (x ++ g).
Proof.
  intros Hx. unfold bodyTest. rewrite app_assoc.
  rewrite (span_stop (notChar (ch ";")) (x ++ g) semicolon rest eq_refl).
  rewrite (span_all (notChar (ch ";")) (x ++ g) Hx). reflexivity.
Qed.

Lemma bodyTest_cut (a : jsstring) (c : char) (b z z' : jsstring) :
  notChar (ch ";") c = false -> without semicolon a = true ->
  bodyTest ((a ++ c :: b) ++ z) = bodyTest ((a ++ c :: b) ++ z').
Proof.
  intros Hc Ha. unfold bodyTest. rewrite <- !app_assoc. cbn [app].
  rewrite !(span_stop (notChar (ch ";")) a c _ Hc).
  rewrite (span_all (notChar (ch ";")) a Ha). cbn [fst snd app].
  unfold notChar, char_eqb in Hc. apply negb_false_iff, N.eqb_eq in Hc.
  subst c. reflexivity.
Qed.

(** What a gradient pattern needs to know of a match and its replacement:
    both begin with the letter b and end with their only semicolon, and
    the match closes with a parenthesis whenever the replacement does. *)
Definition letterB : char := 98%N.

Definition sameShape (matched replacement : jsstring) : Prop :=
  exists M1 R0,
    matched = letterB :: M1
    /\ replacement = letterB :: R0 ++ [semicolon]
    /\ without semicolon R0 = true
    /\ (closes (letterB :: R0) = true ->
        exists M0, M1 = M0 ++ [semicolon]
                   /\ without semicolon M0 = true
                   /\ closes (letterB :: M0) = true).

Lemma gradient_local (name : jsstring) :
  without letterB (name ++ js "-gradient(") = true ->
  forall x matched replacement rest o,
    x <> [] -> sameShape matched replacement ->
    gradientAt name (x ++ replacement ++ o) <> None ->
    gradientAt name (x ++ matched ++ rest) <> None.
Proof.
  intros Hname x matched replacement rest o Hx
    [M1 [R0 [-> [-> [HR Hclose]]]]] Hr.
  apply gradientAt_test in Hr as [s1 [s2 [E1 [E2 E3]]]].
  apply gradientAt_test.
  cbn [app] in E1. rewrite <- app_assoc in E1. cbn [app] in E1.
  change (js "background:") with (letterB :: js "ackground:") in E1.
  destruct (strip_within_first letterB (js "ackground:") x letterB _ _ Hx
              eq_refl E1) as [x2 [-> ->]].
  rewrite (dropWhile_stop isSpace x2 letterB _ eq_refl) in E2.
  destruct (strip_within _ _ _ _ _ Hname E2) as [x4 [Ex4 ->]].
  exists (x2 ++ (letterB :: M1) ++ rest), (x4 ++ (letterB :: M1) ++ rest).
  split; [|split].
  - change (letterB :: js "ackground:") with (js "background:").
    rewrite <- app_assoc. apply strip_app.
  - cbn [app]. rewrite (dropWhile_stop isSpace x2 letterB _ eq_refl).
    rewrite Ex4, <- app_assoc. apply strip_app.
  - destruct (first_failure (notChar (ch ";")) x4)
      as [Hall|[a [c [b [-> [Ha Hc]]]]]].
    + change (x4 ++ letterB :: R0 ++ semicolon :: o)
        with (x4 ++ (letterB :: R0) ++ semicolon :: o) in E3.
      rewrite bodyTest_all in E3
        by (unfold without; rewrite forallb_app; cbn [forallb];
            apply andb_true_iff; split; [exact Hall|exact HR]).
      destruct (closes_last x4 R0 letterB E3) as [g1 Eg].
      destruct Hclose as [M0 [-> [HM HcM]]].
      { rewrite Eg. apply closes_snoc. intros ->. discriminate. }
      cbn [app]. rewrite <- app_assoc. cbn [app].
      change (x4 ++ letterB :: M0 ++ semicolon :: rest)
        with (x4 ++ (letterB :: M0) ++ semicolon :: rest).
      rewrite bodyTest_all
        by (unfold without; rewrite forallb_app; cbn [forallb];
            apply andb_true_iff; split; [exact Hall|exact HM]).
      now apply closes_app.
    + rewrite <- E3. apply bodyTest_cut; assumption.
Qed.

(** What the pattern of background images needs to know of one of its own
    matches: it begins with the letter b and its only closing parenthesis
    is followed by the semicolon that ends it. *)
Definition closeParen : char := 41%N.

Definition imageShape (matched replacement : jsstring) : Prop :=
  exists Mp R1,
    matched = letterB :: Mp ++ [closeParen; semicolon]
    /\ without closeParen Mp = true
    /\ replacement = letterB :: R1.

Lemma backgroundImageAt_test (s : jsstring) :
  backgroundImageAt s <> None
  <-> exists s1 s2,
        strip (js "background-image:") s = Some s1
        /\ strip (js "url(") (dropWhile isSpace s1) = Some s2
        /\ strip (js ");") (dropWhile (notChar (ch ")")) s2) <> None.
Proof.
  unfold backgroundImageAt.
  destruct (strip (js "background-image:") s) as [s1|];
    [|split; [intros E; now elim E|intros [? [? [E _]]]; discriminate]].
  destruct (strip (js "url(") (dropWhile isSpace s1)) as [s2|] eqn:E0;
    [|split; [intros E; now elim E
             |intros [s1' [s2' [E1 [E2 _]]]]; injection E1 as <-; congruence]].
  split.
  - intros E. now exists s1, s2.
  - intros [s1' [s2' [E1 [E2 E3]]]]. injection E1 as <-.
    rewrite E0 in E2. now injection E2 as <-.
Qed.

Lemma image_local :
  forall x matched replacement rest o,
    x <> [] -> imageShape matched replacement ->
    backgroundImageAt (x ++ replacement ++ o) <> None ->
    backgroundImageAt (x ++ matched ++ rest) <> None.
Proof.
  intros x matched replacement rest o Hx [Mp [R1 [-> [HM ->]]]] Hr.
  apply backgroundImageAt_test in Hr as [s1 [s2 [E1 [E2 E3]]]].
  apply backgroundImageAt_test.
  cbn [app] in E1.
  change (js "background-image:") with (letterB :: js "ackground-image:") in E1.
  destruct (strip_within_first letterB (js "ackground-image:") x letterB _ _
              Hx eq_refl E1) as [x2 [-> ->]].
  rewrite (dropWhile_stop isSpace x2 letterB _ eq_refl) in E2.
  destruct (strip_within (js "url(") _ letterB _ _ eq_refl E2)
    as [x4 [Ex4 ->]].
  exists (x2 ++ (letterB :: Mp ++ [closeParen; semicolon]) ++ rest),
    (x4 ++ (letterB :: Mp ++ [closeParen; semicolon]) ++ rest).
  split; [|split].
  - change (letterB :: js "ackground-image:") with (js "background-image:").
    rewrite <- app_assoc. apply strip_app.
  - cbn [app]. rewrite (dropWhile_stop isSpace x2 letterB _ eq_refl).
    rewrite Ex4, <- app_assoc. apply strip_app.
  - destruct (first_failure (notChar (ch ")")) x4)
      as [Hall|[a [c [b [-> [Ha Hc]]]]]].
    + cbn [app]. rewrite <- app_assoc. cbn [app].
      change (x4 ++ letterB :: Mp ++ closeParen :: semicolon :: rest)
        with (x4 ++ (letterB :: Mp) ++ closeParen :: semicolon :: rest).
      rewrite app_assoc.
      rewrite (dropWhile_app (notChar (ch ")")) (x4 ++ letterB :: Mp));
        [discriminate| |reflexivity].
      rewrite forallb_app. cbn [forallb].
      apply andb_true_iff; split; [exact Hall|exact HM].
    + assert (Ec : c = closeParen).
      { unfold notChar, char_eqb in Hc.
        now apply negb_false_iff, N.eqb_eq in Hc. }
      subst c. rewrite <- app_assoc in E3 |- *. cbn [app] in E3 |- *.
      rewrite (dropWhile_stop (notChar (ch ")")) a closeParen _ eq_refl)
        in E3.
      rewrite (dropWhile_stop (notChar (ch ")")) a closeParen _ eq_refl).
      rewrite (dropWhile_fixed_all _ a Ha) in E3 |- *.
      cbn [app] in E3 |- *.
      destruct b as [|d b].
      * exfalso. apply E3. reflexivity.
      * change (js ");") with [closeParen; semicolon] in E3 |- *.
        cbn [app strip] in E3 |- *. unfold char_eqb in E3 |- *.
        rewrite N.eqb_refl in E3 |- *.
        destruct (semicolon =? d)%N; [discriminate|now elim E3].
Qed.

(** *** The colour put in the place of a gradient *)

Lemma search_tail {A} (m : jsstring -> option A) (s : jsstring) (r : A) :
  search m s = Some r -> exists t, tailOf t s /\ m t = Some r.
Proof.
  induction s as [|c s IH]; simpl.
  - destruct (m []) eqn:E; [|discriminate]. intros H; injection H as ->.
    exists []. split; [apply tailOf_refl|exact E].
  - destruct (m (c :: s)) eqn:E.
    + intros H; injection H as ->. exists (c :: s).
      split; [apply tailOf_refl|exact E].
    + intros H. destruct (IH H) as [t [Ht Hm]]. exists t.
      split; [now apply tailOf_cons|exact Hm].
Qed.

Lemma search_found {A} (m : jsstring -> option A) (t s : jsstring) (r : A) :
  tailOf t s -> m t = Some r -> search m s <> None.
Proof.
  intros [before ->] Hm. induction before as [|c before IH]; simpl.
  - destruct t; simpl; now rewrite Hm.
  - destruct (m (c :: before ++ t)); [discriminate|exact IH].
Qed.

(** What matters of the colour: it holds no semicolon, does not begin with
    white space, and does not begin like a gradient. *)
Definition plainColour (C : jsstring) : Prop :=
  without semicolon C = true
  /\ (exists c C', C = c :: C' /\ isSpace c = false)
  /\ (forall z, strip (js "linear-gradient(") (C ++ z) = None)
  /\ (forall z, strip (js "radial-gradient(") (C ++ z) = None).

Lemma firstn_app_length (a b : jsstring) :
  firstn (length (a ++ b) - length b) (a ++ b) = a.
Proof.
  rewrite length_app. replace (length a + length b - length b)%nat
    with (length a + 0)%nat by lia.
  rewrite firstn_app_2. simpl. apply app_nil_r.
Qed.

Lemma In_firstn (c : char) (n : nat) (l : jsstring) :
  In c (firstn n l) -> In c l.
Proof.
  intros Hc. rewrite <- (firstn_skipn n l). apply in_or_app. now left.
Qed.

Lemma hexColorAt_plain (t h : jsstring) :
  hexColorAt t = Some h -> plainColour h.
Proof.
  unfold hexColorAt. destruct (strip (js "#") t) as [s1|]; [|discriminate].
  set (digits := firstn 6 (fst (span isHexDigit s1))).
  assert (Hd : forall c, In c digits -> isHexDigit c = true).
  { intros c Hc. apply In_firstn in Hc.
    destruct (span_split isHexDigit s1) as [_ Hall].
    rewrite forallb_forall in Hall. now apply Hall. }
  clearbody digits.
  destruct (3 <=? length digits)%nat; [|discriminate].
  intros E; injection E as <-. repeat split.
  - unfold without. cbn [forallb]. apply andb_true_iff. split; [reflexivity|].
    apply forallb_forall. intros c Hc. specialize (Hd c Hc).
    unfold isHexDigit, isDigit in Hd. unfold semicolon. char_cases.
  - eexists; eexists. split; reflexivity.
Qed.

Lemma optChar_cases (c : char) (s : jsstring) :
  optChar c s = s \/ s = c :: optChar c s.
Proof.
  destruct s as [|x s]; [now left|]. simpl. unfold char_eqb.
  destruct (N.eqb_spec x c) as [->|]; [now right|now left].
Qed.

(** The shape of an [rgb(...)] colour found in a text. *)
Lemma rgbColorAt_shape (t c : jsstring) :
  rgbColorAt t = Some c ->
  exists inner rest,
    (c = js "rgb(" ++ inner ++ [closeParen]
     \/ c = js "rgba(" ++ inner ++ [closeParen])
    /\ t = c ++ rest /\ without closeParen inner = true.
Proof.
  unfold rgbColorAt.
  destruct (strip (js "rgb") t) as [s1|] eqn:E1; [|discriminate].
  destruct (strip (js "(") (optChar (ch "a") s1)) as [s2|] eqn:E2;
    [|discriminate].
  destruct (span (notChar (ch ")")) s2) as [inner s3] eqn:E3.
  destruct inner as [|i inner]; [discriminate|].
  destruct (strip (js ")") s3) as [rest|] eqn:E4; [|discriminate].
  intros E; injection E as <-.
  apply strip_Some in E1, E2, E4.
  destruct (span_split (notChar (ch ")")) s2) as [Es2 Hin].
  rewrite E3 in Es2, Hin. cbn [fst snd] in Es2, Hin.
  exists (i :: inner), rest.
  assert (Ha : (if str_eqb s1 (optChar (ch "a") s1) then [] else [ch "a"])
               = [] \/ (if str_eqb s1 (optChar (ch "a") s1) then []
                         else [ch "a"]) = [ch "a"])
    by (destruct (str_eqb s1 (optChar (ch "a") s1)); auto).
  assert (Et : t = (js "rgb" ++ (if str_eqb s1 (optChar (ch "a") s1)
                                 then [] else [ch "a"])
                    ++ js "(" ++ (i :: inner) ++ [closeParen]) ++ rest).
  { rewrite E1. destruct (optChar_cases (ch "a") s1) as [Ho|Ho].
    - rewrite Ho at 1. rewrite str_eqb_refl.
      rewrite Ho in E2 at 1. rewrite E2, Es2, E4.
      repeat rewrite <- app_assoc. reflexivity.
    - destruct (str_eqb s1 (optChar (ch "a") s1)) eqn:Eq.
      + apply str_eqb_spec in Eq. rewrite Eq in Ho at 1.
        apply (f_equal (@length _)) in Ho. simpl in Ho. lia.
      + rewrite Ho at 1. rewrite E2, Es2, E4.
        repeat rewrite <- app_assoc. reflexivity. }
  clear E1 E2 E3 E4 Es2. revert Ha Et.
  generalize (if str_eqb s1 (optChar (ch "a") s1) then [] else [ch "a"]).
  intros a Ha Et. subst t. rewrite firstn_app_length.
  split; [|split; [reflexivity|exact Hin]].
  destruct Ha as [-> | ->]; [now left|now right].
Qed.

Lemma rgbColorAt_plain (M0 t c : jsstring) :
  without semicolon M0 = true -> tailOf t (M0 ++ [semicolon]) ->
  rgbColorAt t = Some c -> plainColour c.
Proof.
  intros HM [before Ht] Hc.
  destruct (rgbColorAt_shape t c Hc) as [inner [rest [Hshape [Et Hin]]]].
  assert (Hsemi : without semicolon c = true).
  { assert (Hlast : exists c', c = c' ++ [closeParen]).
    { destruct Hshape as [-> | ->];
        [exists (js "rgb(" ++ inner)|exists (js "rgba(" ++ inner)];
        now rewrite <- app_assoc. }
    destruct Hlast as [c' Ec'].
    destruct (exists_last (l := rest)) as [rest' [z Er]].
    { intros ->. rewrite Et, app_nil_r, Ec', app_assoc in Ht.
      apply app_inj_tail in Ht as [_ Hz]. discriminate. }
    rewrite Et, Er in Ht. rewrite !app_assoc in Ht.
    apply app_inj_tail in Ht as [-> _].
    unfold without in *. rewrite !forallb_app in HM.
    apply andb_true_iff in HM as [HM _].
    now apply andb_true_iff in HM as [_ HM]. }
  split; [exact Hsemi|].
  destruct Hshape as [-> | ->]; repeat split;
    try (eexists; eexists; split; reflexivity); intros z; reflexivity.
Qed.

Lemma colorNameAt_lower (t nm : jsstring) :
  colorNameAt t = Some nm -> In (asciiLower nm) colorNames.
Proof.
  unfold colorNameAt. generalize colorNames.
  induction l as [|name names IH]; [discriminate|].
  destruct (str_eqb (asciiLower (firstn (length name) t)) name
            && match skipn (length name) t with
               | [] => true
               | c :: _ => negb (isWord c)
               end) eqn:E.
  - intros Hn; injection Hn as <-.
    apply andb_true_iff in E as [E _]. apply str_eqb_spec in E.
    left. now symmetry.
  - intros Hn. right. now apply IH.
Qed.

Lemma searchColorName_found (s : jsstring) :
  forall prev nm, searchColorName prev s = Some nm ->
                  exists t, colorNameAt t = Some nm.
Proof.
  induction s as [|c s IH]; intros prev nm; [discriminate|].
  cbn [searchColorName].
  destruct (if prev then None else colorNameAt (c :: s)) as [found|] eqn:E.
  - intros Hn; injection Hn as <-. destruct prev; [discriminate|].
    now exists (c :: s).
  - apply IH.
Qed.

Definition lowerChar (c : char) : char :=
  if ((65 <=? c) && (c <=? 90))%N then (c + 32)%N else c.

Lemma lowerChar_letter (c : char) :
  (97 <= lowerChar c <= 122)%N ->
  c <> semicolon /\ isSpace c = false.
Proof.
  unfold lowerChar, semicolon, isSpace. intros Hc. split; char_cases.
Qed.

Lemma colourName_plain (nm : jsstring) :
  In (asciiLower nm) colorNames -> plainColour nm.
Proof.
  intros Hin.
  assert (Hletters : forall c, In c nm -> (97 <= lowerChar c <= 122)%N).
  { intros c Hc. apply (in_map lowerChar) in Hc.
    change (map lowerChar nm) with (asciiLower nm) in Hc.
    revert Hc. generalize (lowerChar c). intros l Hl.
    unfold colorNames in Hin. cbn [map In] in Hin.
    repeat (destruct Hin as [Hin|Hin];
            [rewrite <- Hin in Hl; vm_compute in Hl;
             repeat (destruct Hl as [<-|Hl]; [lia|]); contradiction|]).
    contradiction. }
  assert (Hhead : exists c1 c2 rest, nm = c1 :: c2 :: rest).
  { unfold colorNames in Hin. cbn [map In] in Hin.
    destruct nm as [|c1 [|c2 rest]]; [| |now exists c1, c2, rest];
      exfalso;
      repeat (destruct Hin as [Hin|Hin]; [discriminate Hin|]);
      contradiction. }
  destruct Hhead as [c1 [c2 [rest ->]]].
  repeat split.
  - unfold without. apply forallb_forall. intros c Hc.
    destruct (lowerChar_letter c (Hletters c Hc)) as [Hs _].
    apply negb_true_iff, N.eqb_neq. exact Hs.
  - exists c1, (c2 :: rest). split; [reflexivity|].
    apply (lowerChar_letter c1). apply Hletters. now left.
  - intros z. change (js "linear-gradient(") with (108%N :: js "inear-gradient(").
    cbn [app strip]. unfold char_eqb.
    destruct (N.eqb_spec 108 c1) as [<-|]; [|reflexivity].
    exfalso. unfold colorNames in Hin. cbn [map In asciiLower] in Hin.
    repeat (destruct Hin as [Hin|Hin]; [discriminate Hin|]). contradiction.
  - intros z.
    change (js "radial-gradient(")
      with (114%N :: 97%N :: js "dial-gradient(").
    cbn [app strip]. unfold char_eqb.
    destruct (N.eqb_spec 114 c1) as [<-|]; [|reflexivity].
    destruct (N.eqb_spec 97 c2) as [<-|]; [|reflexivity].
    exfalso. unfold colorNames in Hin. cbn [map In asciiLower] in Hin.
    repeat (destruct Hin as [Hin|Hin]; [discriminate Hin|]). contradiction.
Qed.

(** The colour extracted from a match is plain. *)
Lemma extractFirstColor_plain (M0 : jsstring) :
  without semicolon M0 = true ->
  plainColour (extractFirstColor (M0 ++ [semicolon])).
Proof.
  intros HM. unfold extractFirstColor.
  destruct (search hexColorAt (M0 ++ [semicolon])) as [h|] eqn:Eh.
  { destruct (search_tail _ _ _ Eh) as [t [_ Ht]].
    now apply (hexColorAt_plain t). }
  destruct (search rgbColorAt (M0 ++ [semicolon])) as [c|] eqn:Er.
  { destruct (search_tail _ _ _ Er) as [t [Ht Hc]].
    now apply (rgbColorAt_plain M0 t). }
  destruct (searchColorName false (M0 ++ [semicolon])) as [nm|] eqn:En.
  { destruct (searchColorName_found _ _ _ En) as [t Ht].
    apply colourName_plain. now apply (colorNameAt_lower t). }
  repeat split; try (eexists; eexists; split; reflexivity);
    intros z; reflexivity.
Qed.

Lemma without_app (c : char) (a b : jsstring) :
  without c (a ++ b) = without c a && without c b.
Proof. apply forallb_app. Qed.

Lemma without_spaces (x : jsstring) :
  forallb isSpace x = true -> without semicolon x = true.
Proof.
  intros Hx. unfold without. apply forallb_forall. intros c Hc.
  apply (proj1 (forallb_forall _ _) Hx) in Hc.
  apply negb_true_iff, N.eqb_neq. intros ->. discriminate.
Qed.

(** A match of a gradient pattern: it begins with the letter b, ends with
    its only semicolon and closes with a parenthesis before it. *)
Lemma gradientAt_shape (name t matched rest : jsstring) :
  without semicolon name = true ->
  gradientAt name t = Some (matched, rest) ->
  t = matched ++ rest
  /\ exists M0, matched = letterB :: M0 ++ [semicolon]
                /\ without semicolon M0 = true
                /\ closes (letterB :: M0) = true.
Proof.
  intros Hname. unfold gradientAt.
  destruct (strip (js "background:") t) as [s1|] eqn:E1; [|discriminate].
  destruct (strip (name ++ js "-gradient(") (dropWhile isSpace s1)) as [s2|]
    eqn:E2; [|discriminate].
  destruct (span_split (notChar (ch ";")) s2) as [Es2 Hbody].
  destruct (span (notChar (ch ";")) s2) as [body s3]. cbn [fst snd] in *.
  destruct (strip (js ";") s3) as [rest'|] eqn:E3; [|discriminate].
  assert (Hcl : closes body = true -> 
                Some (firstn (length t - length rest') t, rest')
                = Some (matched, rest) ->
                t = matched ++ rest
  /\ exists M0, matched = letterB :: M0 ++ [semicolon]
                /\ without semicolon M0 = true
                /\ closes (letterB :: M0) = true).
  { intros Hc Hm. injection Hm as <- <-.
    apply strip_Some in E1, E2, E3.
    destruct (span_split isSpace s1) as [Es1 Hsp].
    fold (dropWhile isSpace s1) in Es1. rewrite E2 in Es1.
    set (sp := fst (span isSpace s1)) in *. clearbody sp.
    subst s3 s2 s1.
    assert (Et : t = (letterB :: (js "ackground:" ++ sp
                                  ++ (name ++ js "-gradient(") ++ body)
                      ++ [semicolon]) ++ rest').
    { rewrite E1. change (js "background:") with (letterB :: js "ackground:").
      cbn [app]. repeat rewrite <- app_assoc. reflexivity. }
    clear E1 E2. subst t. rewrite firstn_app_length.
    split; [reflexivity|]. eexists. split; [reflexivity|]. split.
    - assert (Hb : without semicolon body = true) by exact Hbody.
      rewrite !without_app, (without_spaces sp Hsp), Hname, Hb.
      reflexivity.
    - change (letterB :: js "ackground:" ++ sp
                ++ (name ++ js "-gradient(") ++ body)
        with ((letterB :: js "ackground:") ++ sp
                ++ (name ++ js "-gradient(") ++ body).
      rewrite !app_assoc. apply closes_app. exact Hc. }
  unfold closes in Hcl.
  destruct (rev body) as [|close [|? ?]]; try discriminate.
  destruct (char_eqb close (ch ")")); [|discriminate].
  now apply Hcl.
Qed.

Lemma without_not_space (c : char) (x : jsstring) :
  isSpace c = false -> forallb isSpace x = true -> without c x = true.
Proof.
  intros Hc Hx. unfold without. apply forallb_forall. intros d Hd.
  apply (proj1 (forallb_forall _ _) Hx) in Hd.
  apply negb_true_iff, N.eqb_neq. intros ->. congruence.
Qed.

Lemma includes_found (before p z : jsstring) :
  includes (before ++ p ++ z) p = true.
Proof.
  unfold includes.
  destruct (search (strip p) (before ++ p ++ z)) eqn:E; [reflexivity|].
  exfalso. apply (search_found (strip p) (p ++ z) (before ++ p ++ z) z).
  - now exists before.
  - apply strip_app.
  - exact E.
Qed.

(** *** The positions of a text *)

Fixpoint tails (s : jsstring) : list jsstring :=
  s :: match s with [] => [] | _ :: t => tails t end.

Lemma tails_tailOf (t s : jsstring) : tailOf t s -> In t (tails s).
Proof.
  intros [before ->]. induction before as [|c before IH].
  - destruct t; now left.
  - cbn [app tails]. right. exact IH.
Qed.

(** No colour that the pass for [name] gradients extracts from [s] holds
    the text [background]. *)
Definition plainExtraction (name s : jsstring) : bool :=
  forallb (fun t =>
             match gradientAt name t with
             | Some (matched, _) =>
                 negb (includes (extractFirstColor matched) (js "background"))
             | None => true
             end) (tails s).

(** What is known of a match of a gradient and of the text put in its
    place. *)
Definition gradientGood (matched replacement : jsstring) : Prop :=
  sameShape matched replacement
  /\ exists C, replacement = js "background: " ++ C ++ [semicolon]
               /\ plainColour C
               /\ includes C (js "background") = false.

Lemma gradientReplacer_None (name t : jsstring) :
  gradientReplacer name t = None <-> gradientAt name t = None.
Proof.
  unfold gradientReplacer.
  destruct (gradientAt name t) as [[matched rest]|]; split;
    try discriminate; reflexivity.
Qed.

Lemma gradient_scanned A (P' : jsstring -> option A) (name s : jsstring) :
  without semicolon name = true ->
  plainExtraction name s = true ->
  (forall t, tailOf t s -> gradientAt name t = None -> P' t = None) ->
  scanned A P' (gradientReplacer name) gradientGood s.
Proof.
  intros Hname HK Hnone t Ht. split.
  - intros Hm. apply Hnone; [exact Ht|]. now apply gradientReplacer_None.
  - intros replacement rest Hm.
    pose proof (proj1 (forallb_forall _ _) HK t (tails_tailOf t s Ht)) as Hk.
    unfold gradientReplacer in Hm. cbv beta in Hk.
    destruct (gradientAt name t) as [[matched rest']|] eqn:E; [|discriminate].
    injection Hm as <- <-.
    destruct (gradientAt_shape name t matched rest' Hname E)
      as [Et [M0 [-> [HM Hc]]]].
    apply negb_true_iff in Hk.
    assert (Hplain : plainColour
                       (extractFirstColor (letterB :: M0 ++ [semicolon]))).
    { apply (extractFirstColor_plain (letterB :: M0)).
      cbn [without forallb]. exact HM. }
    exists (letterB :: M0 ++ [semicolon]).
    split; [discriminate|]. split; [exact Et|]. split.
    + exists (M0 ++ [semicolon]),
        (js "ackground: " ++ extractFirstColor (letterB :: M0 ++ [semicolon])).
      split; [reflexivity|]. split.
      { change (js "background: ") with (letterB :: js "ackground: ").
        cbn [app]. now rewrite <- app_assoc. }
      split.
      { rewrite without_app. apply andb_true_iff. split; [reflexivity|].
        apply Hplain. }
      intros _. exists M0. now repeat split.
    + exists (extractFirstColor (letterB :: M0 ++ [semicolon])).
      split; [reflexivity|]. split; [exact Hplain|exact Hk].
Qed.

Lemma gradientAt_head (name : jsstring) (c : char) (w : jsstring) :
  c <> letterB -> gradientAt name (c :: w) = None.
Proof.
  intros Hc. unfold gradientAt.
  change (js "background:") with (letterB :: js "ackground:").
  cbn [strip]. unfold char_eqb.
  destruct (N.eqb_spec letterB c); [congruence|reflexivity].
Qed.

(** No gradient begins inside the text put in the place of a gradient. *)
Lemma gradient_inside (name : jsstring) :
  name = js "linear" \/ name = js "radial" ->
  forall matched replacement v o,
    gradientGood matched replacement -> v <> [] -> tailOf v replacement ->
    gradientAt name (v ++ o) = None.
Proof.
  intros Hname matched replacement v o
    [_ [C [-> [[HC [[c [C' [EC Hc]]] [Hlin Hrad]]] HK]]]] Hv Hv'.
  apply tailOf_app_inv in Hv' as [Hv'|[w [Hw [Hw' ->]]]].
  - destruct Hv' as [before Eb].
    destruct (exists_last Hv) as [v' [a ->]].
    rewrite app_assoc in Eb. apply app_inj_tail in Eb as [EC' <-].
    destruct (gradientAt name ((v' ++ [semicolon]) ++ o)) eqn:E;
      [|reflexivity].
    exfalso.
    assert (E' : gradientAt name ((v' ++ [semicolon]) ++ o) <> None)
      by congruence.
    apply gradientAt_test in E' as [s1 [s2 [E1 _]]].
    rewrite <- app_assoc in E1. cbn [app] in E1.
    destruct (strip_within (js "background:") v' semicolon o s1 eq_refl E1)
      as [x2 [-> _]].
    rewrite EC' in HK.
    change (js "background:") with (js "background" ++ js ":") in HK.
    rewrite <- app_assoc in HK. rewrite includes_found in HK. discriminate.
  - apply tails_tailOf in Hw'. vm_compute in Hw'.
    destruct Hw' as [<-|Hw'].
    + unfold gradientAt.
      change (98 :: 97 :: 99 :: 107 :: 103 :: 114 :: 111 :: 117 :: 110
                 :: 100 :: 58 :: [32])%N
        with (js "background:" ++ [32%N]).
      repeat rewrite <- app_assoc. rewrite strip_app.
      rewrite (dropWhile_app isSpace [32%N]);
        [|reflexivity|rewrite EC; exact Hc].
      replace (strip (name ++ js "-gradient(") (C ++ [semicolon] ++ o))
        with (@None jsstring); [reflexivity|].
      symmetry. destruct Hname as [->| ->]; [apply Hlin|apply Hrad].
    + repeat (destruct Hw' as [<-|Hw'];
              [apply gradientAt_head; discriminate|]).
      destruct Hw' as [<-|[]]. now elim Hw.
Qed.

(** *** The pass that removes the background images *)

Definition imageReplacer (s : jsstring) : option (jsstring * jsstring) :=
  match backgroundImageAt s with
  | Some rest => Some (js "background-color: #f5f5f5;", rest)
  | None => None
  end.

Definition imageGood (matched replacement : jsstring) : Prop :=
  imageShape matched replacement
  /\ replacement = js "background-color: #f5f5f5;".

Lemma imageGood_sameShape (matched replacement : jsstring) :
  imageGood matched replacement -> sameShape matched replacement.
Proof.
  intros [[Mp [R1 [-> [_ _]]]] ->].
  exists (Mp ++ [closeParen; semicolon]), (js "ackground-color: #f5f5f5").
  repeat split. intros H. vm_compute in H. discriminate H.
Qed.

Lemma backgroundImageAt_shape (t rest : jsstring) :
  backgroundImageAt t = Some rest ->
  exists Mp, t = (letterB :: Mp ++ [closeParen; semicolon]) ++ rest
             /\ without closeParen Mp = true.
Proof.
  unfold backgroundImageAt.
  destruct (strip (js "background-image:") t) as [s1|] eqn:E1;
    [|discriminate].
  destruct (strip (js "url(") (dropWhile isSpace s1)) as [s2|] eqn:E2;
    [|discriminate].
  intros E3. apply strip_Some in E1, E2, E3.
  destruct (span_split isSpace s1) as [Es1 Hsp].
  destruct (span_split (notChar (ch ")")) s2) as [Es2 Hin].
  fold (dropWhile isSpace s1) in Es1.
  fold (dropWhile (notChar (ch ")")) s2) in Es2.
  rewrite E2 in Es1. rewrite E3 in Es2.
  set (sp := fst (span isSpace s1)) in *.
  set (inner := fst (span (notChar (ch ")")) s2)) in *.
  clearbody sp inner. clear E2 E3.
  exists (js "ackground-image:" ++ sp ++ js "url(" ++ inner). split.
  - rewrite E1, Es1, Es2.
    change (js "background-image:") with (letterB :: js "ackground-image:").
    change (js ");") with [closeParen; semicolon].
    cbn [app]. repeat rewrite <- app_assoc. reflexivity.
  - assert (Hi : without closeParen inner = true) by exact Hin.
    rewrite !without_app, (without_not_space closeParen sp eq_refl Hsp), Hi.
    reflexivity.
Qed.

Lemma image_scanned A (P' : jsstring -> option A) (s : jsstring) :
  (forall t, tailOf t s -> backgroundImageAt t = None -> P' t = None) ->
  scanned A P' imageReplacer imageGood s.
Proof.
  intros Hnone t Ht. unfold imageReplacer. split.
  - intros Hm. apply Hnone; [exact Ht|].
    destruct (backgroundImageAt t); [discriminate|reflexivity].
  - intros replacement rest Hm.
    destruct (backgroundImageAt t) as [rest'|] eqn:E; [|discriminate].
    injection Hm as <- <-.
    destruct (backgroundImageAt_shape t rest' E) as [Mp [Et HMp]].
    exists (letterB :: Mp ++ [closeParen; semicolon]).
    split; [discriminate|]. split; [exact Et|]. split; [|reflexivity].
    exists Mp, (js "ackground-color: #f5f5f5;").
    split; [reflexivity|]. split; [exact HMp|]. vm_compute. reflexivity.
Qed.

(** Nothing that the fixer looks for begins inside the declaration put in
    the place of a background image. *)
Lemma image_inside A (P' : jsstring -> option A) :
  (forall o, forallb (fun v => match P' (v ++ o) with
                               | None => true
                               | Some _ => false
                               end)
                     (removelast (tails (js "background-color: #f5f5f5;")))
             = true) ->
  forall matched replacement v o,
    imageGood matched replacement -> v <> [] -> tailOf v replacement ->
    P' (v ++ o) = None.
Proof.
  intros Hall matched replacement v o [_ ->] Hv Hv'.
  apply tails_tailOf in Hv'.
  assert (Hin : In v (removelast (tails (js "background-color: #f5f5f5;")))).
  { vm_compute in Hv'. vm_compute.
    repeat (destruct Hv' as [Hv'|Hv']; [tauto|]).
    destruct Hv' as [<-|[]]. now elim Hv. }
  pose proof (proj1 (forallb_forall _ _) (Hall o) v Hin) as H.
  cbv beta in H. now destruct (P' (v ++ o)).
Qed.

Lemma image_inside_gradient (name : jsstring) :
  forall matched replacement v o,
    imageGood matched replacement -> v <> [] -> tailOf v replacement ->
    gradientAt name (v ++ o) = None.
Proof. apply image_inside. intros o. vm_compute. reflexivity. Qed.

Lemma image_inside_image :
  forall matched replacement v o,
    imageGood matched replacement -> v <> [] -> tailOf v replacement ->
    backgroundImageAt (v ++ o) = None.
Proof. apply image_inside. intros o. vm_compute. reflexivity. Qed.

(** *** Three passes *)

Lemma gradientReplacer_noMatch (name s : jsstring) :
  noMatch (gradientAt name) s -> noMatch (gradientReplacer name) s.
Proof. intros H t Ht. apply gradientReplacer_None. now apply H. Qed.

Lemma imageReplacer_noMatch (s : jsstring) :
  noMatch backgroundImageAt s -> noMatch imageReplacer s.
Proof.
  intros H t Ht. unfold imageReplacer. now rewrite (H t Ht).
Qed.

Lemma fixBackgroundImages_scan (s : jsstring) :
  fixBackgroundImages s = replaceAll imageReplacer s 0.
Proof. reflexivity. Qed.

Lemma gradient_pass A (P' : jsstring -> option A) (name s : jsstring) :
  without semicolon name = true ->
  (forall x matched replacement rest o,
      x <> [] -> sameShape matched replacement ->
      P' (x ++ replacement ++ o) <> None ->
      P' (x ++ matched ++ rest) <> None) ->
  (forall matched replacement v o,
      gradientGood matched replacement -> v <> [] -> tailOf v replacement ->
      P' (v ++ o) = None) ->
  plainExtraction name s = true ->
  (forall t, tailOf t s -> gradientAt name t = None -> P' t = None) ->
  noMatch P' (replaceAll (gradientReplacer name) s 0).
Proof.
  intros Hname Hlocal Hinside HK Hnone.
  apply (pass_noMatch A P' (gradientReplacer name) gradientGood) 
    with (n := length s).
  - intros x matched replacement rest o Hx [Hs _].
    now apply Hlocal.
  - exact Hinside.
  - apply Nat.le_refl.
  - now apply gradient_scanned.
Qed.

Lemma image_pass A (P' : jsstring -> option A) (s : jsstring) :
  (forall x matched replacement rest o,
      x <> [] -> imageGood matched replacement ->
      P' (x ++ replacement ++ o) <> None ->
      P' (x ++ matched ++ rest) <> None) ->
  (forall matched replacement v o,
      imageGood matched replacement -> v <> [] -> tailOf v replacement ->
      P' (v ++ o) = None) ->
  (forall t, tailOf t s -> backgroundImageAt t = None -> P' t = None) ->
  noMatch P' (fixBackgroundImages s).
Proof.
  intros Hlocal Hinside Hnone. rewrite fixBackgroundImages_scan.
  apply (pass_noMatch A P' imageReplacer imageGood Hlocal Hinside)
    with (n := length s).
  - apply Nat.le_refl.
  - now apply image_scanned.
Qed.

(** The hypothesis on a style sheet: no colour that the fixer extracts
    from one of its gradients holds the text [background]. *)
Definition extractsPlainColours (cssContent : jsstring) : bool :=
  plainExtraction (js "linear") cssContent
  && plainExtraction (js "radial") (fixLinearGradients cssContent).

(** Nothing is left to fix in a fixed style sheet. *)
Lemma fixCss_clean (cssContent : jsstring) :
  extractsPlainColours cssContent = true ->
  noMatch (gradientAt (js "linear")) (fixCss cssContent)
  /\ noMatch (gradientAt (js "radial")) (fixCss cssContent)
  /\ noMatch backgroundImageAt (fixCss cssContent).
Proof.
  intros HK. apply andb_true_iff in HK as [HK1 HK2].
  assert (L1 : noMatch (gradientAt (js "linear"))
                       (fixLinearGradients cssContent)).
  { apply gradient_pass; try assumption; try reflexivity.
    - apply gradient_local. reflexivity.
    - apply gradient_inside. now left.
    - intros t _ Ht. exact Ht. }
  assert (L2 : noMatch (gradientAt (js "linear"))
                 (fixRadialGradients (fixLinearGradients cssContent))).
  { apply gradient_pass; try assumption; try reflexivity.
    - apply gradient_local. reflexivity.
    - apply gradient_inside. now left.
    - intros t Ht _. now apply L1. }
  assert (R2 : noMatch (gradientAt (js "radial"))
                 (fixRadialGradients (fixLinearGradients cssContent))).
  { apply gradient_pass; try assumption; try reflexivity.
    - apply gradient_local. reflexivity.
    - apply gradient_inside. now right.
    - intros t _ Ht. exact Ht. }
  assert (G : forall name,
             name = js "linear" \/ name = js "radial" ->
             noMatch (gradientAt name)
                     (fixRadialGradients (fixLinearGradients cssContent)) ->
             noMatch (gradientAt name) (fixCss cssContent)).
  { intros name Hname Hn. apply image_pass.
    - intros x matched replacement rest o Hx Hg.
      apply gradient_local; [|exact Hx|now apply imageGood_sameShape].
      destruct Hname as [->| ->]; reflexivity.
    - apply image_inside_gradient.
    - intros t Ht _. now apply Hn. }
  split; [|split].
  - apply G; [now left|exact L2].
  - apply G; [now right|exact R2].
  - apply image_pass.
    + intros x matched replacement rest o Hx [Hg _]. now apply image_local.
    + apply image_inside_image.
    + intros t _ Ht. exact Ht.
Qed.

Lemma fixCss_noMatch (s : jsstring) :
  noMatch (gradientAt (js "linear")) s ->
  noMatch (gradientAt (js "radial")) s ->
  noMatch backgroundImageAt s ->
  fixCss s = s.
Proof.
  intros HL HR HI. unfold fixCss, fixLinearGradients, fixRadialGradients.
  rewrite (replaceAll_noMatch _ s (gradientReplacer_noMatch _ s HL)).
  rewrite (replaceAll_noMatch _ s (gradientReplacer_noMatch _ s HR)).
  rewrite fixBackgroundImages_scan.
  apply replaceAll_noMatch. now apply imageReplacer_noMatch.
Qed.

Lemma fixCss_idempotent (cssContent : jsstring) :
  extractsPlainColours cssContent = true ->
  fixCss (fixCss cssContent) = fixCss cssContent.
Proof.
  intros HK. destruct (fixCss_clean cssContent HK) as [HL [HR HI]].
  now apply fixCss_noMatch.
Qed.

(** *** The style elements of a document *)

Definition isText (n : DNode) : bool :=
  match n with DText _ => true | _ => false end.

(** A style element as the HTML parser builds it: its content is raw text,
    so it holds text nodes only. *)
Definition rawText (n : DNode) : bool :=
  match n with
  | DElement _ _ children => forallb isText children
  | _ => false
  end.

Definition rawStyles (d : Document) : bool :=
  forallb (fun p => match getAt d p with
                    | Some n => rawText n
                    | None => false
                    end) (styleElements d).

Definition plainGradients (d : Document) : bool :=
  forallb (fun p => extractsPlainColours (textContentAt d p))
          (styleElements d).

Lemma nth_error_setNth_same {A} (l : list A) :
  forall i x v, nth_error l i = Some x -> nth_error (setNth l i v) i = Some v.
Proof.
  induction l as [|a l IH]; intros [|i] x v; simpl; try discriminate.
  - reflexivity.
  - apply IH.
Qed.

Lemma nth_error_setNth_other {A} (l : list A) :
  forall i j v, i <> j -> nth_error (setNth l i v) j = nth_error l j.
Proof.
  induction l as [|a l IH]; intros [|i] [|j] v Hne; simpl;
    try reflexivity; try congruence.
  apply IH. congruence.
Qed.

Lemma pathsIn_element P name attrs children :
  pathsIn P (DElement name attrs children)
  = (if P name then [[]] else []) ++ pathsFrom P children 0.
Proof.
  cbn [pathsIn]. f_equal. generalize 0%nat.
  induction children as [|c r IH]; intros k; [reflexivity|].
  cbn [pathsFrom]. now rewrite <- IH.
Qed.

Lemma pathsFrom_text P (children : list DNode) :
  forall k, forallb isText children = true -> pathsFrom P children k = [].
Proof.
  induction children as [|c r IH]; intros k; [reflexivity|].
  cbn [forallb pathsFrom]. intros H. apply andb_true_iff in H as [Hc Hr].
  rewrite (IH _ Hr). now destruct c.
Qed.

Lemma pathsIn_setTextContent P v n :
  rawText n = true -> pathsIn P (setTextContent v n) = pathsIn P n.
Proof.
  destruct n as [data|data|name attrs children]; try discriminate.
  cbn [rawText setTextContent]. intros Hraw.
  rewrite !pathsIn_element, (pathsFrom_text P children 0 Hraw).
  now destruct v.
Qed.

Lemma pathsFrom_setNth P (d : list DNode) :
  forall i n n' k,
    nth_error d i = Some n -> pathsIn P n' = pathsIn P n ->
    pathsFrom P (setNth d i n') k = pathsFrom P d k.
Proof.
  induction d as [|a d IH]; intros [|i] n n' k; simpl; try discriminate.
  - intros Hn Hp. injection Hn as ->. now rewrite Hp.
  - intros Hn Hp. now rewrite (IH i n n' (S k) Hn Hp).
Qed.

Lemma pathsFrom_updateAt P v (p : Path) :
  forall d n k,
    getAt d p = Some n -> rawText n = true ->
    pathsFrom P (updateAt (setTextContent v) d p) k = pathsFrom P d k.
Proof.
  induction p as [|i p IH]; intros d n k; [discriminate|].
  cbn [getAt updateAt].
  destruct (nth_error d i) as [m|] eqn:Em; [|discriminate].
  assert (Hhere : Some m = Some n -> rawText n = true ->
                  pathsFrom P (setNth d i (setTextContent v m)) k
                  = pathsFrom P d k).
  { intros Hn Hraw. injection Hn as ->.
    apply (pathsFrom_setNth P d i n _ k Em).
    now apply pathsIn_setTextContent. }
  destruct m as [data|data|name attrs children], p as [|j p];
    try discriminate; try exact Hhere.
  intros Hn Hraw.
  apply (pathsFrom_setNth P d i _ _ k Em).
  rewrite !pathsIn_element. now rewrite (IH children n 0%nat Hn Hraw).
Qed.

Lemma getAt_updateAt_same f (p : Path) :
  forall d n, getAt d p = Some n -> getAt (updateAt f d p) p = Some (f n).
Proof.
  induction p as [|i p IH]; intros d n; [discriminate|].
  cbn [getAt updateAt].
  destruct (nth_error d i) as [m|] eqn:Em; [|discriminate].
  assert (Hhere : Some m = Some n ->
                  getAt (setNth d i (f m)) [i] = Some (f n)).
  { intros Hn. injection Hn as ->.
    cbn [getAt]. rewrite (nth_error_setNth_same d i n (f n) Em).
    now destruct (f n). }
  destruct m as [data|data|name attrs children], p as [|j p];
    try discriminate; try exact Hhere.
  intros Hn. cbn [getAt].
  rewrite (nth_error_setNth_same d i _ _ Em).
  now apply IH.
Qed.

(** Nothing that holds text only lies below raw text. *)
Lemma getAt_below_text (children : list DNode) (p : Path) (n : DNode) :
  forallb isText children = true -> getAt children p = Some n ->
  rawText n = false.
Proof.
  intros Hraw. destruct p as [|i p]; [discriminate|]. cbn [getAt].
  destruct (nth_error children i) as [c|] eqn:Ec; [|discriminate].
  apply nth_error_In in Ec.
  apply (proj1 (forallb_forall _ _) Hraw) in Ec.
  destruct c; try discriminate Ec.
  destruct p; [|discriminate]. intros Hn. now injection Hn as <-.
Qed.

Lemma getAt_head (d : list DNode) (i : nat) (p : Path) (n : DNode) :
  getAt d (i :: p) = Some n ->
  exists m, nth_error d i = Some m
            /\ match p with
               | [] => n = m
               | _ :: _ =>
                   exists name attrs children,
                     m = DElement name attrs children
                     /\ getAt children p = Some n
               end.
Proof.
  cbn [getAt]. destruct (nth_error d i) as [m|]; [|discriminate].
  intros Hn. exists m. split; [reflexivity|].
  destruct m as [data|data|name attrs children], p as [|j p];
    try discriminate; try (now injection Hn as <-).
  now exists name, attrs, children.
Qed.

Lemma getAt_updateAt_other f (p : Path) :
  forall d q np nq,
    getAt d p = Some np -> rawText np = true ->
    getAt d q = Some nq -> rawText nq = true -> p <> q ->
    getAt (updateAt f d p) q = Some nq.
Proof.
  induction p as [|i p IH]; intros d q np nq; [discriminate|].
  destruct q as [|j q]; [discriminate|].
  intros Hp Hrp Hq Hrq Hne.
  destruct (getAt_head d i p np Hp) as [m [Em Hm]].
  destruct (getAt_head d j q nq Hq) as [m' [Em' Hm']].
  destruct (Nat.eq_dec i j) as [<-|Hij].
  - rewrite Em in Em'. injection Em' as <-.
    destruct p as [|i' p], q as [|j' q].
    + congruence.
    + subst np. destruct Hm' as [name [attrs [children [-> Hq']]]].
      cbn [rawText] in Hrp.
      rewrite (getAt_below_text children (j' :: q) nq Hrp Hq') in Hrq.
      discriminate.
    + subst nq. destruct Hm as [name [attrs [children [-> Hp']]]].
      cbn [rawText] in Hrq.
      rewrite (getAt_below_text children (i' :: p) np Hrq Hp') in Hrp.
      discriminate.
    + destruct Hm as [name [attrs [children [-> Hp']]]].
      destruct Hm' as [name' [attrs' [children' [E' Hq']]]].
      injection E' as <- <- <-.
      cbn [updateAt]. rewrite Em. cbn [getAt].
      rewrite (nth_error_setNth_same d i _ _ Em).
      apply (IH children (j' :: q) np nq Hp' Hrp Hq' Hrq). congruence.
  - assert (Hsame : forall v, getAt (setNth d i v) (j :: q) = Some nq).
    { intros v. rewrite <- Hq. cbn [getAt].
      now rewrite (nth_error_setNth_other d i j v Hij). }
    cbn [updateAt]. rewrite Em.
    destruct m as [data|data|name attrs children], p as [|i' p];
      try apply Hsame; exact Hq.
Qed.

Lemma textContent_setTextContent v n :
  rawText n = true -> textContent (setTextContent v n) = v.
Proof.
  destruct n as [data|data|name attrs children]; try discriminate.
  intros _. destruct v as [|c v]; [reflexivity|].
  cbn [setTextContent textContent]. apply app_nil_r.
Qed.

Lemma rawText_setTextContent v n :
  rawText n = true -> rawText (setTextContent v n) = true.
Proof.
  destruct n as [data|data|name attrs children]; try discriminate.
  intros _. now destruct v.
Qed.

(** *** The fixer on a document *)

(** The state of the document [d] while the fixer walks over the style
    elements of [d0]: the style elements are where they were and hold raw
    text, which is the original or the fixed text, and the fixed text for
    the elements that are [done]. *)
Definition fixedUpTo (d0 d : Document) (done : Path -> Prop) : Prop :=
  styleElements d = styleElements d0
  /\ forall p, In p (styleElements d0) ->
       exists n, getAt d p = Some n
                 /\ rawText n = true
                 /\ (textContent n = textContentAt d0 p
                     \/ textContent n = fixCss (textContentAt d0 p))
                 /\ (done p -> textContent n = fixCss (textContentAt d0 p)).

Lemma fixedUpTo_start (d : Document) :
  rawStyles d = true -> fixedUpTo d d (fun _ => False).
Proof.
  intros Hraw. split; [reflexivity|]. intros p Hp.
  pose proof (proj1 (forallb_forall _ _) Hraw p Hp) as Hn. cbv beta in Hn.
  unfold textContentAt.
  destruct (getAt d p) as [n|]; [|discriminate].
  exists n. repeat split; [exact Hn|now left|contradiction].
Qed.

Lemma fixedUpTo_weaken (d0 d : Document) (done done' : Path -> Prop) :
  (forall q, done' q -> done q) ->
  fixedUpTo d0 d done -> fixedUpTo d0 d done'.
Proof.
  intros Hsub [Hs Hall]. split; [exact Hs|]. intros p Hp.
  destruct (Hall p Hp) as [n [Hn [Hraw [Hc Hd]]]].
  exists n. repeat split; auto.
Qed.

Lemma gradientStep_fixedUpTo (d0 d : Document) (k : nat)
    (done : Path -> Prop) (p : Path) :
  plainGradients d0 = true -> fixedUpTo d0 d done ->
  In p (styleElements d0) ->
  fixedUpTo d0 (fst (gradientStep (d, k) p)) (fun q => done q \/ q = p).
Proof.
  intros HK [Hs Hall] Hp.
  destruct (Hall p Hp) as [n [Hn [Hraw [Hc Hd]]]].
  pose proof (proj1 (forallb_forall _ _) HK p Hp) as Hidem.
  apply fixCss_idempotent in Hidem.
  assert (Hfix : fixCss (textContent n) = fixCss (textContentAt d0 p))
    by (destruct Hc as [->| ->]; [reflexivity|exact Hidem]).
  assert (Hcur : textContentAt d p = textContent n)
    by (unfold textContentAt; now rewrite Hn).
  unfold gradientStep. rewrite Hcur, Hfix.
  destruct (str_eqb (fixCss (textContentAt d0 p)) (textContent n)) eqn:E;
    cbn [negb fst].
  - apply str_eqb_spec in E. split; [exact Hs|]. intros q Hq.
    destruct (Hall q Hq) as [nq [Hnq [Hrq [Hcq Hdq]]]].
    exists nq. repeat split; auto.
    intros [Hdone| ->]; [now apply Hdq|].
    rewrite Hn in Hnq. injection Hnq as <-. now symmetry.
  - split.
    + unfold styleElements in *. rewrite <- Hs.
      now apply (pathsFrom_updateAt _ _ p d n).
    + intros q Hq. destruct (list_eq_dec Nat.eq_dec q p) as [->|Hne].
      * exists (setTextContent (fixCss (textContentAt d0 p)) n).
        rewrite (textContent_setTextContent _ n Hraw).
        repeat split; auto.
        -- now apply getAt_updateAt_same.
        -- now apply rawText_setTextContent.
      * destruct (Hall q Hq) as [nq [Hnq [Hrq [Hcq Hdq]]]].
        exists nq. repeat split; auto.
        -- apply (getAt_updateAt_other _ p d q n nq); auto.
        -- intros [Hdone|Heq]; [now apply Hdq|contradiction].
Qed.

Lemma gradientSteps_fixedUpTo (d0 : Document) (ps : list Path) :
  forall d k done,
    plainGradients d0 = true -> fixedUpTo d0 d done ->
    incl ps (styleElements d0) ->
    fixedUpTo d0 (fst (fold_left gradientStep ps (d, k)))
              (fun q => done q \/ In q ps).
Proof.
  induction ps as [|p ps IH]; intros d k done HK Hinv Hincl.
  - cbn [fold_left fst]. apply (fixedUpTo_weaken d0 d done); [|exact Hinv].
    intros q [Hq|[]]. exact Hq.
  - cbn [fold_left].
    pose proof (gradientStep_fixedUpTo d0 d k done p HK Hinv
                  (Hincl p (or_introl eq_refl))) as Hstep.
    destruct (gradientStep (d, k) p) as [d1 k1]. cbn [fst] in Hstep.
    apply (fixedUpTo_weaken d0 _ (fun q => (done q \/ q = p) \/ In q ps)).
    + intros q [Hq|[<-|Hq]]; auto.
    + apply IH; [exact HK|exact Hstep|].
      intros q Hq. apply Hincl. now right.
Qed.

(** Where every style sheet is its own fixed text, the fixer changes
    nothing and counts nothing. *)
Lemma gradientSteps_clean (ps : list Path) (d : Document) :
  (forall p, In p ps -> fixCss (textContentAt d p) = textContentAt d p) ->
  fold_left gradientStep ps (d, 0%nat) = (d, 0%nat).
Proof.
  induction ps as [|p ps IH]; intros Hclean; [reflexivity|].
  cbn [fold_left]. unfold gradientStep at 2.
  rewrite (Hclean p (or_introl eq_refl)), str_eqb_refl. cbn [negb].
  apply IH. intros q Hq. apply Hclean. now right.
Qed.

(** C9 (as amended).  On a document whose style elements hold raw text, as
    the HTML parser builds them, and in which no colour that the fixer
    extracts from a gradient holds the text [background], the fixer
    returns, and applied again to the document it returned it leaves that
    document as it is and reports that nothing was fixed. *)
Theorem gradient_fixer_idempotent (d : Document) :
  rawStyles d = true -> plainGradients d = true ->
  exists once,
    gradientFix d = Returned once
    /\ gradientFix (document once)
       = Returned {| document := document once;
                     fixed := false;
                     fixDescription := [] |}.
Proof.
  intros Hraw HK.
  pose proof (gradientSteps_fixedUpTo d (styleElements d) d 0%nat
                (fun _ => False) HK (fixedUpTo_start d Hraw)
                (incl_refl _)) as [Hs Hall].
  assert (Hagain : forall d' n description,
             fst (fold_left gradientStep (styleElements d) (d, 0%nat)) = d' ->
             gradientFix
               (document {| document := d'; fixed := n;
                            fixDescription := description |})
             = Returned {| document := d'; fixed := false;
                           fixDescription := [] |}).
  { intros d' n description <-. cbn [document]. unfold gradientFix.
    rewrite Hs, gradientSteps_clean; [reflexivity|].
    intros p Hp. destruct (Hall p Hp) as [m [Hm [_ [_ Hd]]]].
    unfold textContentAt at 1 2. rewrite Hm, Hd by now right.
    apply fixCss_idempotent.
    exact (proj1 (forallb_forall _ _) HK p Hp). }
  unfold gradientFix at 1.
  destruct (fold_left gradientStep (styleElements d) (d, 0%nat))
    as [d' n] eqn:E.
  destruct (0 <? n)%nat; eexists; (split; [reflexivity|]);
    now apply Hagain.
Qed.

Lemma gradient_fixer_idempotent_witness :
  exists once,
    gradientFix
      (sheetParse
         (js "a{background: linear-gradient(red, blue);} b{background: radial-gradient(#fff, rgb(1, 2, 3));} c{background-image: url(paper.png);}"))
    = Returned once
    /\ gradientFix (document once)
       = Returned {| document := document once;
                     fixed := false;
                     fixDescription := [] |}.
Proof.
  apply gradient_fixer_idempotent; vm_compute; reflexivity.
Defined.

(** The claim as stated fails: the fixer changes the style sheet below, and
    applied again it changes the result once more and reports a fix. *)
Lemma gradient_fixer_counterexample :
  exists description,
    gradientFix
      (sheetParse
         (js "a{background: linear-gradient(rgb(background: linear-gradient(x);}"))
    = Returned
        {| document :=
             sheetParse
               (js "a{background: rgb(background: linear-gradient(x);}");
           fixed := true;
           fixDescription := description |}
    /\ gradientFix
         (sheetParse (js "a{background: rgb(background: linear-gradient(x);}"))
       = Returned
           {| document :=
                sheetParse (js "a{background: rgb(background: #000000;}");
              fixed := true;
              fixDescription := description |}.
Proof. eexists. split; vm_compute; reflexivity. Qed.

End GradientFacts.

(** ** Saving and the files (auto_fix.js) *)

Module FileFacts.
Import AutoFix.

Lemma writeFile_same (fs : FileSystem) (path content : jsstring) :
  writeFile fs path content path = Some content.
Proof. unfold writeFile. now rewrite str_eqb_refl. Qed.

Lemma writeFile_other (fs : FileSystem) (path content q : jsstring) :
  q <> path -> writeFile fs path content q = fs q.
Proof.
  intros Hne. unfold writeFile.
  destruct (str_eqb q path) eqn:E; [|reflexivity].
  apply str_eqb_spec in E. contradiction.
Qed.

Lemma backup_not_path (htmlPath : jsstring) :
  htmlPath ++ js ".backup" <> htmlPath.
Proof.
  intros E. apply (f_equal (@length _)) in E.
  rewrite length_app in E. simpl in E. lia.
Qed.

Section Files.
Variable parse : jsstring -> Document.
Variable serialize : Document -> jsstring.

(** X1.  [save] with its default argument keeps one backup: of two saves
    that follow one another on a file that had no backup, the first copies
    the original to the backup path and the second leaves that copy alone;
    the file itself holds the second fixer's markup, and no other file is
    touched. *)
Theorem save_keeps_first_backup (htmlPath original : jsstring)
    (first second : Fixer) (fs : FileSystem) :
  fixed first = true -> fixed second = true ->
  fs htmlPath = Some original -> fs (htmlPath ++ js ".backup") = None ->
  let after :=
    snd (save serialize true htmlPath second
           (snd (save serialize true htmlPath first fs))) in
  after (htmlPath ++ js ".backup") = Some original
  /\ after htmlPath = Some (serialize (document second))
  /\ forall q, q <> htmlPath -> q <> htmlPath ++ js ".backup" ->
               after q = fs q.
Proof.
  intros H1 H2 Ho Hb. unfold save. rewrite H1, H2. cbn [negb snd].
  cbv zeta. rewrite Hb, Ho.
  set (fs1 := writeFile (writeFile fs (htmlPath ++ js ".backup") original)
                htmlPath (serialize (document first))).
  assert (Hkept : fs1 (htmlPath ++ js ".backup") = Some original).
  { unfold fs1. rewrite writeFile_other by apply backup_not_path.
    apply writeFile_same. }
  rewrite Hkept. repeat split.
  - rewrite writeFile_other by apply backup_not_path. exact Hkept.
  - apply writeFile_same.
  - intros q Hq Hq'. unfold fs1. now rewrite !writeFile_other.
Qed.

(** A fixer that fixed nothing saves nothing. *)
Lemma save_unfixed (backupOriginal : bool) (htmlPath : jsstring)
    (fixer : Fixer) (fs : FileSystem) :
  fixed fixer = false ->
  save serialize backupOriginal htmlPath fixer fs = (false, fs).
Proof. intros Hf. unfold save. now rewrite Hf. Qed.

Lemma tryFixer_other htmlPath canFix runFix pr q :
  q <> htmlPath ->
  files (tryFixer parse serialize htmlPath canFix runFix pr) q = files pr q.
Proof.
  intros Hq. unfold tryFixer. destruct (failure pr); [reflexivity|].
  destruct (canFix (htmlContent pr)); [|reflexivity].
  destruct (runFix (parse (htmlContent pr))) as [fixer|m]; [|reflexivity].
  destruct (fixed fixer) eqn:E; [|reflexivity].
  cbn [files]. unfold save. rewrite E. cbn [negb snd].
  now apply writeFile_other.
Qed.

Lemma tryFixer_applied htmlPath canFix runFix pr :
  (applied pr <= applied (tryFixer parse serialize htmlPath canFix runFix pr))%nat
  /\ (applied (tryFixer parse serialize htmlPath canFix runFix pr) = 0%nat ->
      files (tryFixer parse serialize htmlPath canFix runFix pr) = files pr).
Proof.
  unfold tryFixer. destruct (failure pr); [now split|].
  destruct (canFix (htmlContent pr)); [|now split].
  destruct (runFix (parse (htmlContent pr))) as [fixer|m]; [|now split].
  destruct (fixed fixer); [|now split].
  cbn [applied files]. split; [lia|discriminate].
Qed.

End Files.

Lemma autoFixHtml_other
    (parse : jsstring -> Document) (serialize : Document -> jsstring)
    (htmlPath errorMessage : jsstring) (options : Options)
    (fs : FileSystem) (q : jsstring) :
  q <> htmlPath ->
  snd (autoFixHtml parse serialize htmlPath errorMessage options fs) q = fs q.
Proof.
  intros Hq. unfold autoFixHtml.
  destruct (fs htmlPath) as [content|]; [|reflexivity].
  match goal with
  | |- snd (match failure ?p with _ => _ end) _ = _ =>
      transitivity (files p q); [destruct (failure p); reflexivity|]
  end.
  rewrite !tryFixer_other by exact Hq.
  destruct (borderCanFix errorMessage) as [[tagNames styleType]|];
    [rewrite tryFixer_other by exact Hq|]; reflexivity.
Qed.

(** X2.  [autoFixHtml] writes to no file but the one it is given: every
    other path, the backup path among them, holds afterwards what it held
    before, whatever the fixers do and even when one of them throws. *)
Theorem autoFixHtml_writes_only_the_file
    (parse : jsstring -> Document) (serialize : Document -> jsstring)
    (htmlPath errorMessage : jsstring) (options : Options)
    (fs : FileSystem) (q : jsstring) :
  q <> htmlPath ->
  snd (autoFixHtml parse serialize htmlPath errorMessage options fs) q = fs q
  /\ snd (autoFixHtml parse serialize htmlPath errorMessage options fs)
         (htmlPath ++ js ".backup")
     = fs (htmlPath ++ js ".backup").
Proof.
  intros Hq. split; [now apply autoFixHtml_other|].
  apply autoFixHtml_other, backup_not_path.
Qed.

Lemma autoFixHtml_writes_only_the_file_witness :
  snd (autoFixHtml sheetParse sheetSerialize (js "slide.html") []
         {| backup := true |} slideFiles) (js "notes.txt")
  = slideFiles (js "notes.txt")
  /\ snd (autoFixHtml sheetParse sheetSerialize (js "slide.html") []
            {| backup := true |} slideFiles) (js "slide.html" ++ js ".backup")
     = slideFiles (js "slide.html" ++ js ".backup").
Proof.
  apply autoFixHtml_writes_only_the_file. discriminate.
Defined.

(** X3.  When [autoFixHtml] returns [false], no fixer has saved anything:
    the files are what they were. *)
Theorem autoFixHtml_false_writes_nothing
    (parse : jsstring -> Document) (serialize : Document -> jsstring)
    (htmlPath errorMessage : jsstring) (options : Options)
    (fs : FileSystem) :
  fst (autoFixHtml parse serialize htmlPath errorMessage options fs)
  = Returned false ->
  snd (autoFixHtml parse serialize htmlPath errorMessage options fs) = fs.
Proof.
  unfold autoFixHtml.
  destruct (fs htmlPath) as [content|]; [|discriminate].
  set (start := {| files := fs; htmlContent := content; applied := 0;
                   failure := None |}).
  set (afterBorder :=
         match borderCanFix errorMessage with
         | Some (tagNames, styleType) =>
             tryFixer parse serialize htmlPath (fun _ => true)
                      (borderFix tagNames styleType) start
         | None => start
         end).
  set (afterUnwrapped :=
         tryFixer parse serialize htmlPath
                  (fun _ => unwrappedCanFix errorMessage) unwrappedFix
                  afterBorder).
  set (afterGradient :=
         tryFixer parse serialize htmlPath (gradientCanFix errorMessage)
                  gradientFix afterUnwrapped).
  destruct (failure afterGradient); [discriminate|]. cbn [fst snd].
  intros Hf. injection Hf as Hf. apply Nat.ltb_ge in Hf.
  destruct (tryFixer_applied parse serialize htmlPath
              (gradientCanFix errorMessage) gradientFix afterUnwrapped)
    as [L3 F3].
  destruct (tryFixer_applied parse serialize htmlPath
              (fun _ => unwrappedCanFix errorMessage) unwrappedFix
              afterBorder) as [L2 F2].
  fold afterGradient in L3, F3. fold afterUnwrapped in L2, F2.
  assert (F1 : applied afterBorder = 0%nat -> files afterBorder = fs).
  { unfold afterBorder.
    destruct (borderCanFix errorMessage) as [[tagNames styleType]|];
      [|reflexivity].
    apply (tryFixer_applied parse serialize htmlPath (fun _ => true)
             (borderFix tagNames styleType) start). }
  rewrite F3, F2, F1 by lia. reflexivity.
Qed.

(** A fixer that has fixed the file to the given style sheet. *)
Definition fixedTo (content : jsstring) : Fixer :=
  {| document := sheetParse content; fixed := true; fixDescription := [] |}.

Lemma save_keeps_first_backup_witness :
  let after :=
    snd (save sheetSerialize true (js "slide.html")
           (fixedTo (js "a{background: #000000;}"))
           (snd (save sheetSerialize true (js "slide.html")
                   (fixedTo (js "a{background: red;}")) slideFiles))) in
  after (js "slide.html" ++ js ".backup")
  = Some (js "a{background: linear-gradient(red, blue);}")
  /\ after (js "slide.html")
     = Some (sheetSerialize (document (fixedTo (js "a{background: #000000;}"))))
  /\ forall q, q <> js "slide.html" ->
               q <> js "slide.html" ++ js ".backup" ->
               after q = slideFiles q.
Proof.
  apply (save_keeps_first_backup sheetSerialize (js "slide.html")
           (js "a{background: linear-gradient(red, blue);}")
           (fixedTo (js "a{background: red;}"))
           (fixedTo (js "a{background: #000000;}")) slideFiles);
    reflexivity.
Defined.

(** One file, with nothing to fix. *)
Definition plainFiles : FileSystem :=
  writeFile noFiles (js "slide.html") (js "a{color: red;}").

Lemma autoFixHtml_false_writes_nothing_witness :
  snd (autoFixHtml sheetParse sheetSerialize (js "slide.html") []
         {| backup := true |} plainFiles)
  = plainFiles.
Proof.
  apply autoFixHtml_false_writes_nothing. vm_compute. reflexivity.
Defined.

End FileFacts.

(** ** What the border fixer reads from the message (auto_fix.js) *)

Module CanFixFacts.
Import AutoFix.

Lemma matchAll_In {A} (m : jsstring -> option (A * jsstring)) (s : jsstring) :
  forall skip a, In a (matchAll m s skip) ->
                 exists t rest, m t = Some (a, rest).
Proof.
  induction s as [|c s IH]; intros skip a; [contradiction|].
  cbn [matchAll]. destruct skip as [|k]; [|apply IH].
  destruct (m (c :: s)) as [[b rest]|] eqn:E; [|apply IH].
  intros [<-|Hin]; [now exists (c :: s), rest|exact (IH _ a Hin)].
Qed.

Lemma dedupe_spec (l : list jsstring) :
  forall seen,
    NoDup (dedupe l seen)
    /\ forall x, In x (dedupe l seen) -> In x l /\ ~ In x seen.
Proof.
  induction l as [|a l IH]; intros seen; cbn [dedupe].
  - split; [constructor|contradiction].
  - destruct (existsb (str_eqb a) seen) eqn:E.
    + destruct (IH seen) as [Hn Hs]. split; [exact Hn|].
      intros x Hx. destruct (Hs x Hx). split; [now right|assumption].
    + destruct (IH (a :: seen)) as [Hn Hs]. split.
      * constructor; [|exact Hn]. intros Ha.
        destruct (Hs a Ha) as [_ Hno]. apply Hno. now left.
      * intros x [<-|Hx].
        -- split; [now left|]. intros Hin.
           assert (existsb (str_eqb a) seen = true); [|congruence].
           apply existsb_exists. exists a. split; [exact Hin|].
           apply str_eqb_refl.
        -- destruct (Hs x Hx) as [Hl Hno]. split; [now right|].
           intros Hin. apply Hno. now right.
Qed.

Definition styleTypes : list jsstring := map js ["边框"; "背景"; "阴影"]%string.

Lemma textElementErrorAt_parts (s tag kind rest : jsstring) :
  textElementErrorAt s = Some (tag, kind, rest) ->
  tag <> [] /\ forallb isWord tag = true /\ In kind styleTypes.
Proof.
  unfold textElementErrorAt.
  destruct (strip (js "文本元素 <") s) as [s1|]; [|discriminate].
  destruct (span_split isWord s1) as [_ Hw].
  destruct (span isWord s1) as [[|c tag'] s2]; [discriminate|].
  cbn [fst] in Hw.
  destruct (strip (js "> 存在 ") s2) as [s3|]; [|discriminate].
  destruct (strip (js "边框") s3), (strip (js "背景") s3),
    (strip (js "阴影") s3); intros E; try discriminate;
    injection E as <- <- <-;
    (split; [discriminate|]); (split; [exact Hw|]);
    unfold styleTypes; cbn [map In]; tauto.
Qed.

(** X4.  What [canFix] of the border fixer stores: at least one tag name,
    no tag name twice, every tag name a non-empty word, and as style type
    one of the three kinds of the error message. *)
Theorem borderCanFix_stores (errorMessage : jsstring)
    (tagNames : list jsstring) (styleType : jsstring) :
  borderCanFix errorMessage = Some (tagNames, styleType) ->
  tagNames <> [] /\ NoDup tagNames
  /\ (forall tag, In tag tagNames ->
                  tag <> [] /\ forallb isWord tag = true)
  /\ In styleType styleTypes.
Proof.
  unfold borderCanFix.
  set (m := fun s => do (tag, kind, rest) <- textElementErrorAt s;
                     Some ((tag, kind), rest)).
  assert (Hm : forall a, In a (matchAll m errorMessage 0) ->
                         fst a <> [] /\ forallb isWord (fst a) = true
                         /\ In (snd a) styleTypes).
  { intros [tag kind] Ha. apply matchAll_In in Ha as [t [rest Ht]].
    unfold m in Ht.
    destruct (textElementErrorAt t) as [[[tag' kind'] rest']|] eqn:E;
      [|discriminate].
    injection Ht as <- <- <-. now apply textElementErrorAt_parts in E. }
  destruct (matchAll m errorMessage 0) as [|[tag0 kind0] others] eqn:E;
    [discriminate|].
  intros Hs. injection Hs as <- <-.
  destruct (dedupe_spec (map fst ((tag0, kind0) :: others)) []) as [Hn Hin].
  split; [cbn [map dedupe existsb]; discriminate|].
  split; [exact Hn|]. split.
  - intros tag Htag. destruct (Hin tag Htag) as [Hl _].
    apply in_map_iff in Hl as [a [<- Ha]]. split; now apply Hm.
  - apply (Hm (tag0, kind0)). now left.
Qed.

Lemma borderCanFix_stores_witness :
  [js "h1"; js "p"] <> [] /\ NoDup [js "h1"; js "p"]
  /\ (forall tag, In tag [js "h1"; js "p"] ->
                  tag <> [] /\ forallb isWord tag = true)
  /\ In (js "边框") styleTypes.
Proof.
  apply (borderCanFix_stores
           (js "文本元素 <h1> 存在 边框。文本元素 <p> 存在 背景。文本元素 <h1> 存在 阴影。")).
  vm_compute. reflexivity.
Defined.

End CanFixFacts.

(** ** From the errors of a conversion to the fixers *)

Module HandoverFacts.
Import Html2Pptx AutoFix.
Import GradientFacts.

(** *** A message that holds an error *)

Lemma join_holds (sep x : jsstring) (l : list jsstring) :
  In x l -> exists pre post, join sep l = pre ++ x ++ post.
Proof.
  induction l as [|a l IH]; [contradiction|].
  intros [->|Hin].
  - destruct l as [|b l].
    + exists [], []. cbn [join app]. now rewrite app_nil_r.
    + exists [], (sep ++ join sep (b :: l)). reflexivity.
  - destruct (IH Hin) as [pre [post E]]. destruct l as [|b l]; [contradiction|].
    exists (a ++ sep ++ pre), post.
    change (join sep (a :: b :: l)) with (a ++ sep ++ join sep (b :: l)).
    rewrite E. now rewrite <- !app_assoc.
Qed.

Lemma numberedFrom_holds (e : jsstring) (errs : list jsstring) :
  forall i, In e errs ->
            exists line, In line (ConversionFacts.numberedFrom i errs)
                         /\ exists pre, line = pre ++ e.
Proof.
  induction errs as [|a errs IH]; intros i; [contradiction|].
  cbn [ConversionFacts.numberedFrom]. intros [->|Hin].
  - eexists. split; [now left|].
    exists (js "  " ++ natToString i ++ js ". ").
    now rewrite <- !app_assoc.
  - destruct (IH (S i) Hin) as [line [Hl Hp]]. exists line. split; [now right|].
    exact Hp.
Qed.

Lemma errorMessage_holds (e : jsstring) (errs : list jsstring) :
  In e errs -> exists pre post, errorMessage errs = pre ++ e ++ post.
Proof.
  intros Hin. destruct errs as [|e1 [|e2 errs]]; [contradiction| |].
  - destruct Hin as [->|[]]. exists [], []. cbn [errorMessage app].
    now rewrite app_nil_r.
  - rewrite ConversionFacts.errorMessage_several by (simpl; lia).
    destruct (numberedFrom_holds e _ 1%nat Hin) as [line [Hl [p ->]]].
    destruct (join_holds newline _ _ Hl) as [pre [post E]].
    exists ((js "发现多个校验错误：" ++ newline) ++ pre ++ p), post.
    rewrite E. now rewrite <- !app_assoc.
Qed.

(** Every error that the extraction reports is part of the message that
    [html2pptx] raises. *)
Lemma html2pptx_message_holds `{Host} {Shadow} (htmlFile : jsstring)
    (pres : Presentation Shadow) (slideOption : option (Slide Shadow))
    (body : BodyBox) (slideData : SlideData Shadow) (e : jsstring) :
  In e (errors slideData) ->
  exists pre post,
    fst (html2pptx htmlFile pres slideOption body slideData)
    = Thrown (pre ++ e ++ post).
Proof.
  intros Hin. unfold html2pptx.
  set (all := overflowErrors (getBodyDimensions body)
              ++ validateDimensions body pres
              ++ validateTextBoxPosition slideData body
              ++ errors slideData).
  assert (Hall : In e all).
  { unfold all. apply in_or_app. right. apply in_or_app. right.
    apply in_or_app. now right. }
  destruct (errorMessage_holds e all Hall) as [pre [post E]].
  destruct all as [|e0 rest]; [contradiction|].
  destruct (startsWith (errorMessage (e0 :: rest)) htmlFile); cbn [fst].
  - exists pre, post. now rewrite E.
  - exists (htmlFile ++ js ": " ++ pre), post. rewrite E.
    now rewrite <- !app_assoc.
Qed.

Lemma includes_inside (pre s post sub : jsstring) :
  includes s sub = true -> includes (pre ++ s ++ post) sub = true.
Proof.
  unfold includes at 1.
  destruct (search (strip sub) s) as [r|] eqn:E; [|discriminate].
  intros _. destruct (search_tail _ _ _ E) as [t [[before ->] Ht]].
  apply strip_Some in Ht. subst t.
  replace (pre ++ (before ++ sub ++ r) ++ post)
    with ((pre ++ before) ++ sub ++ (r ++ post))
    by now rewrite <- !app_assoc.
  apply includes_found.
Qed.


(** *** Matches found by a scan *)

Lemma matchAll_skip {A} (m : jsstring -> option (A * jsstring))
    (a b : jsstring) :
  matchAll m (a ++ b) (length a) = matchAll m b 0.
Proof.
  induction a as [|c a IH]; [|exact IH].
  destruct b; reflexivity.
Qed.

(** When no match holds its own first character a second time, a match
    that is there is found, whatever comes before it. *)
Lemma matchAll_finds {A} (m : jsstring -> option (A * jsstring))
    (first : char) :
  (forall t a rest, m t = Some (a, rest) ->
     exists body, t = first :: body ++ rest /\ without first body = true) ->
  forall n pre t0 a rest0,
    (length pre <= n)%nat -> m t0 = Some (a, rest0) ->
    In a (matchAll m (pre ++ t0) 0).
Proof.
  intros Hshape. induction n as [|n IH]; intros pre t0 a rest0 Hlen Ht0.
  - destruct pre; [|simpl in Hlen; lia].
    destruct (Hshape _ _ _ Ht0) as [body [-> _]].
    cbn [app matchAll]. rewrite Ht0. now left.
  - destruct pre as [|c pre].
    + apply (IH [] t0 a rest0); [simpl; lia|exact Ht0].
    + cbn [app matchAll].
      destruct (m (c :: pre ++ t0)) as [[b rest]|] eqn:E.
      * right. destruct (Hshape _ _ _ E) as [body [Eb Hb]].
        destruct (Hshape _ _ _ Ht0) as [body0 [-> _]].
        injection Eb as -> Eb.
        assert (Hfit : exists pre', pre = body ++ pre').
        { clear - Eb Hb. revert pre Eb.
          induction body as [|x body IHb]; intros pre Eb; [now exists pre|].
          cbn [without forallb] in Hb. apply andb_true_iff in Hb as [Hx Hb].
          destruct pre as [|y pre].
          - cbn [app] in Eb. injection Eb as <- _.
            rewrite N.eqb_refl in Hx. discriminate.
          - cbn [app] in Eb. injection Eb as -> Eb.
            destruct (IHb Hb pre Eb) as [pre' ->]. now exists pre'. }
        destruct Hfit as [pre' ->].
        rewrite <- app_assoc in Eb. apply app_inv_head in Eb. subst rest.
        replace (length (first :: (body ++ pre') ++ first :: body0 ++ rest0)
                 - length (pre' ++ first :: body0 ++ rest0) - 1)%nat
          with (length body)
          by (cbn [length]; rewrite !length_app; cbn [length];
              rewrite !length_app; lia).
        rewrite <- app_assoc, matchAll_skip.
        apply (IH pre' _ a rest0); [|exact Ht0].
        simpl in Hlen. rewrite length_app in Hlen. lia.
      * apply (IH pre t0 a rest0); [simpl in Hlen; lia|exact Ht0].
Qed.

Lemma dedupe_keeps (x : jsstring) (l : list jsstring) :
  forall seen, In x l -> In x seen \/ In x (dedupe l seen).
Proof.
  induction l as [|a l IH]; intros seen; [contradiction|].
  cbn [dedupe]. intros [->|Hin].
  - destruct (existsb (str_eqb x) seen) eqn:E.
    + left. apply existsb_exists in E as [y [Hy E]].
      apply str_eqb_spec in E. now subst y.
    + right. now left.
  - destruct (existsb (str_eqb a) seen).
    + now apply IH.
    + destruct (IH (a :: seen) Hin) as [[<-|Hs]|Hd].
      * right. now left.
      * now left.
      * right. now right.
Qed.

Definition wen : char := 25991%N.

Lemma word_not_wen (tag : jsstring) :
  forallb isWord tag = true -> without wen tag = true.
Proof.
  intros Hw. unfold without. apply forallb_forall. intros c Hc.
  apply (proj1 (forallb_forall _ _) Hw) in Hc.
  apply negb_true_iff, N.eqb_neq. intros ->. discriminate.
Qed.

Lemma textElementErrorAt_shape (t tag kind rest : jsstring) :
  textElementErrorAt t = Some (tag, kind, rest) ->
  exists body, t = wen :: body ++ rest /\ without wen body = true.
Proof.
  unfold textElementErrorAt.
  destruct (strip (js "文本元素 <") t) as [s1|] eqn:E1; [|discriminate].
  destruct (span_split isWord s1) as [Es1 Hw].
  destruct (span isWord s1) as [[|c tag'] s2]; [discriminate|].
  cbn [fst snd] in Es1, Hw.
  destruct (strip (js "> 存在 ") s2) as [s3|] eqn:E2; [|discriminate].
  apply strip_Some in E1, E2.
  assert (Hk : forall k r, In k CanFixFacts.styleTypes ->
                           strip k s3 = Some r ->
                           exists body, t = wen :: body ++ r
                                        /\ without wen body = true).
  { intros k r Hk Er. apply strip_Some in Er.
    exists (js "本元素 <" ++ (c :: tag') ++ js "> 存在 " ++ k). split.
    - rewrite E1, Es1, E2, Er.
      change (js "文本元素 <") with (wen :: js "本元素 <").
      cbn [app]. repeat (rewrite <- app_assoc; cbn [app]). reflexivity.
    - rewrite !GradientFacts.without_app, (word_not_wen _ Hw).
      unfold CanFixFacts.styleTypes in Hk. cbn [map In] in Hk.
      destruct Hk as [<-|[<-|[<-|[]]]]; reflexivity. }
  unfold CanFixFacts.styleTypes in Hk. cbn [map In] in Hk.
  destruct (strip (js "边框") s3) eqn:Ea;
    [intros E; injection E as <- <- <-; apply (Hk (js "边框")); tauto|].
  destruct (strip (js "背景") s3) eqn:Eb;
    [intros E; injection E as <- <- <-; apply (Hk (js "背景")); tauto|].
  destruct (strip (js "阴影") s3) eqn:Ec;
    [intros E; injection E as <- <- <-; apply (Hk (js "阴影")); tauto
    |discriminate].
Qed.

Lemma textElementErrorAt_message (tag kind rest : jsstring) :
  tag <> [] -> forallb isWord tag = true ->
  In kind CanFixFacts.styleTypes ->
  textElementErrorAt (js "文本元素 <" ++ tag ++ js "> 存在 " ++ kind ++ rest)
  = Some (tag, kind, rest).
Proof.
  intros Hne Hw Hk. unfold textElementErrorAt.
  rewrite strip_app, span_app by (try exact Hw; reflexivity).
  destruct tag as [|c tag]; [contradiction|].
  rewrite strip_app.
  unfold CanFixFacts.styleTypes in Hk. cbn [map In] in Hk.
  destruct Hk as [<-|[<-|[<-|[]]]].
  - now rewrite strip_app.
  - rewrite (strip_app (js "背景")). reflexivity.
  - rewrite (strip_app (js "阴影")). reflexivity.
Qed.


(** *** The three fixers *)

Lemma textTags_lower (tagName : jsstring) :
  existsb (str_eqb tagName) textTags = true ->
  asciiLower tagName <> [] /\ forallb isWord (asciiLower tagName) = true.
Proof.
  intros Hin. apply existsb_exists in Hin as [name [Hin E]].
  apply str_eqb_spec in E. subst name.
  unfold textTags in Hin. cbn [map In] in Hin.
  repeat (destruct Hin as [<-|Hin]; [split; [discriminate|reflexivity]|]).
  contradiction.
Qed.

(** X5.  An error that the extraction reports for a text element with a
    background, a border or a shadow reaches the border fixer: whatever
    other errors the run accumulates, and whatever the file is called, the
    message that [html2pptx] raises makes [canFix] succeed, with the tag of
    the element among the tag names it stores.  (The tag name is one of the
    ten text tags, on which the host's [toLowerCase] is read as the
    lower-casing of ASCII letters.) *)
Theorem text_element_error_reaches_border_fixer `{Host} {Shadow}
    (htmlFile : jsstring) (pres : Presentation Shadow)
    (slideOption : option (Slide Shadow)) (body : BodyBox)
    (slideData : SlideData Shadow) (tagName : jsstring)
    (computed : Computed.style) (e : jsstring) :
  textElementError tagName computed = Some e ->
  toLowerCase tagName = asciiLower tagName ->
  In e (errors slideData) ->
  exists message tagNames styleType,
    fst (html2pptx htmlFile pres slideOption body slideData) = Thrown message
    /\ borderCanFix message = Some (tagNames, styleType)
    /\ In (asciiLower tagName) tagNames.
Proof.
  intros He Hlower Hin.
  destruct (html2pptx_message_holds htmlFile pres slideOption body slideData
              e Hin) as [pre [post Hm]].
  exists (pre ++ e ++ post).
  unfold textElementError in He.
  destruct (existsb (str_eqb tagName) textTags) eqn:Htag; [|discriminate].
  destruct (textTags_lower tagName Htag) as [Hne Hw].
  rewrite Hlower in He.
  set (kind := if nonEmpty (Computed.backgroundColor computed)
                  && negb (str_eqb (Computed.backgroundColor computed)
                                   (js "rgba(0, 0, 0, 0)"))
               then js "背景"
               else if positive (parseFloat (Computed.borderWidth computed))
                       || positive (parseFloat (Computed.borderTopWidth computed))
                       || positive (parseFloat (Computed.borderRightWidth computed))
                       || positive (parseFloat (Computed.borderBottomWidth computed))
                       || positive (parseFloat (Computed.borderLeftWidth computed))
                    then js "边框" else js "阴影") in He.
  assert (Hkind : In kind CanFixFacts.styleTypes).
  { unfold kind, CanFixFacts.styleTypes. cbn [map In].
    destruct (_ && _); [tauto|]. destruct (_ || _); tauto. }
  clearbody kind.
  match type of He with
  | (if ?c then _ else _) = _ => destruct c; [|discriminate]
  end.
  injection He as <-.
  set (m := fun s => do (tag, kind, rest) <- textElementErrorAt s;
                     Some ((tag, kind), rest)).
  assert (Hfound : In (asciiLower tagName, kind)
                      (matchAll m (pre ++ (js "文本元素 <"
                         ++ asciiLower tagName ++ js "> 存在 " ++ kind
                         ++ js "。仅 <div> 元素支持背景、边框和阴影，文本元素不支持。")
                         ++ post) 0)).
  { apply (matchAll_finds m wen) with (n := length pre)
                                      (rest0 := js "。仅 <div> 元素支持背景、边框和阴影，文本元素不支持。" ++ post).
    - intros t [tag k] rest Ht. unfold m in Ht.
      destruct (textElementErrorAt t) as [[[tag' k'] rest']|] eqn:E;
        [|discriminate].
      injection Ht as <- <- <-. now apply textElementErrorAt_shape in E.
    - apply Nat.le_refl.
    - unfold m. repeat rewrite <- app_assoc.
      now rewrite textElementErrorAt_message. }
  unfold borderCanFix. fold m.
  destruct (matchAll m _ 0) as [|[tag0 kind0] others] eqn:E in Hfound |- *;
    [contradiction|].
  eexists. eexists. split; [exact Hm|]. split; [reflexivity|].
  destruct (dedupe_keeps (asciiLower tagName)
              (map fst ((tag0, kind0) :: others)) []) as [[]|Hd];
    [|exact Hd].
  apply (in_map fst) in Hfound. exact Hfound.
Qed.

Lemma includes_prefix (p z : jsstring) : includes (p ++ z) p = true.
Proof. apply (includes_found [] p z). Qed.

Lemma unwrappedPrefix :
  js "DIV 元素包含未包裹文本“" = js "DIV 元素包含未包裹文本" ++ js "“".
Proof. vm_compute. reflexivity. Qed.

(** X6.  An error that the extraction reports for text directly inside a
    container reaches the fixer of unwrapped text: the message that
    [html2pptx] raises makes its [canFix] true. *)
Theorem unwrapped_text_error_reaches_fixer `{Host} {Shadow}
    (htmlFile : jsstring) (pres : Presentation Shadow)
    (slideOption : option (Slide Shadow)) (body : BodyBox)
    (slideData : SlideData Shadow) (childNodes : list Node) (e : jsstring) :
  In e (unwrappedTextErrors childNodes) ->
  In e (errors slideData) ->
  exists message,
    fst (html2pptx htmlFile pres slideOption body slideData) = Thrown message
    /\ unwrappedCanFix message = true.
Proof.
  intros He Hin.
  destruct (html2pptx_message_holds htmlFile pres slideOption body slideData
              e Hin) as [pre [post Hm]].
  exists (pre ++ e ++ post). split; [exact Hm|].
  unfold unwrappedCanFix. apply includes_inside.
  unfold unwrappedTextErrors in He. apply in_flat_map in He as [node [_ He]].
  destruct node as [data|data|tag computed rect children];
    try contradiction.
  destruct (nonEmpty (trim data)); [|contradiction].
  destruct He as [<-|[]].
  rewrite unwrappedPrefix.
  rewrite <- app_assoc. apply includes_prefix.
Qed.

(** X7.  The error that the extraction reports for a container with a
    background image reaches the gradient fixer: the message that
    [html2pptx] raises makes its [canFix] true, whatever the markup. *)
Theorem background_image_error_reaches_gradient_fixer `{Host} {Shadow}
    (parseBoxShadow : jsstring -> option Shadow)
    (htmlFile : jsstring) (pres : Presentation Shadow)
    (slideOption : option (Slide Shadow)) (body : BodyBox)
    (slideData : SlideData Shadow) (computed : Computed.style)
    (rect : DOMRect) (childNodes : list Node) (htmlContent : jsstring) :
  nonEmpty (Computed.backgroundImage computed) = true ->
  Computed.backgroundImage computed <> js "none" ->
  incl (reported (extractContainer parseBoxShadow computed rect childNodes))
       (errors slideData) ->
  exists message,
    fst (html2pptx htmlFile pres slideOption body slideData) = Thrown message
    /\ gradientCanFix message htmlContent = true.
Proof.
  intros Hne Hnone Hincl.
  set (e := js "DIV 元素上的背景图片不支持。请使用纯色或边框作为形状，或用 slide.addImage() 叠加图片。").
  assert (Hin : In e (errors slideData)).
  { apply Hincl. unfold extractContainer. rewrite Hne.
    destruct (str_eqb (Computed.backgroundImage computed) (js "none")) eqn:E.
    - apply str_eqb_spec in E. contradiction.
    - cbn [negb andb reported]. apply in_or_app. right. now left. }
  destruct (html2pptx_message_holds htmlFile pres slideOption body slideData
              e Hin) as [pre [post Hm]].
  exists (pre ++ e ++ post). split; [exact Hm|].
  unfold gradientCanFix.
  rewrite (includes_inside pre e post (js "请使用纯色或边框作为形状"))
    by (vm_compute; reflexivity).
  reflexivity.
Qed.

(** *** The validator and the fixer of unwrapped text *)

(** The child of a container as the browser and as the fixer's parser see
    it: the same text, or on both sides something that is not text. *)
Definition mirrors (node : Node) (parsed : DNode) : Prop :=
  match node, parsed with
  | TextNode data, DText data' => data = data'
  | TextNode _, _ => False
  | _, DText _ => False
  | _, _ => True
  end.

(** X8.  The validator and the fixer agree on the containers with text of
    their own: the extraction reports unwrapped text for the children of a
    container exactly when [hasDirectTextNode] holds of the container as
    parsed by the fixer. *)
Theorem unwrapped_text_check_agrees (childNodes : list Node)
    (name : jsstring) (attrs : list (jsstring * jsstring))
    (children : list DNode) :
  Forall2 mirrors childNodes children ->
  (unwrappedTextErrors childNodes <> []
   <-> hasDirectTextNode (DElement name attrs children) = true).
Proof.
  intros Hm. cbn [hasDirectTextNode]. unfold unwrappedTextErrors.
  induction Hm as [|node parsed nodes parseds Hone Hrest IH];
    [split; [intros E; now elim E|discriminate]|].
  cbn [flat_map existsb].
  destruct node as [data|data|tag computed rect kids],
    parsed as [data'|data'|tag' attrs' kids']; cbn [mirrors] in Hone;
    try contradiction; cbn [app orb]; try exact IH.
  subst data'. destruct (nonEmpty (trim data)); cbn [app orb];
    [split; [reflexivity|discriminate]|exact IH].
Qed.

(** *** Examples *)

Definition emptyDeck : Presentation unit :=
  {| presLayout := None; slides := [] |}.

Definition wideBody : BodyBox :=
  {| width := 1280; height := 720; scrollWidth := 1280; scrollHeight := 720 |}.

Definition reporting (errs : list jsstring) : SlideData unit :=
  {| background := ColorBackground (js "FFFFFF");
     elements := [];
     placeholders := [];
     errors := errs |}.

Definition headingError : jsstring :=
  js "文本元素 <h1> 存在 背景。仅 <div> 元素支持背景、边框和阴影，文本元素不支持。".

Lemma text_element_error_reaches_border_fixer_witness :
  exists message tagNames styleType,
    fst (@html2pptx exampleHost unit (js "slide.html") emptyDeck None wideBody
           (reporting [js "CSS 渐变不支持。"; headingError]))
    = Thrown message
    /\ borderCanFix message = Some (tagNames, styleType)
    /\ In (asciiLower (js "H1")) tagNames.
Proof.
  apply (@text_element_error_reaches_border_fixer exampleHost unit
           (js "slide.html") emptyDeck None wideBody
           (reporting [js "CSS 渐变不支持。"; headingError])
           (js "H1") uniformBox headingError).
  - vm_compute. reflexivity.
  - reflexivity.
  - right. now left.
Defined.

Definition looseText : list Node := [TextNode (js " loose text ")].

Lemma unwrapped_text_error_reaches_fixer_witness :
  exists message,
    fst (@html2pptx exampleHost unit (js "slide.html") emptyDeck None wideBody
           (reporting (unwrappedTextErrors looseText)))
    = Thrown message
    /\ unwrappedCanFix message = true.
Proof.
  apply (@unwrapped_text_error_reaches_fixer exampleHost unit
           (js "slide.html") emptyDeck None wideBody
           (reporting (unwrappedTextErrors looseText)) looseText
           (hd [] (unwrappedTextErrors looseText))).
  - vm_compute. left. reflexivity.
  - vm_compute. left. reflexivity.
Defined.

Lemma background_image_error_reaches_gradient_fixer_witness :
  exists message,
    fst (@html2pptx exampleHost unit (js "slide.html") emptyDeck None wideBody
           (reporting
              (reported (extractContainer (fun _ => @None unit) imageBox
                                          box100 []))))
    = Thrown message
    /\ gradientCanFix message [] = true.
Proof.
  apply (@background_image_error_reaches_gradient_fixer exampleHost unit
           (fun _ => @None unit) (js "slide.html") emptyDeck None wideBody
           (reporting
              (reported (extractContainer (fun _ => @None unit) imageBox
                                          box100 [])))
           imageBox box100 [] []).
  - reflexivity.
  - discriminate.
  - apply incl_refl.
Defined.

Lemma unwrapped_text_check_agrees_witness :
  unwrappedTextErrors
    [TextNode (js " loose text ");
     ElementNode (js "P") uniformBox box100 [TextNode (js "wrapped")]]
  <> []
  <-> hasDirectTextNode
        (DElement (js "div") []
           [DText (js " loose text ");
            DElement (js "p") [] [DText (js "wrapped")]])
      = true.
Proof.
  apply unwrapped_text_check_agrees.
  constructor; [reflexivity|]. constructor; [exact I|]. constructor.
Defined.

End HandoverFacts.

(** ** The fixer of unwrapped text (auto_fix.js) *)

Module UnwrappedFacts.
Import AutoFix.

(** The nodes that [wrapTextContent] puts in the place of one child. *)
Definition wrapped (wrapTag : jsstring) (node : DNode) : list DNode :=
  match node with
  | DText data =>
      if nonEmpty (trim data) then [DElement wrapTag [] [DText (trim data)]]
      else if includes data newline || includes data (js " ") then [node]
      else []
  | _ => [node]
  end.

Lemma wrapTextContent_children (wrapTag name : jsstring)
    (attrs : list (jsstring * jsstring)) (children : list DNode) :
  wrapTextContent wrapTag (DElement name attrs children)
  = DElement name attrs (flat_map (wrapped wrapTag) children).
Proof. reflexivity. Qed.

Lemma wrapped_again (first second : jsstring) (node : DNode) :
  flat_map (wrapped second) (wrapped first node) = wrapped first node
  /\ existsb (fun n => match n with
                       | DText data => nonEmpty (trim data)
                       | _ => false
                       end) (wrapped first node) = false.
Proof.
  destruct node as [data|data|name attrs children]; cbn [wrapped];
    try (split; reflexivity).
  destruct (nonEmpty (trim data)) eqn:Et; [split; reflexivity|].
  destruct (includes data newline || includes data (js " ")) eqn:Ei;
    [|split; reflexivity].
  cbn [flat_map wrapped existsb]. rewrite Et, Ei. split; reflexivity.
Qed.

(** X9.  Wrapping the text of a container leaves no text of its own in it,
    so that [hasDirectTextNode] no longer holds, and wrapping a second
    time, with whatever tag, changes nothing more. *)
Theorem wrapTextContent_settles (first second : jsstring) (div : DNode) :
  hasDirectTextNode (wrapTextContent first div) = false
  /\ wrapTextContent second (wrapTextContent first div)
     = wrapTextContent first div.
Proof.
  destruct div as [data|data|name attrs children]; try (split; reflexivity).
  rewrite !wrapTextContent_children. cbn [hasDirectTextNode].
  induction children as [|c children [IH1 IH2]]; [split; reflexivity|].
  cbn [flat_map]. destruct (wrapped_again first second c) as [Hc1 Hc2].
  split.
  - rewrite existsb_app, Hc2, IH1. reflexivity.
  - injection IH2 as IH2. now rewrite flat_map_app, Hc1, IH2.
Qed.

(** The containers that the fixer rewrites: those with text of their own,
    as the document had them when the fixer began. *)
Definition needsWrap (d : Document) (p : Path) : bool :=
  match getAt d p with
  | Some div => hasDirectTextNode div
  | None => false
  end.

Lemma unwrappedStep_cases (snapshot : Document) (st : Loop) (p : Path) :
  (needsWrap snapshot p = false -> unwrappedStep snapshot st p = st)
  /\ (needsWrap snapshot p = true ->
      fixCount (unwrappedStep snapshot st p) = S (fixCount st)).
Proof.
  unfold needsWrap, unwrappedStep.
  destruct (getAt snapshot p) as [div|]; [|split; [reflexivity|discriminate]].
  destruct (hasDirectTextNode div); split; try discriminate; reflexivity.
Qed.

Lemma unwrappedSteps_count (snapshot : Document) (ps : list Path) :
  forall st,
    fixCount (fold_left (unwrappedStep snapshot) ps st)
    = (fixCount st + length (filter (needsWrap snapshot) ps))%nat
    /\ (filter (needsWrap snapshot) ps = [] ->
        fold_left (unwrappedStep snapshot) ps st = st).
Proof.
  induction ps as [|p ps IH]; intros st; cbn [fold_left filter].
  - split; [simpl; lia|reflexivity].
  - destruct (unwrappedStep_cases snapshot st p) as [Hno Hyes].
    destruct (needsWrap snapshot p).
    + split; [|discriminate].
      rewrite (proj1 (IH _)), Hyes by reflexivity. cbn [length]. lia.
    + rewrite Hno by reflexivity. apply IH.
Qed.

(** X10.  The fixer of unwrapped text counts the containers that had text
    of their own when it began, nested ones included, and reports a fix
    exactly when there is one; when there is none it returns the document
    as it was. *)
Theorem unwrappedFix_reports (d : Document) :
  let divs := pathsFrom (str_eqb (js "div")) d 0 in
  let count := length (filter (needsWrap d) divs) in
  exists fixer,
    unwrappedFix d = Returned fixer
    /\ fixed fixer = (0 <? count)%nat
    /\ (count = 0%nat -> document fixer = d /\ fixDescription fixer = [])
    /\ ((0 < count)%nat ->
        fixDescription fixer
        = js "为" ++ natToString count
          ++ js "个DIV元素的文本添加了标签包裹").
Proof.
  intros divs count. unfold unwrappedFix. fold divs.
  destruct (unwrappedSteps_count d divs
              {| doc := d; replaced := []; fixCount := 0 |}) as [Hc Hsame].
  cbn [fixCount] in Hc. fold count in Hc. rewrite Hc. cbn [Nat.add].
  destruct (0 <? count)%nat eqn:E; eexists; (split; [reflexivity|]);
    cbn [fixed document fixDescription].
  - split; [reflexivity|]. apply Nat.ltb_lt in E. split; [lia|reflexivity].
  - split; [reflexivity|]. apply Nat.ltb_ge in E. split; [|lia].
    intros _. split; [|reflexivity].
    rewrite Hsame; [reflexivity|].
    unfold count in E. destruct (filter (needsWrap d) divs);
      [reflexivity|simpl in E; lia].
Qed.

End UnwrappedFacts.

(** ** More on the gradient fixer (auto_fix.js) *)

Module GradientMoreFacts.
Import AutoFix GradientFacts.

Lemma includes_tail (t s p r : jsstring) :
  tailOf t s -> t = p ++ r -> includes s p = true.
Proof.
  intros [before ->] ->. apply includes_found.
Qed.

Lemma firstn_prefix (n : nat) (a : jsstring) :
  exists r, a = firstn n a ++ r.
Proof. exists (skipn n a). now rewrite firstn_skipn. Qed.

(** X11.  The colour that replaces a gradient is taken from the text of the
    gradient as it stands there, or it is the default [#000000]; it is
    never empty. *)
Theorem extractFirstColor_from_text (gradientString : jsstring) :
  (includes gradientString (extractFirstColor gradientString) = true
   \/ extractFirstColor gradientString = js "#000000")
  /\ extractFirstColor gradientString <> [].
Proof.
  unfold extractFirstColor.
  destruct (search hexColorAt gradientString) as [h|] eqn:Eh.
  { destruct (search_tail _ _ _ Eh) as [t [Ht Hh]].
    unfold hexColorAt in Hh.
    destruct (strip (js "#") t) as [s1|] eqn:E1; [|discriminate].
    apply strip_Some in E1.
    destruct (3 <=? length (firstn 6 (fst (span isHexDigit s1))))%nat;
      [|discriminate].
    injection Hh as <-. split; [left|discriminate].
    destruct (span_split isHexDigit s1) as [Es1 _].
    destruct (firstn_prefix 6 (fst (span isHexDigit s1))) as [r Er].
    apply (includes_tail t gradientString _
             (r ++ snd (span isHexDigit s1)) Ht).
    rewrite E1, Es1 at 1. rewrite Er at 1.
    change (js "#") with [ch "#"]. cbn [app]. now rewrite <- app_assoc. }
  destruct (search rgbColorAt gradientString) as [c|] eqn:Er.
  { destruct (search_tail _ _ _ Er) as [t [Ht Hc]].
    destruct (rgbColorAt_shape t c Hc) as [inner [rest [Hshape [Et _]]]].
    split; [left; now apply (includes_tail t gradientString c rest)|].
    destruct Hshape as [-> | ->]; discriminate. }
  destruct (searchColorName false gradientString) as [nm|] eqn:En.
  { destruct (searchColorName_found _ _ _ En) as [t Ht].
    split.
    - (* the name is where the search found it *)
      left. clear - En. revert En. generalize false.
      induction gradientString as [|c s IH]; intros prev; [discriminate|].
      cbn [searchColorName].
      destruct (if prev then None else colorNameAt (c :: s)) as [found|] eqn:E.
      + intros Hn; injection Hn as <-. destruct prev; [discriminate|].
        unfold colorNameAt in E. revert E. generalize colorNames.
        induction l as [|name names IHn]; [discriminate|].
        destruct (str_eqb (asciiLower (firstn (length name) (c :: s))) name
                  && match skipn (length name) (c :: s) with
                     | [] => true
                     | d :: _ => negb (isWord d)
                     end).
        * intros Hn; injection Hn as <-.
          destruct (firstn_prefix (length name) (c :: s)) as [r Er'].
          apply (includes_tail (c :: s) (c :: s) _ r); [apply tailOf_refl|].
          exact Er'.
        * exact IHn.
      + intros Hn. apply IH in Hn. unfold includes in *.
        cbn [search].
        destruct (strip nm (c :: s)); [reflexivity|exact Hn].
    - apply colorNameAt_lower in Ht. intros ->.
      unfold colorNames in Ht. cbn [map In asciiLower] in Ht.
      repeat (destruct Ht as [Ht|Ht]; [discriminate Ht|]). contradiction. }
  split; [now right|discriminate].
Qed.

Lemma strip_longer (p q s : jsstring) :
  strip (p ++ q) s <> None -> strip p s <> None.
Proof.
  destruct (strip (p ++ q) s) as [r|] eqn:E; [|intros H; now elim H].
  intros _. apply strip_Some in E. rewrite <- app_assoc in E.
  rewrite E, strip_app. discriminate.
Qed.

Lemma noMatch_without (sub : jsstring) {A} (m : jsstring -> option A)
    (s : jsstring) :
  (forall t, m t <> None -> strip sub t <> None) ->
  includes s sub = false -> noMatch m s.
Proof.
  intros Hm Hs t Ht. destruct (m t) eqn:E; [|reflexivity].
  exfalso. destruct (strip sub t) as [r|] eqn:Er.
  - apply strip_Some in Er. rewrite (includes_tail t s sub r Ht Er) in Hs.
    discriminate.
  - apply (Hm t); [congruence|exact Er].
Qed.

(** A style sheet in which nothing is declared with [background:] and no
    [url(] is named is left as it is. *)
Lemma fixCss_nothing_to_fix (cssContent : jsstring) :
  includes cssContent (js "background:") = false ->
  includes cssContent (js "url(") = false ->
  fixCss cssContent = cssContent.
Proof.
  intros Hb Hu.
  assert (Hg : forall name, noMatch (gradientAt name) cssContent).
  { intros name. apply (noMatch_without (js "background:")); [|exact Hb].
    intros t Ht. apply gradientAt_test in Ht as [s1 [s2 [E _]]].
    congruence. }
  apply fixCss_noMatch; try apply Hg.
  intros t Ht. destruct (backgroundImageAt t) eqn:E; [|reflexivity].
  exfalso.
  assert (E' : backgroundImageAt t <> None) by congruence.
  apply backgroundImageAt_test in E' as [s1 [s2 [E1 [E2 _]]]].
  apply strip_Some in E1, E2.
  destruct (span_split isSpace s1) as [Es1 _].
  fold (dropWhile isSpace s1) in Es1. rewrite E2 in Es1.
  destruct Ht as [before ->].
  rewrite E1, Es1 in Hu.
  replace (before ++ js "background-image:"
           ++ fst (span isSpace s1) ++ js "url(" ++ s2)
    with ((before ++ js "background-image:" ++ fst (span isSpace s1))
          ++ js "url(" ++ s2) in Hu
    by now rewrite <- !app_assoc.
  rewrite includes_found in Hu. discriminate.
Qed.

(** X12.  The gradient fixer rewrites only declarations that begin with
    [background:] or name a [url(]: on a document whose style sheets hold
    neither, it changes nothing and reports that nothing was fixed -
    also when its [canFix] had answered [true], as it does for markup that
    sets a gradient with [background-image]. *)
Theorem gradientFix_leaves_other_declarations (d : Document) :
  (forall p, In p (styleElements d) ->
             includes (textContentAt d p) (js "background:") = false
             /\ includes (textContentAt d p) (js "url(") = false) ->
  gradientFix d
  = Returned {| document := d; fixed := false; fixDescription := [] |}.
Proof.
  intros Hclean. unfold gradientFix.
  rewrite gradientSteps_clean; [reflexivity|].
  intros p Hp. destruct (Hclean p Hp). now apply fixCss_nothing_to_fix.
Qed.

Lemma gradientFix_leaves_other_declarations_witness :
  gradientCanFix []
    (js "<style>div{background-image: linear-gradient(red, blue);}</style>")
  = true
  /\ gradientFix
       (sheetParse (js "div{background-image: linear-gradient(red, blue);}"))
     = Returned
         {| document :=
              sheetParse
                (js "div{background-image: linear-gradient(red, blue);}");
            fixed := false;
            fixDescription := [] |}.
Proof.
  split; [vm_compute; reflexivity|].
  apply gradientFix_leaves_other_declarations.
  intros p Hp. vm_compute in Hp. destruct Hp as [<-|[]].
  split; vm_compute; reflexivity.
Defined.

End GradientMoreFacts.

(** ** The rewriting of one declaration (auto_fix.js) *)

Module GradientRewriteFacts.
Import AutoFix GradientFacts.

Lemma without_forall (c : char) (s : jsstring) :
  without c s = true -> forallb (notChar c) s = true.
Proof.
  unfold without, notChar, char_eqb. intros H.
  apply forallb_forall. intros d Hd.
  apply (proj1 (forallb_forall _ _) H) in Hd. exact Hd.
Qed.

Lemma firstn_all_app (a b : jsstring) :
  firstn (length (a ++ b) - length b) (a ++ b) = a.
Proof.
  rewrite length_app.
  replace (length a + length b - length b)%nat with (length a) by lia.
  now rewrite firstn_app, Nat.sub_diag, firstn_all, app_nil_r.
Qed.

(** A whole declaration of a gradient is one match of the pattern. *)
Lemma gradientAt_declaration (name spaces body rest : jsstring) :
  forallb isSpace spaces = true ->
  match name with [] => False | c :: _ => isSpace c = false end ->
  without semicolon body = true -> body <> [] ->
  gradientAt name
    ((js "background:" ++ spaces ++ (name ++ js "-gradient(") ++ body
        ++ js ");") ++ rest)
  = Some (js "background:" ++ spaces ++ (name ++ js "-gradient(") ++ body
            ++ js ");", rest).
Proof.
  intros Hsp Hname Hbody Hne.
  set (declaration := js "background:" ++ spaces
                        ++ (name ++ js "-gradient(") ++ body ++ js ");").
  unfold gradientAt.
  assert (E1 : strip (js "background:") (declaration ++ rest)
               = Some (spaces ++ (name ++ js "-gradient(")
                         ++ (body ++ [ch ")"]) ++ semicolon :: rest)).
  { apply strip_Some. unfold declaration.
    change (js ");") with ([ch ")"] ++ [semicolon]).
    repeat (rewrite <- app_assoc; cbn [app]). reflexivity. }
  rewrite E1.
  rewrite dropWhile_app; [|exact Hsp|destruct name; [contradiction|exact Hname]].
  rewrite strip_app.
  rewrite span_app; [| |reflexivity].
  - change (strip (js ";") (semicolon :: rest)) with (Some rest).
    change (match rev (body ++ [ch ")"]) with
            | close :: _ :: _ =>
                if char_eqb close (ch ")")
                then Some (firstn (length (declaration ++ rest) - length rest)
                             (declaration ++ rest), rest)
                else None
            | _ => None
            end
            = Some (declaration, rest)).
    rewrite rev_app_distr. cbn [rev app].
    destruct (rev body) as [|z r] eqn:Er.
    + apply (f_equal (@rev _)) in Er. rewrite rev_involutive in Er.
      contradiction.
    + change (char_eqb (ch ")") (ch ")")) with true. cbv iota.
      now rewrite firstn_all_app.
  - rewrite forallb_app. apply andb_true_iff.
    split; [exact (without_forall _ _ Hbody)|reflexivity].
Qed.

(** X13.  What the gradient passes do to a declaration: a [background:]
    declaration of a linear (radial) gradient, whose text holds no
    semicolon before its end, is replaced as a whole by a [background]
    declaration of the first colour found in it, and the pass goes on with
    the text after it. *)
Theorem gradient_declaration_replaced (spaces body rest : jsstring) :
  forallb isSpace spaces = true ->
  without semicolon body = true ->
  body <> [] ->
  let declaration name :=
    js "background:" ++ spaces ++ (name ++ js "-gradient(") ++ body
      ++ js ");" in
  fixLinearGradients (declaration (js "linear") ++ rest)
  = js "background: " ++ extractFirstColor (declaration (js "linear"))
      ++ js ";" ++ fixLinearGradients rest
  /\ fixRadialGradients (declaration (js "radial") ++ rest)
     = js "background: " ++ extractFirstColor (declaration (js "radial"))
         ++ js ";" ++ fixRadialGradients rest.
Proof.
  intros Hsp Hbody Hne declaration.
  assert (Hpass : forall name,
             match name with [] => False | c :: _ => isSpace c = false end ->
             replaceAll (gradientReplacer name) (declaration name ++ rest) 0
             = js "background: " ++ extractFirstColor (declaration name)
                 ++ js ";" ++ replaceAll (gradientReplacer name) rest 0).
  { intros name Hname.
    rewrite (replaceAll_hit (gradientReplacer name) (declaration name) rest
               (js "background: " ++ extractFirstColor (declaration name)
                  ++ js ";")).
    - now rewrite <- !app_assoc.
    - discriminate.
    - unfold gradientReplacer, declaration.
      now rewrite gradientAt_declaration. }
  split; apply Hpass; reflexivity.
Qed.

Lemma gradient_declaration_replaced_witness :
  fixLinearGradients
    ((js "background:" ++ js " " ++ (js "linear" ++ js "-gradient(")
        ++ js "135deg, #667eea 0%, #764ba2 100%" ++ js ");")
       ++ js " color: white;")
  = js "background: "
      ++ extractFirstColor
           (js "background:" ++ js " " ++ (js "linear" ++ js "-gradient(")
              ++ js "135deg, #667eea 0%, #764ba2 100%" ++ js ");")
      ++ js ";" ++ fixLinearGradients (js " color: white;")
  /\ fixRadialGradients
       ((js "background:" ++ js " " ++ (js "radial" ++ js "-gradient(")
           ++ js "135deg, #667eea 0%, #764ba2 100%" ++ js ");")
          ++ js " color: white;")
     = js "background: "
         ++ extractFirstColor
              (js "background:" ++ js " " ++ (js "radial" ++ js "-gradient(")
                 ++ js "135deg, #667eea 0%, #764ba2 100%" ++ js ");")
         ++ js ";" ++ fixRadialGradients (js " color: white;").
Proof.
  apply (gradient_declaration_replaced (js " ")
           (js "135deg, #667eea 0%, #764ba2 100%") (js " color: white;"));
    [reflexivity|reflexivity|discriminate].
Defined.

(** A whole declaration of a background image is one match. *)
Lemma backgroundImageAt_declaration (spaces body rest : jsstring) :
  forallb isSpace spaces = true ->
  without (ch ")") body = true ->
  backgroundImageAt
    ((js "background-image:" ++ spaces ++ js "url(" ++ body ++ js ");")
       ++ rest)
  = Some rest.
Proof.
  intros Hsp Hbody. unfold backgroundImageAt.
  assert (E1 : strip (js "background-image:")
                 ((js "background-image:" ++ spaces ++ js "url(" ++ body
                     ++ js ");") ++ rest)
               = Some (spaces ++ js "url(" ++ body ++ js ");" ++ rest)).
  { apply strip_Some. now rewrite <- !app_assoc. }
  rewrite E1.
  rewrite dropWhile_app; [|exact Hsp|reflexivity].
  rewrite strip_app.
  rewrite dropWhile_app;
    [apply strip_app|now apply without_forall|reflexivity].
Qed.

(** X14.  What the third pass does to a declaration of a background
    image: [background-image: url(...);], whatever the address as long as
    it holds no closing parenthesis, becomes the light grey
    [background-color: #f5f5f5;], and the pass goes on with the text after
    it. *)
Theorem background_image_replaced (spaces body rest : jsstring) :
  forallb isSpace spaces = true ->
  without (ch ")") body = true ->
  fixBackgroundImages
    ((js "background-image:" ++ spaces ++ js "url(" ++ body ++ js ");")
       ++ rest)
  = js "background-color: #f5f5f5;" ++ fixBackgroundImages rest.
Proof.
  intros Hsp Hbody. unfold fixBackgroundImages.
  apply replaceAll_hit; [discriminate|].
  now rewrite backgroundImageAt_declaration.
Qed.

Lemma background_image_replaced_witness :
  fixBackgroundImages
    ((js "background-image:" ++ js " " ++ js "url(" ++ js "photo.png"
        ++ js ");") ++ js " color: white;")
  = js "background-color: #f5f5f5;" ++ fixBackgroundImages (js " color: white;").
Proof.
  apply (background_image_replaced (js " ") (js "photo.png")
           (js " color: white;")); reflexivity.
Defined.

End GradientRewriteFacts.

(** ** More on colours (html2pptx.js) *)

Module ColourMoreFacts.
Import Html2Pptx.

(** A string of decimal digits. *)
Definition decimal (s : jsstring) : Prop :=
  s <> [] /\ forallb isDigit s = true.

(** Two hexadecimal digits. *)
Definition hexByte (n : N) : jsstring :=
  [hexDigit (n / 16); hexDigit (n mod 16)].

Lemma bytes_checked :
  forallb (fun n => str_eqb (padStart2 (toHex n)) (hexByte n)
                    && (hexDigitsVal (hexByte n) =? n)%N)
          (map N.of_nat (seq 0 256)) = true.
Proof. vm_compute. reflexivity. Qed.

Lemma byte_hex (n : N) :
  (n < 256)%N ->
  padStart2 (toHex n) = hexByte n /\ hexDigitsVal (hexByte n) = n.
Proof.
  intros Hn.
  assert (Hin : In n (map N.of_nat (seq 0 256))).
  { apply in_map_iff. exists (N.to_nat n). split; [apply N2Nat.id|].
    apply in_seq. lia. }
  pose proof (proj1 (forallb_forall _ _) bytes_checked n Hin) as H.
  cbv beta in H. apply andb_true_iff in H as [H1 H2].
  apply str_eqb_spec in H1. apply N.eqb_eq in H2. now split.
Qed.

Lemma span_all_digits (s : jsstring) :
  forallb isDigit s = true -> span isDigit s = (s, []).
Proof.
  intros H. rewrite <- (app_nil_r s) at 1. now apply span_app.
Qed.

Lemma parseInt_decimal (s : jsstring) :
  decimal s -> parseInt s = Num (inject_Z (Z.of_N (digitsVal s))).
Proof.
  intros [Hne Hd]. unfold parseInt.
  assert (Hhead : match s with [] => True | c :: _ => isSpace c = false end).
  { rewrite <- (app_nil_r s). now apply head_not_space. }
  unfold trimStart. rewrite (dropWhile_fixed isSpace s Hhead).
  destruct s as [|c s]; [contradiction|].
  cbn [forallb] in Hd. apply andb_true_iff in Hd as [Hc Hs].
  apply isDigit_bounds in Hc.
  destruct (N.eqb_spec c 45) as [->|_]; [lia|].
  destruct (N.eqb_spec c 43) as [->|_]; [lia|].
  assert (Hspan : fst (span isDigit (c :: s)) = c :: s).
  { rewrite span_all_digits; [reflexivity|].
    cbn [forallb]. apply andb_true_iff. split; [|exact Hs].
    now apply isDigit_bounds. }
  destruct s as [|x s]; [now rewrite Hspan|].
  cbn [forallb] in Hs. apply andb_true_iff in Hs as [Hx _].
  apply isDigit_bounds in Hx.
  destruct (N.eqb_spec x 120) as [->|_]; [lia|].
  destruct (N.eqb_spec x 88) as [->|_]; [lia|].
  rewrite andb_false_r. now rewrite Hspan.
Qed.

Lemma hex2_decimal (s : jsstring) :
  decimal s -> hex2 s = padStart2 (toHex (digitsVal s)).
Proof.
  intros Hs. unfold hex2. rewrite (parseInt_decimal s Hs).
  rewrite Qfloor_Z, N2Z.id. reflexivity.
Qed.

(** An [rgb(...)] colour as the browser serialises it. *)
Definition rgbColour (r g b : jsstring) : jsstring :=
  js "rgb(" ++ r ++ js ", " ++ g ++ js ", " ++ b ++ js ")".

Lemma rgbAt_rgbColour (r g b : jsstring) :
  decimal r -> decimal g -> decimal b ->
  rgbAt (rgbColour r g b) = Some [r; g; b].
Proof.
  intros [Hr Hr'] [Hg Hg'] [Hb Hb'].
  unfold rgbColour, rgbAt.
  change (js "rgb(") with (js "rgb" ++ js "(").
  rewrite <- app_assoc, strip_app.
  assert (Hopt : forall z, optChar (ch "a") (js "(" ++ z) = js "(" ++ z)
    by reflexivity.
  rewrite Hopt, strip_app.
  change (js ", ") with ([44%N] ++ [32%N]). change (js ")") with [41%N].
  change (js ",") with [44%N].
  rewrite digits1_app by (auto; reflexivity).
  repeat rewrite <- app_assoc. rewrite strip_app.
  rewrite (dropWhile_app isSpace [32%N]) by
    (try reflexivity; now apply head_not_space).
  rewrite digits1_app by (auto; reflexivity).
  repeat rewrite <- app_assoc. rewrite strip_app.
  rewrite (dropWhile_app isSpace [32%N]) by
    (try reflexivity; now apply head_not_space).
  rewrite digits1_app by (auto; reflexivity).
  reflexivity.
Qed.

Lemma rgbColour_not_sentinel (r g b : jsstring) :
  str_eqb (rgbColour r g b) (js "rgba(0, 0, 0, 0)") = false
  /\ str_eqb (rgbColour r g b) (js "transparent") = false.
Proof. split; vm_compute; reflexivity. Qed.

(** X15.  For a colour [rgb(r, g, b)] as the browser serialises it, with
    components from 0 to 255, [rgbToHex] returns six lower-case hexadecimal
    digits, two for each component in order, and reading them back as
    hexadecimal numbers gives the components again. *)
Theorem rgbToHex_round_trip (r g b : jsstring) :
  decimal r -> decimal g -> decimal b ->
  (digitsVal r < 256)%N -> (digitsVal g < 256)%N -> (digitsVal b < 256)%N ->
  rgbToHex (rgbColour r g b)
  = hexByte (digitsVal r) ++ hexByte (digitsVal g) ++ hexByte (digitsVal b)
  /\ map hexDigitsVal
         [hexByte (digitsVal r); hexByte (digitsVal g); hexByte (digitsVal b)]
     = [digitsVal r; digitsVal g; digitsVal b].
Proof.
  intros Hr Hg Hb Vr Vg Vb.
  destruct (byte_hex _ Vr) as [Pr Rr], (byte_hex _ Vg) as [Pg Rg],
    (byte_hex _ Vb) as [Pb Rb].
  split; [|cbn [map]; now rewrite Rr, Rg, Rb].
  unfold rgbToHex.
  destruct (rgbColour_not_sentinel r g b) as [-> ->]. cbn [orb].
  assert (Hs : search rgbAt (rgbColour r g b) = Some [r; g; b]).
  { pose proof (rgbAt_rgbColour r g b Hr Hg Hb) as E.
    destruct (rgbColour r g b); cbn [search]; now rewrite E. }
  rewrite Hs. cbn [map concat].
  rewrite !hex2_decimal by assumption.
  rewrite Pr, Pg, Pb. now rewrite app_nil_r.
Qed.

Lemma rgbToHex_round_trip_witness :
  rgbToHex (rgbColour (js "255") (js "128") (js "7"))
  = hexByte (digitsVal (js "255")) ++ hexByte (digitsVal (js "128"))
    ++ hexByte (digitsVal (js "7"))
  /\ map hexDigitsVal
         [hexByte (digitsVal (js "255")); hexByte (digitsVal (js "128"));
          hexByte (digitsVal (js "7"))]
     = [digitsVal (js "255"); digitsVal (js "128"); digitsVal (js "7")].
Proof.
  apply rgbToHex_round_trip;
    try (split; [discriminate|reflexivity]); reflexivity.
Defined.

Lemma search_noMatch {A} (m : jsstring -> option A) (s : jsstring) :
  GradientFacts.noMatch m s -> search m s = None.
Proof.
  intros Hn. destruct (search m s) as [r|] eqn:E; [|reflexivity].
  destruct (GradientFacts.search_tail _ _ _ E) as [t [Ht Hr]].
  rewrite (Hn t Ht) in Hr. discriminate.
Qed.

(** X16.  Without the text [rgb] in it, a colour string is read as white
    and carries no transparency: named colours and hexadecimal colours are
    not understood. *)
Theorem colour_without_rgb (rgbStr : jsstring) :
  includes rgbStr (js "rgb") = false ->
  rgbToHex rgbStr = js "FFFFFF" /\ extractAlpha rgbStr = None.
Proof.
  intros Hno. split.
  - unfold rgbToHex. destruct (_ || _); [reflexivity|].
    rewrite search_noMatch; [reflexivity|].
    apply (GradientMoreFacts.noMatch_without (js "rgb")); [|exact Hno].
    intros t Ht. unfold rgbAt in Ht.
    destruct (strip (js "rgb") t); [discriminate|now elim Ht].
  - unfold extractAlpha. rewrite search_noMatch; [reflexivity|].
    apply (GradientMoreFacts.noMatch_without (js "rgb")); [|exact Hno].
    intros t Ht. apply (GradientMoreFacts.strip_longer (js "rgb") (js "a(")).
    unfold rgbaAt in Ht.
    change (js "rgb" ++ js "a(") with (js "rgba(").
    destruct (strip (js "rgba(") t); [discriminate|now elim Ht].
Qed.

Lemma colour_without_rgb_witness :
  rgbToHex (js "red") = js "FFFFFF" /\ extractAlpha (js "red") = None.
Proof. apply colour_without_rgb. reflexivity. Defined.

Lemma search_head {A} (m : jsstring -> option A) (s : jsstring) (r : A) :
  m s = Some r -> search m s = Some r.
Proof. intros E. destruct s; cbn [search]; now rewrite E. Qed.

(** X17.  The transparency of a colour [rgba(r, g, b, alpha)] with an
    alpha from 0 to 1 is a whole number from 0 to 100; it is 0 for the
    alpha 1 and 100 for the alpha 0. *)
Theorem extractAlpha_range (r g b alpha : jsstring) (a : Q) :
  decimal r -> decimal g -> decimal b ->
  alpha <> [] -> forallb isDigitOrDot alpha = true ->
  parseFloat alpha = Num a -> 0 <= a -> a <= 1 ->
  exists t : Z,
    extractAlpha (ColourFacts.rgbaColour r g b alpha) = Some (Num (inject_Z t))
    /\ (0 <= t <= 100)%Z
    /\ (a == 1 -> t = 0%Z) /\ (a == 0 -> t = 100%Z).
Proof.
  intros [Hr Hr'] [Hg Hg'] [Hb Hb'] Ha Ha' Hp H0 H1.
  exists (round (dmul (dsub 1 a) 100)). split.
  - unfold extractAlpha.
    rewrite (search_head _ _ _
               (ColourFacts.rgbaAt_rgbaColour r g b alpha
                  Hr Hr' Hg Hg' Hb Hb' Ha Ha')).
    now rewrite Hp.
  - assert (Hs0 : 0 <= dsub 1 a) by (apply rnd_nonneg; lra).
    assert (Hs1 : dsub 1 a <= 1).
    { apply (rnd_le_int (1 - a) 1);
        [lra|change (inject_Z 1) with 1; lra|reflexivity]. }
    assert (Hm0 : 0 <= dmul (dsub 1 a) 100) by (apply rnd_nonneg; lra).
    assert (Hm1 : dmul (dsub 1 a) 100 <= 100).
    { apply (rnd_le_int (dsub 1 a * 100) 100);
        [lra|change (inject_Z 100) with 100; lra|reflexivity]. }
    unfold round. split; [split|split].
    + apply Z.le_trans with (Qfloor 0); [discriminate|].
      apply Qfloor_resp_le. lra.
    + apply Z.le_trans with (Qfloor (201 # 2)); [|discriminate].
      apply Qfloor_resp_le. lra.
    + intros E.
      assert (Es : dsub 1 a = 0).
      { unfold dsub. rewrite (rnd_comp (1 - a) 0) by (rewrite E; ring).
        reflexivity. }
      rewrite Es. reflexivity.
    + intros E.
      assert (Es : dsub 1 a = 1).
      { unfold dsub. rewrite (rnd_comp (1 - a) (inject_Z 1))
          by (rewrite E; reflexivity).
        now rewrite rnd_int. }
      rewrite Es. unfold dmul.
      rewrite (rnd_comp (1 * 100) (inject_Z 100)) by reflexivity.
      now rewrite rnd_int.
Qed.

Lemma extractAlpha_range_witness :
  exists t : Z,
    extractAlpha (ColourFacts.rgbaColour (js "10") (js "20") (js "30")
                                         (js "0.25"))
    = Some (Num (inject_Z t))
    /\ (0 <= t <= 100)%Z
    /\ ((1 # 4) == 1 -> t = 0%Z) /\ ((1 # 4) == 0 -> t = 100%Z).
Proof.
  apply extractAlpha_range;
    try (split; [discriminate|reflexivity]);
    try discriminate; vm_compute; reflexivity.
Defined.

End ColourMoreFacts.

(** ** Positions and text boxes (html2pptx.js) *)

Module PositionFacts.
Import Html2Pptx.

(** X18.  Whatever the rotation, the box that [getPositionAndSize] returns
    has the centre of the rectangle the browser reports; for a rotation of
    90 or 270 degrees it is that rectangle with width and height swapped,
    and without rotation it is the rectangle itself. *)
Theorem getPositionAndSize_keeps_centre (offsetWidth offsetHeight : Q)
    (rect : DOMRect) (rotation : option number) :
  let box := getPositionAndSize offsetWidth offsetHeight rect rotation in
  x box + w box / 2 == rectLeft rect + rectWidth rect / 2
  /\ y box + h box / 2 == rectTop rect + rectHeight rect / 2
  /\ (rotation = Some (Num 90) \/ rotation = Some (Num 270) ->
      w box = rectHeight rect /\ h box = rectWidth rect)
  /\ (rotation = None ->
      x box = rectLeft rect /\ y box = rectTop rect
      /\ w box = rectWidth rect /\ h box = rectHeight rect).
Proof.
  unfold getPositionAndSize.
  destruct rotation as [[|a]|]; cbv zeta.
  - cbn [x y w h]. split; [field|]. split; [field|].
    split; [intros [E|E]; discriminate E|discriminate].
  - destruct (Qeq_bool a 90 || Qeq_bool a 270) eqn:E; cbn [x y w h].
    + split; [field|]. split; [field|]. split; [now split|discriminate].
    + split; [field|]. split; [field|]. split; [|discriminate].
      intros [E'|E']; injection E' as ->; discriminate E.
  - cbn [x y w h]. split; [field|]. split; [field|].
    split; [intros [E|E]; discriminate E|now repeat split].
Qed.

(** X19.  A text box is widened in [addElements] exactly when it holds a
    single line: its height is at most one and a half times the line
    height, which is the line spacing or, without one, 1.2 times the font
    size, the products being those of doubles.  The widening adds two
    percent to the width and keeps the edge the text is aligned to: the
    centre for centred text, the right edge for right-aligned text, the
    left edge otherwise.  A box that holds more than one line, or whose
    line height is not a number, is left as it is. *)
Theorem adjustTextBox_keeps_alignment (position : Position)
    (lineSpacing : option number) (fontSize : number) (align : jsstring) :
  let '(adjustedX, adjustedW) :=
    adjustTextBox position lineSpacing fontSize align in
  (isSingleLine position lineSpacing fontSize = true ->
   adjustedW == w position * (102 # 100)
   /\ (align = js "center" ->
       adjustedX + adjustedW / 2 == x position + w position / 2)
   /\ (align = js "right" ->
       adjustedX + adjustedW == x position + w position)
   /\ (align <> js "center" -> align <> js "right" ->
       adjustedX = x position))
  /\ (isSingleLine position lineSpacing fontSize = false ->
      adjustedX = x position /\ adjustedW = w position)
  /\ (forall l, lineSpacing = Some (Num l) -> ~ l == 0 ->
                (isSingleLine position lineSpacing fontSize = true
                 <-> h position <= dmul l (15 # 10)))
  /\ (forall f,
         lineSpacing = None \/ lineSpacing = Some NaN
         \/ lineSpacing = Some (Num 0) ->
         fontSize = Num f ->
         (isSingleLine position lineSpacing fontSize = true
          <-> h position <= dmul (dmul f (rnd (12 # 10))) (15 # 10)))
  /\ (lineSpacing = None \/ lineSpacing = Some NaN
      \/ lineSpacing = Some (Num 0) ->
      fontSize = NaN ->
      isSingleLine position lineSpacing fontSize = false).
Proof.
  assert (Hwhen :
    (forall l, lineSpacing = Some (Num l) -> ~ l == 0 ->
               (isSingleLine position lineSpacing fontSize = true
                <-> h position <= dmul l (15 # 10)))
    /\ (forall f,
           lineSpacing = None \/ lineSpacing = Some NaN
           \/ lineSpacing = Some (Num 0) ->
           fontSize = Num f ->
           (isSingleLine position lineSpacing fontSize = true
            <-> h position <= dmul (dmul f (rnd (12 # 10))) (15 # 10)))
    /\ (lineSpacing = None \/ lineSpacing = Some NaN
        \/ lineSpacing = Some (Num 0) ->
        fontSize = NaN ->
        isSingleLine position lineSpacing fontSize = false)).
  { unfold isSingleLine, lineHeightOf. split; [|split].
    - intros l -> Hl.
      destruct (Qeq_bool l 0) eqn:E0;
        [apply Qeq_bool_eq in E0; contradiction|].
      apply Qle_bool_iff.
    - intros f Hs ->.
      destruct Hs as [Hs|[Hs|Hs]]; rewrite Hs; cbn [nmap Qeq_bool];
        apply Qle_bool_iff.
    - intros Hs ->.
      destruct Hs as [Hs|[Hs|Hs]]; rewrite Hs; reflexivity. }
  unfold adjustTextBox.
  destruct (isSingleLine position lineSpacing fontSize) eqn:Es.
  - destruct (str_eqb align (js "center")) eqn:Ec;
      [|destruct (str_eqb align (js "right")) eqn:Er].
    + apply str_eqb_spec in Ec. subst align.
      split; [|split; [discriminate|exact Hwhen]].
      intros _. split; [field|]. split; [intros _; field|].
      split; [discriminate|]. intros E. now elim E.
    + apply str_eqb_spec in Er. subst align.
      split; [|split; [discriminate|exact Hwhen]].
      intros _. split; [field|]. split; [discriminate|].
      split; [intros _; field|]. intros _ E. now elim E.
    + split; [|split; [discriminate|exact Hwhen]].
      intros _. split; [field|].
      split; [intros ->; discriminate Ec|].
      split; [intros ->; discriminate Er|]. reflexivity.
  - split; [discriminate|]. split; [now split|exact Hwhen].
Qed.

End PositionFacts.

(** ** The two validations of the slide (html2pptx.js) *)

Module ValidationFacts.
Import Html2Pptx.

Lemma Qltb_false (a b : Q) : Qltb a b = false <-> b <= a.
Proof.
  unfold Qltb. rewrite negb_false_iff. apply Qle_bool_iff.
Qed.

(** X20.  The check of the dimensions passes exactly when the presentation
    has no layout or when the body differs from the layout by at most a
    tenth of an inch in width and in height, the sizes in inches, their
    differences and the tenth being those of doubles; it never reports more
    than one error.  A body of 96 pixels on a layout of 1005840 EMU, a
    tenth of an inch apart in exact arithmetic, is reported. *)
Theorem validateDimensions_tolerance `{Host} {Shadow}
    (bodyDimensions : BodyBox) (pres : Presentation Shadow) :
  (validateDimensions bodyDimensions pres = []
   <-> match presLayout pres with
       | None => True
       | Some layout =>
           Qabs (dsub (ddiv (layoutWidthEmu layout) EMU_PER_IN)
                      (ddiv (width bodyDimensions) PX_PER_IN))
           <= rnd (1 # 10)
           /\ Qabs (dsub (ddiv (layoutHeightEmu layout) EMU_PER_IN)
                         (ddiv (height bodyDimensions) PX_PER_IN))
              <= rnd (1 # 10)
       end)
  /\ (length (validateDimensions bodyDimensions pres) <= 1)%nat
  /\ validateDimensions
       {| width := 96; height := 96; scrollWidth := 96; scrollHeight := 96 |}
       {| presLayout := Some {| layoutWidthEmu := 1005840;
                                layoutHeightEmu := 914400 |};
          slides := slides pres |}
     <> [].
Proof.
  split; [|split].
  - unfold validateDimensions.
    destruct (presLayout pres) as [layout|]; [|tauto].
    cbv zeta.
    destruct (Qltb (rnd (1 # 10))
                (Qabs (dsub (ddiv (layoutWidthEmu layout) EMU_PER_IN)
                            (ddiv (width bodyDimensions) PX_PER_IN))))
      eqn:Ew;
      [|destruct (Qltb (rnd (1 # 10))
                   (Qabs (dsub (ddiv (layoutHeightEmu layout) EMU_PER_IN)
                               (ddiv (height bodyDimensions) PX_PER_IN))))
          eqn:Eh];
      cbn [orb].
    + split; [discriminate|].
      intros [Hw _]. apply Qltb_lt in Ew. exfalso.
      now apply (Qlt_not_le _ _ Ew).
    + split; [discriminate|].
      intros [_ Hh]. apply Qltb_lt in Eh. exfalso.
      now apply (Qlt_not_le _ _ Eh).
    + split; [|reflexivity].
      intros _. apply Qltb_false in Ew, Eh. now split.
  - unfold validateDimensions.
    destruct (presLayout pres) as [layout|]; [|simpl; lia].
    cbv zeta. destruct (_ || _); simpl; lia.
  - unfold validateDimensions. cbn [presLayout width height layoutWidthEmu
                                     layoutHeightEmu].
    cbv zeta.
    replace (Qltb (rnd (1 # 10))
               (Qabs (dsub (ddiv 1005840 EMU_PER_IN) (ddiv 96 PX_PER_IN))))
      with true by (vm_compute; reflexivity).
    cbn [orb]. discriminate.
Qed.

(** The distance of the lower edge of a box from the bottom of the body, in
    pixels, as doubles give it: the sum of top and height, its product with
    96 and the difference from the height of the body are each rounded. *)
Definition distanceFromBottom (bodyDimensions : BodyBox)
    (position : Position) : Q :=
  dsub (height bodyDimensions)
       (dmul (dadd (y position) (h position)) PX_PER_IN).

(** What exempts an element from the check of the bottom margin: it is no
    text, its font size is at most 12 points or unknown, or its lower edge
    keeps 48 pixels from the bottom of the body. *)
Definition clearOfBottom {Shadow} (bodyDimensions : BodyBox)
    (el : SlideElement Shadow) : Prop :=
  match el with
  | ImageEl _ _ | LineEl _ _ _ _ _ _ | ShapeEl _ _ => True
  | ListEl _ position style =>
      orZero (styleFontSize style) <= 12
      \/ 48 <= distanceFromBottom bodyDimensions position
  | TextEl type _ position style =>
      existsb (str_eqb type) textTypes = false
      \/ orZero (styleFontSize style) <= 12
      \/ 48 <= distanceFromBottom bodyDimensions position
  end.

Lemma flat_map_nil {A B} (f : A -> list B) (l : list A) :
  flat_map f l = [] <-> forall a, In a l -> f a = [].
Proof.
  induction l as [|a l IH]; cbn [flat_map].
  - split; [contradiction|reflexivity].
  - split.
    + intros E. apply app_eq_nil in E as [Ea El].
      intros b [<-|Hb]; [exact Ea|]. now apply IH.
    + intros Hall. rewrite (Hall a (or_introl eq_refl)).
      apply IH. intros b Hb. apply Hall. now right.
Qed.

Lemma flat_map_length_le {A B} (f : A -> list B) (l : list A) :
  (forall a, length (f a) <= 1)%nat ->
  (length (flat_map f l) <= length l)%nat.
Proof.
  intros Hf. induction l as [|a l IH]; [reflexivity|].
  cbn [flat_map length]. rewrite length_app. specialize (Hf a). lia.
Qed.

(** X21.  The check of the bottom margin reports nothing exactly when every
    element is clear of the bottom: images, lines and shapes always are,
    text of at most 12 points always is, and other text is when its lower
    edge keeps 48 pixels from the bottom of the body, the distance being
    computed on doubles.  It reports at most one error for an element.  A
    box 2 pixels from the top and 670 pixels high, its position in inches,
    keeps 48 pixels in a body of 720 pixels. *)
Theorem validateTextBoxPosition_clear {Shadow} (slideData : SlideData Shadow)
    (bodyDimensions : BodyBox) :
  (validateTextBoxPosition slideData bodyDimensions = []
   <-> forall el, In el (elements slideData) ->
                  clearOfBottom bodyDimensions el)
  /\ (length (validateTextBoxPosition slideData bodyDimensions)
      <= length (elements slideData))%nat
  /\ distanceFromBottom
       {| width := 960; height := 720; scrollWidth := 960;
          scrollHeight := 720 |}
       {| x := 0; y := ddiv 2 PX_PER_IN; w := 1; h := ddiv 670 PX_PER_IN |}
     = 48.
Proof.
  unfold validateTextBoxPosition. split; [|split; [|vm_compute; reflexivity]].
  - rewrite flat_map_nil. split; intros Hall el Hel; specialize (Hall el Hel).
    + destruct el as [src pos|x1 y1 x2 y2 wd c|pos sh|items pos st
                     |type content pos st]; cbn [clearOfBottom]; try exact I.
      * cbn [elementType] in Hall.
        change (existsb (str_eqb (js "list")) textTypes) with true in Hall.
        cbv iota beta zeta in Hall.
        fold (distanceFromBottom bodyDimensions pos) in Hall.
        destruct (Qltb 12 (orZero (styleFontSize st))) eqn:Ef;
          [|left; now apply Qltb_false].
        destruct (Qltb (distanceFromBottom bodyDimensions pos) 48) eqn:Ed;
          [discriminate Hall|].
        right. now apply Qltb_false.
      * cbn [elementType] in Hall.
        destruct (existsb (str_eqb type) textTypes); [|now left].
        right.
        assert (Hsame :
          (if Qltb 12 (orZero (styleFontSize st))
              && Qltb (distanceFromBottom bodyDimensions pos) 48
           then [[0%N]] else []) = []).
        { destruct content; cbv iota beta zeta in Hall;
            fold (distanceFromBottom bodyDimensions pos) in Hall;
            destruct (Qltb 12 (orZero (styleFontSize st))
                      && Qltb (distanceFromBottom bodyDimensions pos) 48);
            [discriminate Hall|reflexivity|discriminate Hall|reflexivity]. }
        destruct (Qltb 12 (orZero (styleFontSize st))) eqn:Ef;
          [|left; now apply Qltb_false].
        destruct (Qltb (distanceFromBottom bodyDimensions pos) 48) eqn:Ed;
          [discriminate Hsame|].
        right. now apply Qltb_false.
    + destruct el as [src pos|x1 y1 x2 y2 wd c|pos sh|items pos st
                     |type content pos st]; cbn [clearOfBottom] in Hall;
        cbn [elementType]; try reflexivity.
      * change (existsb (str_eqb (js "list")) textTypes) with true.
        cbv iota beta zeta.
        fold (distanceFromBottom bodyDimensions pos).
        destruct Hall as [Hf|Hd].
        -- apply Qltb_false in Hf. now rewrite Hf.
        -- apply Qltb_false in Hd. rewrite Hd. now rewrite andb_false_r.
      * destruct (existsb (str_eqb type) textTypes) eqn:Et; [|reflexivity].
        destruct Hall as [Hn|[Hf|Hd]]; [discriminate Hn| |].
        -- apply Qltb_false in Hf.
           destruct content; cbv iota beta zeta; now rewrite Hf.
        -- apply Qltb_false in Hd.
           destruct content; cbv iota beta zeta;
             fold (distanceFromBottom bodyDimensions pos); rewrite Hd;
             now rewrite andb_false_r.
  - apply flat_map_length_le. intros el.
    destruct (existsb (str_eqb (elementType el)) textTypes); [|simpl; lia].
    destruct el as [src pos|x1 y1 x2 y2 wd c|pos sh|items pos st
                   |type [s|runs] pos st]; cbv iota beta zeta;
      match goal with
      | |- context [if ?c then _ else _] => destruct c
      end; simpl; lia.
Qed.

End ValidationFacts.

(** ** More on containers (html2pptx.js) *)

Module ContainerMoreFacts.
Import Html2Pptx.

Section Invisible.
Variable Shadow : Type.
Variable parseBoxShadow : jsstring -> option Shadow.

(** The container has no fill: its background colour is absent or the
    transparent black of the computed style. *)
Definition unfilled (computed : Computed.style) : Prop :=
  Computed.backgroundColor computed = []
  \/ Computed.backgroundColor computed = js "rgba(0, 0, 0, 0)".

(** The width of every edge is a number, and none is positive. *)
Definition unbordered (computed : Computed.style) : Prop :=
  forall e, exists v, parseFloat (edgeWidth computed e) = Num v /\ v <= 0.

Lemma unfilled_hasBg (computed : Computed.style) :
  unfilled computed ->
  nonEmpty (Computed.backgroundColor computed)
  && negb (str_eqb (Computed.backgroundColor computed)
                   (js "rgba(0, 0, 0, 0)")) = false.
Proof.
  intros [->| ->]; [reflexivity|].
  rewrite str_eqb_refl. apply andb_false_r.
Qed.

Lemma unbordered_hasBorder (computed : Computed.style) :
  unbordered computed ->
  existsb (fun b => Qltb 0 b)
    (map (fun e => orZero (parseFloat (edgeWidth computed e)))
         [TopEdge; RightEdge; BottomEdge; LeftEdge]) = false.
Proof.
  intros Hb. cbn [map existsb].
  assert (Hedge : forall e,
             Qltb 0 (orZero (parseFloat (edgeWidth computed e))) = false).
  { intros e. destruct (Hb e) as [v [-> Hv]].
    now apply ValidationFacts.Qltb_false. }
  now rewrite !Hedge.
Qed.

(** The element has the class [placeholder]. *)
Definition isPlaceholder (classList : list jsstring) : bool :=
  existsb (str_eqb (js "placeholder")) classList.

(** X22.  A [DIV] that is not a placeholder and that has neither fill nor
    border, or that has no area, gives the slide no shape and no border
    line and is not marked as processed, whatever its shadow and its
    radius; and whatever such a [DIV] looks like, the text found directly
    in it is reported.  A placeholder gives the slide no shape or line
    either, but it is marked as processed, and of its text nothing is
    reported: it is recorded as a placeholder when it has an area and
    reported as one without size otherwise. *)
Theorem extractContainer_invisible (classList : list jsstring)
    (id : jsstring) (placeholderCount : nat) (computed : Computed.style)
    (rect : DOMRect) (childNodes : list Node) :
  let visited :=
    extractDiv parseBoxShadow classList id placeholderCount computed rect
               childNodes in
  (isPlaceholder classList = false ->
   (unfilled computed /\ unbordered computed
    \/ rectWidth rect <= 0 \/ rectHeight rect <= 0 ->
    elementsPushed visited = [] /\ processedAdded visited = false)
   /\ placeholdersPushed visited = []
   /\ exists others,
        errorsPushed visited = unwrappedTextErrors childNodes ++ others)
  /\ (isPlaceholder classList = true ->
      elementsPushed visited = [] /\ processedAdded visited = true
      /\ (rectWidth rect == 0 \/ rectHeight rect == 0 ->
          placeholdersPushed visited = []
          /\ errorsPushed visited
             = [js "占位符“" ++ (if nonEmpty id then id else js "未命名")
                ++ js "”宽高为0。请检查布局CSS。"])
      /\ (~ rectWidth rect == 0 -> ~ rectHeight rect == 0 ->
          errorsPushed visited = []
          /\ exists placeholder,
               placeholdersPushed visited = [placeholder]
               /\ placeholderBox placeholder
                  = {| x := pxToInch (rectLeft rect);
                       y := pxToInch (rectTop rect);
                       w := pxToInch (rectWidth rect);
                       h := pxToInch (rectHeight rect) |})).
Proof.
  intros visited. unfold visited, extractDiv, isPlaceholder.
  destruct (existsb (str_eqb (js "placeholder")) classList).
  - split; [discriminate|]. intros _.
    destruct (Qeq_bool (rectWidth rect) 0) eqn:Ew;
      [|destruct (Qeq_bool (rectHeight rect) 0) eqn:Eh];
      cbn [orb elementsPushed processedAdded placeholdersPushed
           errorsPushed].
    + split; [reflexivity|]. split; [reflexivity|].
      split; [now split|].
      intros Hw. elim Hw. now apply Qeq_bool_eq.
    + split; [reflexivity|]. split; [reflexivity|].
      split; [now split|].
      intros _ Hh. elim Hh. now apply Qeq_bool_eq.
    + split; [reflexivity|]. split; [reflexivity|]. split.
      * intros [H0|H0]; apply Qeq_eq_bool in H0; congruence.
      * intros _ _. split; [reflexivity|]. eexists. split; reflexivity.
  - split; [|discriminate]. intros _.
    cbn [elementsPushed processedAdded placeholdersPushed errorsPushed].
    unfold extractContainer.
    destruct (nonEmpty (Computed.backgroundImage computed)
              && negb (str_eqb (Computed.backgroundImage computed)
                               (js "none"))).
    { cbn [pushed claimed reported]. split; [now split|].
      split; [reflexivity|]. now eexists. }
    cbv zeta. split; [|split; [reflexivity|]].
    + intros [[Hf Hb]|Harea].
      * rewrite (unfilled_hasBg computed Hf),
          (unbordered_hasBorder computed Hb).
        cbn [orb andb pushed claimed]. now split.
      * assert (Hno : Qltb 0 (rectWidth rect) && Qltb 0 (rectHeight rect)
                      = false).
        { destruct Harea as [Hw|Hh].
          - now rewrite (proj2 (ValidationFacts.Qltb_false _ _) Hw).
          - rewrite (proj2 (ValidationFacts.Qltb_false _ _) Hh).
            apply andb_false_r. }
        rewrite Hno, andb_false_r. cbn [pushed claimed]. now split.
    + match goal with
      | |- context [if ?c then _ else _] => destruct c
      end; cbn [reported]; exists []; now rewrite app_nil_r.
Qed.

End Invisible.

End ContainerMoreFacts.

(** ** More on the inline run parser (html2pptx.js) *)

Module RunMoreFacts.
Import Html2Pptx.

(** White space as [collapseSpaces] leaves it: single spaces only. *)
Fixpoint singleSpaced (s : jsstring) : bool :=
  match s with
  | [] => true
  | c :: t =>
      (negb (isSpace c) || (c =? 32)%N)
      && match t with
         | d :: _ => negb (isSpace c && isSpace d)
         | [] => true
         end
      && singleSpaced t
  end.

Lemma collapseSpaces_cons (c : char) (t : jsstring) :
  collapseSpaces (c :: t)
  = if isSpace c then
      match t with
      | d :: _ => if isSpace d then collapseSpaces t
                  else 32%N :: collapseSpaces t
      | [] => [32%N]
      end
    else c :: collapseSpaces t.
Proof. reflexivity. Qed.

Lemma collapseSpaces_head (c : char) (t : jsstring) :
  exists c' r, collapseSpaces (c :: t) = c' :: r
               /\ isSpace c' = isSpace c
               /\ (isSpace c = false -> c' = c).
Proof.
  revert c. induction t as [|d t IH]; intros c; rewrite collapseSpaces_cons.
  - destruct (isSpace c) eqn:E; [now exists 32%N, []|now exists c, []].
  - destruct (isSpace c) eqn:E.
    + destruct (isSpace d) eqn:Ed.
      * destruct (IH d) as [c' [r [Hr [Hs _]]]]. exists c', r.
        split; [exact Hr|]. split; [congruence|discriminate].
      * eexists. eexists. split; [reflexivity|]. split; [reflexivity|].
        discriminate.
    + eexists. eexists. split; [reflexivity|]. split; [exact E|reflexivity].
Qed.

Lemma collapseSpaces_singleSpaced (s : jsstring) :
  singleSpaced (collapseSpaces s) = true.
Proof.
  induction s as [|c t IH]; [reflexivity|].
  rewrite collapseSpaces_cons. destruct (isSpace c) eqn:E.
  - destruct t as [|d t]; [reflexivity|].
    destruct (isSpace d) eqn:Ed; [exact IH|].
    destruct (collapseSpaces_head d t) as [d' [r [Hr [Hs _]]]].
    rewrite Hr in IH |- *.
    change (singleSpaced (32%N :: d' :: r))
      with (negb (isSpace d') && singleSpaced (d' :: r)).
    rewrite Hs, Ed, IH. reflexivity.
  - destruct t as [|d t]; [cbn [collapseSpaces singleSpaced]; now rewrite E|].
    destruct (collapseSpaces_head d t) as [d' [r [Hr _]]].
    rewrite Hr in IH |- *.
    change (singleSpaced (c :: d' :: r))
      with ((negb (isSpace c) || (c =? 32)%N)
            && negb (isSpace c && isSpace d') && singleSpaced (d' :: r)).
    rewrite E, IH. reflexivity.
Qed.

Lemma collapseSpaces_fixed (s : jsstring) :
  singleSpaced s = true -> collapseSpaces s = s.
Proof.
  induction s as [|c t IH]; [reflexivity|].
  cbn [singleSpaced]. intros H.
  apply andb_true_iff in H as [H Ht]. apply andb_true_iff in H as [Hc Hn].
  rewrite collapseSpaces_cons, (IH Ht).
  destruct (isSpace c) eqn:E; [|reflexivity].
  cbn [negb orb] in Hc. apply N.eqb_eq in Hc. subst c.
  destruct t as [|d t]; [reflexivity|].
  cbn [andb] in Hn. apply negb_true_iff in Hn. now rewrite Hn.
Qed.

Lemma collapseSpaces_length (s : jsstring) :
  (length (collapseSpaces s) <= length s)%nat.
Proof.
  induction s as [|c t IH]; [reflexivity|].
  rewrite collapseSpaces_cons. destruct (isSpace c).
  - destruct t as [|d t]; [reflexivity|].
    destruct (isSpace d); cbn [length] in *; lia.
  - cbn [length]. lia.
Qed.

(** X23.  The text of a text node after [replace(/\s+/g, " ")]: every white
    space character left is a space and no two follow one another; the
    text is not longer than before, and collapsing it again changes
    nothing. *)
Theorem collapseSpaces_single_spaces (s : jsstring) :
  singleSpaced (collapseSpaces s) = true
  /\ collapseSpaces (collapseSpaces s) = collapseSpaces s
  /\ (length (collapseSpaces s) <= length s)%nat.
Proof.
  split; [apply collapseSpaces_singleSpaced|].
  split; [apply collapseSpaces_fixed, collapseSpaces_singleSpaced|].
  apply collapseSpaces_length.
Qed.

Section Parser.
Context `{Host}.

(** A property of the options that the options of an inline element keep,
    and of the runs that all have it. *)
Variable kept : RunOptions -> Prop.
Hypothesis inlineOptions_kept :
  forall computed baseOptions,
    kept baseOptions -> kept (inlineOptions computed baseOptions).

Definition allKept (runs : list Run) : Prop :=
  Forall (fun r => kept (options r)) runs.

Lemma updateLast_kept f runs : allKept runs -> allKept (updateLast f runs).
Proof.
  intros Hr. unfold updateLast.
  destruct (rev runs) as [|r before] eqn:E; [constructor|].
  apply (f_equal (@rev _)) in E. rewrite rev_involutive in E. cbn [rev] in E.
  subst runs. apply Forall_app in Hr as [Hb Hl].
  apply Forall_app. split; [exact Hb|].
  constructor; [|constructor]. now inversion Hl.
Qed.

Lemma updateFirst_kept f runs : allKept runs -> allKept (updateFirst f runs).
Proof.
  intros Hr. destruct runs as [|r after]; [constructor|].
  inversion Hr; subst. now constructor.
Qed.

Lemma addFragment_kept prev fragment baseOptions runs :
  kept baseOptions -> allKept runs ->
  allKept (addFragment prev fragment baseOptions runs).
Proof.
  intros Hb Hr. unfold addFragment.
  destruct (prev && negb (length runs =? 0)%nat).
  - now apply updateLast_kept.
  - apply Forall_app. split; [exact Hr|]. now repeat constructor.
Qed.

Lemma trimEnds_kept runs : allKept runs -> allKept (trimEnds runs).
Proof.
  intros Hr. unfold trimEnds. now apply updateLast_kept, updateFirst_kept.
Qed.

(** What one child adds: runs that keep the property, and errors after the
    errors that were there. *)
Definition extends (before after : Parse) : Prop :=
  (allKept (runs before) -> allKept (runs after))
  /\ exists added, parseErrors after = parseErrors before ++ added.

Lemma extends_refl st : extends st st.
Proof. split; [tauto|]. exists []. now rewrite app_nil_r. Qed.

Lemma extends_trans a b c : extends a b -> extends b c -> extends a c.
Proof.
  intros [R1 [e1 E1]] [R2 [e2 E2]]. split; [tauto|].
  exists (e1 ++ e2). now rewrite E2, E1, app_assoc.
Qed.

Lemma visitAll_extends (children : list Node) :
  Forall (fun node =>
            forall baseOptions textTransform prev st,
              kept baseOptions ->
              extends st (fst (visit node baseOptions textTransform prev st)))
         children ->
  forall baseOptions textTransform prev st,
    kept baseOptions ->
    extends st (visitAll children baseOptions textTransform prev st).
Proof.
  induction 1 as [|child children Hc _ IH];
    intros baseOptions textTransform prev st Hk; cbn [visitAll].
  - apply extends_refl.
  - specialize (Hc baseOptions textTransform prev st Hk).
    destruct (visit child baseOptions textTransform prev st) as [s' prev'].
    cbn [fst] in Hc. apply (extends_trans _ s'); [exact Hc|].
    now apply IH.
Qed.

Lemma visit_extends (node : Node) :
  forall baseOptions textTransform prev st,
    kept baseOptions ->
    extends st (fst (visit node baseOptions textTransform prev st)).
Proof.
  induction node as [data|data|tagName computed rect children IH]
    using RunFacts.Node_induction;
    intros baseOptions textTransform prev st Hk; cbn [visit].
  - cbn [fst]. split; cbn [runs parseErrors].
    + now apply addFragment_kept.
    + exists []. now rewrite app_nil_r.
  - apply extends_refl.
  - destruct (str_eqb tagName (js "BR")).
    { cbn [fst]. split; cbn [runs parseErrors].
      + now apply addFragment_kept.
      + exists []. now rewrite app_nil_r. }
    destruct (nonEmpty _ && existsb _ _); [|apply extends_refl].
    cbn [fst]. rewrite RunFacts.visit_children.
    match goal with
    | |- extends _ {| runs := trimEnds (runs ?s2); parseErrors := _ |} =>
        assert (H2 : extends
                       {| runs := runs st;
                          parseErrors := parseErrors st
                                         ++ marginErrors tagName computed |}
                       s2)
          by (apply (visitAll_extends children IH);
              now apply inlineOptions_kept);
        destruct H2 as [R2 [added E2]]
    end.
    split; cbn [runs parseErrors] in *.
    + intros Hr. apply trimEnds_kept. now apply R2.
    + exists (marginErrors tagName computed ++ added).
      now rewrite E2, app_assoc.
Qed.

Lemma parseInlineFormatting_extends (childNodes : list Node)
    (baseOptions : RunOptions) (runs0 : list Run)
    (baseTextTransform : jsstring -> jsstring) (errors0 : list jsstring) :
  kept baseOptions -> allKept runs0 ->
  allKept (fst (parseInlineFormatting childNodes baseOptions runs0
                  baseTextTransform errors0))
  /\ exists added,
       snd (parseInlineFormatting childNodes baseOptions runs0
              baseTextTransform errors0) = errors0 ++ added.
Proof.
  intros Hk Hr. unfold parseInlineFormatting. cbn [fst snd].
  destruct (visitAll_extends childNodes
              (proj2 (Forall_forall _ _) (fun node _ => visit_extends node))
              baseOptions baseTextTransform false
              {| runs := runs0; parseErrors := errors0 |} Hk) as [R [added E]].
  split; [|now exists added].
  unfold allKept. apply Forall_forall. intros r Hin.
  apply filter_In in Hin as [Hin _].
  revert r Hin. apply Forall_forall. apply trimEnds_kept. now apply R.
Qed.

End Parser.

(** X24.  Formatting is inherited and never switched off: under options
    that are bold, every run that the parser returns is bold, whatever the
    computed styles of the inline elements it goes through; the same holds
    of italic and of underlined. *)
Theorem inline_formatting_is_inherited `{Host} (childNodes : list Node)
    (baseOptions : RunOptions) (baseTextTransform : jsstring -> jsstring)
    (errors0 : list jsstring) :
  let returned :=
    fst (parseInlineFormatting childNodes baseOptions [] baseTextTransform
           errors0) in
  (bold baseOptions = Some true ->
   forall r, In r returned -> bold (options r) = Some true)
  /\ (italic baseOptions = Some true ->
      forall r, In r returned -> italic (options r) = Some true)
  /\ (underline baseOptions = Some true ->
      forall r, In r returned -> underline (options r) = Some true).
Proof.
  intros returned.
  assert (Hgen : forall kept : RunOptions -> Prop,
             (forall computed base,
                 kept base -> kept (inlineOptions computed base)) ->
             kept baseOptions ->
             forall r, In r returned -> kept (options r)).
  { intros kept Hi Hk. apply Forall_forall.
    apply (parseInlineFormatting_extends kept Hi); [exact Hk|constructor]. }
  split; [|split]; intros Hb.
  - apply (Hgen (fun o => bold o = Some true)); [|exact Hb].
    intros computed base Hbase. cbn [inlineOptions bold]. rewrite Hbase.
    now destruct (isBoldWeight computed && _).
  - apply (Hgen (fun o => italic o = Some true)); [|exact Hb].
    intros computed base Hbase. cbn [inlineOptions italic]. rewrite Hbase.
    now destruct (str_eqb _ _).
  - apply (Hgen (fun o => underline o = Some true)); [|exact Hb].
    intros computed base Hbase. cbn [inlineOptions underline]. rewrite Hbase.
    now destruct (includes _ _).
Qed.

(** X25.  The parser only adds to the validation errors: the errors it
    leaves begin with the errors it was given. *)
Theorem parseInlineFormatting_keeps_errors `{Host} (childNodes : list Node)
    (baseOptions : RunOptions) (runs0 : list Run)
    (baseTextTransform : jsstring -> jsstring) (errors0 : list jsstring) :
  exists added,
    snd (parseInlineFormatting childNodes baseOptions runs0 baseTextTransform
           errors0) = errors0 ++ added.
Proof.
  apply (parseInlineFormatting_extends (fun _ => True)).
  - intros; exact I.
  - exact I.
  - apply Forall_forall. intros; exact I.
Qed.

End RunMoreFacts.

(** ** The command line (convert.js) *)

Module ConvertFacts.
Import AutoFix Convert.

Lemma parseArgsFrom_two (arg value : jsstring) (rest : list jsstring)
    (options : CliOptions) :
  parseArgsFrom (arg :: value :: rest) options
  = if str_eqb arg (js "--folder") && nonEmpty value then
      parseArgsFrom rest
        {| mode := Some FolderMode; input := Some value;
           output := output options |}
    else if str_eqb arg (js "--file") && nonEmpty value then
      parseArgsFrom rest
        {| mode := Some FileMode; input := Some value;
           output := output options |}
    else if str_eqb arg (js "--output") && nonEmpty value then
      parseArgsFrom rest
        {| mode := mode options; input := input options; output := value |}
    else parseArgsFrom (value :: rest) options.
Proof. reflexivity. Qed.

Lemma parseArgsFrom_invariant (args : list jsstring) :
  forall n options all,
    (length args <= n)%nat ->
    (forall a, In a args -> In a all) ->
    (mode options = None <-> input options = None) ->
    (forall v, input options = Some v -> v <> [] /\ In v all) ->
    (output options = js "output.pptx"
     \/ output options <> [] /\ In (output options) all) ->
    let parsed := parseArgsFrom args options in
    (mode parsed = None <-> input parsed = None)
    /\ (forall v, input parsed = Some v -> v <> [] /\ In v all)
    /\ (output parsed = js "output.pptx"
        \/ output parsed <> [] /\ In (output parsed) all).
Proof.
  intros n. revert args.
  induction n as [|n IH]; intros args options all Hlen Hall Hm Hi Ho.
  - destruct args; [|simpl in Hlen; lia]. cbn [parseArgsFrom]. tauto.
  - destruct args as [|arg [|value rest]];
      [cbn [parseArgsFrom]; tauto|cbn [parseArgsFrom]; tauto|].
    rewrite parseArgsFrom_two.
    assert (Hrest : forall a, In a (value :: rest) -> In a all)
      by (intros a Ha; apply Hall; now right).
    assert (Hrest' : forall a, In a rest -> In a all)
      by (intros a Ha; apply Hall; right; now right).
    assert (Hvalue : nonEmpty value = true -> value <> [] /\ In value all).
    { intros Hv. split; [now destruct value|].
      apply Hall. right. now left. }
    simpl in Hlen.
    destruct (str_eqb arg (js "--folder") && nonEmpty value) eqn:E1;
      [|destruct (str_eqb arg (js "--file") && nonEmpty value) eqn:E2;
        [|destruct (str_eqb arg (js "--output") && nonEmpty value) eqn:E3]].
    + apply andb_true_iff in E1 as [_ Hv].
      apply IH; cbn [mode input output]; try assumption; try lia.
      * split; discriminate.
      * intros v Ev. injection Ev as <-. now apply Hvalue.
    + apply andb_true_iff in E2 as [_ Hv].
      apply IH; cbn [mode input output]; try assumption; try lia.
      * split; discriminate.
      * intros v Ev. injection Ev as <-. now apply Hvalue.
    + apply andb_true_iff in E3 as [_ Hv].
      apply IH; cbn [mode input output]; try assumption; try lia.
      right. now apply Hvalue.
    + apply IH; try assumption. simpl. lia.
Qed.

(** X26.  What [parseArgs] returns: an input exactly when it returns a
    mode; the input and the output are taken as they stand from the
    arguments, and are never the empty string; without an [--output] that
    has a value the output is [output.pptx]. *)
Theorem parseArgs_options (args : list jsstring) :
  let options := parseArgs args in
  (mode options = None <-> input options = None)
  /\ (forall v, input options = Some v -> v <> [] /\ In v args)
  /\ (output options = js "output.pptx"
      \/ output options <> [] /\ In (output options) args)
  /\ (~ In (js "--output") args -> output options = js "output.pptx").
Proof.
  intros options.
  destruct (parseArgsFrom_invariant args (length args)
              {| mode := None; input := None; output := js "output.pptx" |}
              args (Nat.le_refl _) (fun a H => H)) as [Hm [Hi Ho]];
    cbn [mode input output]; try tauto; try discriminate.
  split; [exact Hm|]. split; [exact Hi|]. split; [exact Ho|].
  intros Hno. unfold options, parseArgs.
  assert (Hgen : forall n args' (o : CliOptions),
             (length args' <= n)%nat -> ~ In (js "--output") args' ->
             output (parseArgsFrom args' o) = output o).
  { induction n as [|n IH]; intros args' o Hlen Hn.
    - destruct args'; [reflexivity|simpl in Hlen; lia].
    - destruct args' as [|arg [|value rest]]; try reflexivity.
      rewrite parseArgsFrom_two. simpl in Hlen.
      assert (Hr : ~ In (js "--output") rest)
        by (intros H; apply Hn; right; now right).
      assert (Hr' : ~ In (js "--output") (value :: rest))
        by (intros H; apply Hn; now right).
      destruct (str_eqb arg (js "--folder") && nonEmpty value);
        [rewrite IH by (try lia; assumption); reflexivity|].
      destruct (str_eqb arg (js "--file") && nonEmpty value);
        [rewrite IH by (try lia; assumption); reflexivity|].
      destruct (str_eqb arg (js "--output") && nonEmpty value) eqn:E3.
      + apply andb_true_iff in E3 as [E3 _]. apply str_eqb_spec in E3.
        elim Hn. now left.
      + apply IH; [simpl; lia|assumption]. }
  now rewrite (Hgen (length args)).
Qed.

Lemma endsWith_spec (s suffix : jsstring) :
  endsWith s suffix = true <-> exists before, s = before ++ suffix.
Proof.
  unfold endsWith, startsWith.
  destruct (strip (rev suffix) (rev s)) as [r|] eqn:E.
  - apply strip_Some in E. split; [intros _|reflexivity].
    exists (rev r). apply (f_equal (@rev _)) in E.
    now rewrite rev_involutive, rev_app_distr, rev_involutive in E.
  - split; [discriminate|]. intros [before ->].
    rewrite rev_app_distr, strip_app in E. discriminate.
Qed.

Lemma endsWith_app (before suffix : jsstring) :
  endsWith (before ++ suffix) suffix = true.
Proof. apply endsWith_spec. now exists before. Qed.

(** X27.  The choice of the slide files of a folder: a name is taken when
    it ends with [.html] and does not begin with [_skip_]; the test for
    [.backup] changes nothing, since no name that ends with [.html] ends
    with [.backup].  The backup that [save] writes beside a file is
    therefore never taken for a slide. *)
Theorem isSlideFile_choice (file : jsstring) :
  isSlideFile file
  = endsWith file (js ".html") && negb (startsWith file (js "_skip_"))
  /\ isSlideFile (file ++ js ".backup") = false.
Proof.
  unfold isSlideFile. split.
  - destruct (endsWith file (js ".html")) eqn:Eh; [|reflexivity].
    destruct (endsWith file (js ".backup")) eqn:Eb; [|reflexivity].
    apply endsWith_spec in Eh as [a Ea]. apply endsWith_spec in Eb as [b Eb].
    rewrite Ea in Eb. exfalso.
    change (js ".html") with (js ".htm" ++ [108%N]) in Eb.
    change (js ".backup") with (js ".backu" ++ [112%N]) in Eb.
    rewrite !app_assoc in Eb. apply app_inj_tail in Eb as [_ Eb].
    discriminate Eb.
  - rewrite (endsWith_app file (js ".backup")).
    now rewrite andb_false_r.
Qed.

Section Retry.
Variables Result Presentation : Type.
Variable html2pptx :
  FileSystem -> Presentation -> Outcome Result * Presentation.
Variables (parse : jsstring -> Document) (serialize : Document -> jsstring).
Variable htmlFile : jsstring.

(** The conversion with the fixers of auto_fix.js. *)
Definition convertWithFixers :=
  @tryConvertWithAutoFix Result Presentation html2pptx
    (autoFixHtml parse serialize htmlFile).

(** X28.  A conversion with one attempt at a fix leaves every file but the
    converted one as it was - no backup is ever written, although the fix
    is asked for with [backup: true] - and it leaves the converted file
    as it was, too, when the direct conversion succeeds. *)
Theorem tryConvertWithAutoFix_files (fs : FileSystem)
    (pptx : Presentation) :
  let '(attempt, after, _) := convertWithFixers fs pptx in
  (forall q, q <> htmlFile -> after q = fs q)
  /\ after (htmlFile ++ js ".backup") = fs (htmlFile ++ js ".backup")
  /\ (method attempt = Direct -> after = fs).
Proof.
  unfold convertWithFixers, tryConvertWithAutoFix.
  assert (Hfix : forall message q,
             q <> htmlFile ->
             snd (autoFixHtml parse serialize htmlFile message
                    {| backup := true |} fs) q = fs q)
    by (intros; now apply FileFacts.autoFixHtml_other).
  destruct (html2pptx fs pptx) as [[r|lastError] pptx1].
  - split; [reflexivity|]. split; reflexivity.
  - specialize (Hfix lastError).
    destruct (autoFixHtml parse serialize htmlFile lastError
                {| backup := true |} fs) as [[[|]|m] fs1]; cbn [snd] in Hfix.
    + destruct (html2pptx fs1 pptx1) as [[r|retryError] pptx2];
        (split; [exact Hfix|]);
        (split; [apply Hfix, FileFacts.backup_not_path|discriminate]).
    + split; [exact Hfix|].
      split; [apply Hfix, FileFacts.backup_not_path|discriminate].
    + split; [exact Hfix|].
      split; [apply Hfix, FileFacts.backup_not_path|discriminate].
Qed.

(** X29.  What a conversion with one attempt at a fix reports.  When the
    direct conversion returns, its result, as [Direct].  When it fails, the
    file is handed to the fixers with the message of the failure; if the
    fixing returns [true], the file is converted again, and the outcome is
    the result of that conversion, as [AutoFix], or a failure with the
    message of that second conversion; if the fixing returns [false] or
    fails itself, the outcome is a failure with the message of the first
    conversion - never a message of the fixers.  So success comes exactly
    with a result. *)
Theorem tryConvertWithAutoFix_reports (fs : FileSystem)
    (pptx : Presentation) :
  let '(attempt, after, _) := convertWithFixers fs pptx in
  let fixing message :=
    autoFixHtml parse serialize htmlFile message {| backup := true |} fs in
  let retry := html2pptx after (snd (html2pptx fs pptx)) in
  (success attempt = true <-> method attempt <> Failed)
  /\ (success attempt = true <-> exists r, result attempt = Some r)
  /\ (method attempt = Direct <->
      exists r, fst (html2pptx fs pptx) = Returned r)
  /\ (forall r, fst (html2pptx fs pptx) = Returned r ->
                result attempt = Some r /\ error attempt = None)
  /\ (forall firstError,
         fst (html2pptx fs pptx) = Thrown firstError ->
         after = snd (fixing firstError)
         /\ (fst (fixing firstError) <> Returned true ->
             method attempt = Failed /\ error attempt = Some firstError
             /\ result attempt = None)
         /\ (fst (fixing firstError) = Returned true ->
             (forall r, fst retry = Returned r ->
                        method attempt = AutoFix
                        /\ result attempt = Some r
                        /\ error attempt = None)
             /\ (forall retryError,
                    fst retry = Thrown retryError ->
                    method attempt = Failed
                    /\ error attempt = Some retryError
                    /\ result attempt = None))).
Proof.
  unfold convertWithFixers, tryConvertWithAutoFix.
  destruct (html2pptx fs pptx) as [[r|lastError] pptx1] eqn:E1;
    cbn [fst snd].
  - cbn [success method result error].
    split; [split; [discriminate|reflexivity]|].
    split; [split; [now exists r|reflexivity]|].
    split; [split; [now exists r|reflexivity]|].
    split; [intros r' [= <-]; now split|discriminate].
  - destruct (autoFixHtml parse serialize htmlFile lastError
                {| backup := true |} fs) as [[[|]|m] fs1] eqn:Ef.
    + destruct (html2pptx fs1 pptx1) as [[r|retryError] pptx2] eqn:E2;
        cbn [success method result error].
      * split; [split; [discriminate|reflexivity]|].
        split; [split; [now exists r|reflexivity]|].
        split; [split; [discriminate|intros [r' Hr]; discriminate Hr]|].
        split; [discriminate|].
        intros firstError [= <-]. rewrite Ef. cbn [fst snd].
        split; [reflexivity|]. split; [intros H; now elim H|].
        intros _. rewrite E2. cbn [fst].
        split; [intros r' [= <-]; now repeat split|discriminate].
      * split; [split; [discriminate|intros H; now elim H]|].
        split; [split; [discriminate|intros [r' Hr]; discriminate Hr]|].
        split; [split; [discriminate|intros [r' Hr]; discriminate Hr]|].
        split; [discriminate|].
        intros firstError [= <-]. rewrite Ef. cbn [fst snd].
        split; [reflexivity|]. split; [intros H; now elim H|].
        intros _. rewrite E2. cbn [fst].
        split; [discriminate|intros e [= <-]; now repeat split].
    + cbn [success method result error].
      split; [split; [discriminate|intros H; now elim H]|].
      split; [split; [discriminate|intros [r' Hr]; discriminate Hr]|].
      split; [split; [discriminate|intros [r' Hr]; discriminate Hr]|].
      split; [discriminate|].
      intros firstError [= <-]. rewrite Ef. cbn [fst snd].
      split; [reflexivity|]. split; [now repeat split|discriminate].
    + cbn [success method result error].
      split; [split; [discriminate|intros H; now elim H]|].
      split; [split; [discriminate|intros [r' Hr]; discriminate Hr]|].
      split; [split; [discriminate|intros [r' Hr]; discriminate Hr]|].
      split; [discriminate|].
      intros firstError [= <-]. rewrite Ef. cbn [fst snd].
      split; [reflexivity|]. split; [now repeat split|discriminate].
Qed.

End Retry.

End ConvertFacts.
